(** * DATAGerry: object versioning, structural repair, references and
      location-aware deletion

    A shallow embedding of the object routes
    (cmdb/interface/rest_api/framework_routes/objects_routes.py), of the
    object manager (cmdb/framework/cmdb_object_manager.py) and of the user
    manager (cmdb/user_management/managers/user_manager.py), with the
    properties the specification states about them; then further properties
    of these, of the CSV export (cmdb/interface/rest_api/export_routes.py)
    and of the check routine (cmdb/__check__.py).

    Documents are records, collections are lists of documents in storage
    order, and every manager call is a computation over the [World]: the
    collections together with the trace of store accesses made so far. *)

From Stdlib Require Import ZArith QArith String DecimalString.
From stdpp Require Import base decidable list strings sorting.

Local Open Scope string_scope.
Local Open Scope Z_scope.

(** ** Data model *)

(** Field values are untyped at storage level: the JSON scalars. *)
Inductive Value : Type :=
  | VNone
  | VBool (b : bool)
  | VInt (z : Z)
  | VStr (s : string).

#[global] Instance Value_eq_dec : EqDecision Value.
Proof. solve_decision. Defined.

(** An object field, the dict [{"name": ..., "value": ...}]. *)
Record Field : Type := mkField {
  f_name : string;
  f_value : Value
}.

#[global] Instance Field_eq_dec : EqDecision Field.
Proof. solve_decision. Defined.

(** A field definition of a type.  [tf_type] is the input type ("text",
    "ref", ...), [tf_ref_types] the allowed targets of a reference field
    (empty when the key is absent) and [tf_value] the default value, [None]
    when the definition has no "value" key. *)
Record TypeField : Type := mkTypeField {
  tf_name : string;
  tf_type : string;
  tf_ref_types : list Z;
  tf_value : option Value
}.

Record TypeModel : Type := mkType {
  type_public_id : Z;
  type_fields : list TypeField
}.

Record CmdbObject : Type := mkObject {
  public_id : Z;
  type_id : Z;
  version : string;
  active : bool;
  fields : list Field
}.

Record CmdbLocation : Type := mkLocation {
  loc_public_id : Z;
  loc_object_id : Z;
  loc_parent : Z
}.

Record ObjectLinkModel : Type := mkLink {
  link_public_id : Z;
  link_primary : Z;
  link_secondary : Z
}.

Record UserModel : Type := mkUser {
  user_public_id : Z;
  user_name : string
}.

Inductive LogAction : Type := CREATE | EDIT | ACTIVE_CHANGE | DELETE.

Record CmdbObjectLog : Type := mkLog {
  log_action : LogAction;
  log_object_id : Z;
  log_version : string;
  log_comment : string
}.

#[global] Instance CmdbObject_eq_dec : EqDecision CmdbObject.
Proof. solve_decision. Defined.

#[global] Instance CmdbLocation_eq_dec : EqDecision CmdbLocation.
Proof. solve_decision. Defined.

#[global] Instance ObjectLinkModel_eq_dec : EqDecision ObjectLinkModel.
Proof. solve_decision. Defined.

#[global] Instance UserModel_eq_dec : EqDecision UserModel.
Proof. solve_decision. Defined.

Definition field_names (fs : list Field) : list string := map f_name fs.
Definition type_field_names (t : TypeModel) : list string :=
  map tf_name (type_fields t).

(** Python's [sorted] on a list of [str]: the sorted permutation of the list
    for the code-point order. *)
Definition sorted (l : list string) : list string := merge_sort String.le l.

(** Python's [str] and [int] on an integer identifier. *)
Definition str (z : Z) : string := NilZero.string_of_int (Z.to_int z).

(** ** Exceptions, responses and the store *)

Inductive Exn : Type :=
  | ManagerGetError
  | ManagerInsertError
  | ManagerUpdateError
  | ManagerDeleteError
  | ObjectManagerGetError
  | ObjectManagerUpdateError
  | ObjectInsertError
  | ObjectDeleteError
  | AccessDeniedError
  | RenderError
  | CMDBError
  | TypeError
  | KeyError.

#[global] Instance Exn_eq_dec : EqDecision Exn.
Proof. solve_decision. Defined.

(** What a route hands back to Flask: a body built by [make_response] (or a
    response object), [abort status], [ErrorBody status], or an exception no
    handler of the route catches. *)
Inductive Response (A : Type) : Type :=
  | make_response (body : A)
  | abort (status : Z)
  | ErrorBody (status : Z)
  | unhandled (e : Exn).
Arguments make_response {A} body.
Arguments abort {A} status.
Arguments ErrorBody {A} status.
Arguments unhandled {A} e.

Inductive Collection : Type :=
  | ObjectsC | TypesC | LocationsC | LinksC | LogsC | UsersC.

(** One access of the document store. *)
Inductive Event : Type :=
  | EvFindOne (c : Collection)
  | EvFindMany (c : Collection)
  | EvInsert (c : Collection) (id : Z)
  | EvUpdate (c : Collection) (id : Z)
  | EvDelete (c : Collection) (id : Z).

#[global] Instance Collection_eq_dec : EqDecision Collection.
Proof. solve_decision. Defined.

#[global] Instance Event_eq_dec : EqDecision Event.
Proof. solve_decision. Defined.


Record World : Type := mkWorld {
  objects : list CmdbObject;
  types : list TypeModel;
  locations : list CmdbLocation;
  links : list ObjectLinkModel;
  logs : list CmdbObjectLog;
  users : list UserModel;
  io : list Event
}.

Definition set_objects (f : list CmdbObject → list CmdbObject) (w : World) : World :=
  mkWorld (f (objects w)) (types w) (locations w) (links w) (logs w) (users w) (io w).
Definition set_locations (f : list CmdbLocation → list CmdbLocation) (w : World) : World :=
  mkWorld (objects w) (types w) (f (locations w)) (links w) (logs w) (users w) (io w).
Definition set_links (f : list ObjectLinkModel → list ObjectLinkModel) (w : World) : World :=
  mkWorld (objects w) (types w) (locations w) (f (links w)) (logs w) (users w) (io w).
Definition set_logs (f : list CmdbObjectLog → list CmdbObjectLog) (w : World) : World :=
  mkWorld (objects w) (types w) (locations w) (links w) (f (logs w)) (users w) (io w).
Definition set_users (f : list UserModel → list UserModel) (w : World) : World :=
  mkWorld (objects w) (types w) (locations w) (links w) (logs w) (f (users w)) (io w).
Definition emit (e : Event) (w : World) : World :=
  mkWorld (objects w) (types w) (locations w) (links w) (logs w) (users w) (io w ++ [e]).

(** The store's [find_one] on each collection: the first matching document. *)
Definition find_object (id : Z) (w : World) : option CmdbObject :=
  List.find (λ o, bool_decide (public_id o = id)) (objects w).
Definition find_type (id : Z) (w : World) : option TypeModel :=
  List.find (λ t, bool_decide (type_public_id t = id)) (types w).
Definition find_location_for_object (object_id : Z) (w : World) : option CmdbLocation :=
  List.find (λ l, bool_decide (loc_object_id l = object_id)) (locations w).
Definition find_child_location (parent : Z) (w : World) : option CmdbLocation :=
  List.find (λ l, bool_decide (loc_parent l = parent)) (locations w).
Definition find_user (id : Z) (w : World) : option UserModel :=
  List.find (λ u, bool_decide (user_public_id u = id)) (users w).

(** The result of rendering an object against its type: the rendered fields
    (dicts carrying, among other keys, "name" and "value") and the version
    under [object_information]. *)
Record RenderResult : Type := mkRender {
  r_fields : list Field;
  r_version : string
}.

Inductive Tier : Type :=
  | VERSIONING_MAJOR
  | VERSIONING_MINOR
  | VERSIONING_PATCH.

#[global] Instance Tier_eq_dec : EqDecision Tier.
Proof. solve_decision. Defined.

(** The collaborators whose code the routes only call.
    - [delete_fault id]: whether the store fails when object [id] is
      deleted;
    - [CmdbRender o t]: the render result, or the exception raised;
    - [delete_object_reference id o]: object [o] once its references to
      object [id] are cleared;
    - [update_version tier v]: the version string [v] bumped at [tier];
    - [log_fault id]: whether appending a log entry about [id] fails;
    - [acl_denied id]: whether the requesting user is refused on [id]. *)
Record Env : Type := mkEnv {
  delete_fault : Z → bool;
  CmdbRender : CmdbObject → TypeModel → Exn + RenderResult;
  delete_object_reference : Z → CmdbObject → CmdbObject;
  update_version : Tier → string → string;
  log_fault : Z → bool;
  acl_denied : Z → bool
}.

(** ** The computation monad: state, exceptions and early return *)

Inductive Outcome (R A : Type) : Type :=
  | Return (a : A)
  | Raise (e : Exn)
  | Exit (r : Response R).
Arguments Return {R A} a.
Arguments Raise {R A} e.
Arguments Exit {R A} r.

Definition M (R A : Type) : Type := World → Outcome R A * World.

Definition ret {R A} (a : A) : M R A := λ w, (Return a, w).
Definition raise {R A} (e : Exn) : M R A := λ w, (Raise e, w).
Definition exit {R A} (r : Response R) : M R A := λ w, (Exit r, w).
Definition bind {R A B} (m : M R A) (k : A → M R B) : M R B :=
  λ w, match m w with
       | (Return a, w') => k a w'
       | (Raise e, w') => (Raise e, w')
       | (Exit r, w') => (Exit r, w')
       end.
Definition world {R} : M R World := λ w, (Return w, w).
Definition modify {R} (f : World → World) : M R unit := λ w, (Return tt, f w).

(** [try: m except h]: the handler [h] answers [Some k] for the exceptions
    its clauses catch. *)
Definition try_except {R A} (m : M R A) (h : Exn → option (M R A)) : M R A :=
  λ w, match m w with
       | (Raise e, w') =>
           match h e with
           | Some k => k w'
           | None => (Raise e, w')
           end
       | r => r
       end.

Notation "x <- m ;; k" := (bind m (λ x, k))
  (at level 100, m at next level, right associativity).
Notation "m ;;; k" := (bind m (λ _, k))
  (at level 100, right associativity).

(** [for x in l: body]. *)
Fixpoint for_each {R A} (l : list A) (body : A → M R unit) : M R unit :=
  match l with
  | [] => ret tt
  | x :: l' => body x ;;; for_each l' body
  end.

(** [for x in l: acc = body(acc, x)], for loops that fill a local list. *)
Fixpoint for_fold {R A B} (l : list A) (acc : B) (body : B → A → M R B) : M R B :=
  match l with
  | [] => ret acc
  | x :: l' => acc' <- body acc x ;; for_fold l' acc' body
  end.

(** A route is run to the response Flask sends. *)
Definition run_route {R} (m : M R (Response R)) (w : World) : Response R * World :=
  match m w with
  | (Return r, w') => (r, w')
  | (Exit r, w') => (r, w')
  | (Raise e, w') => (unhandled e, w')
  end.

(** Python binds the arguments of a call to the parameters of the [def]
    before the body runs: the positional arguments fill the parameters from
    the left, a keyword argument fills the parameter of its name.  A call
    with more positional arguments than parameters, with a keyword no
    parameter left has, or with a parameter left unfilled does not bind: it
    raises [TypeError] and the body does not run.  [parameters] are those of
    the [def] after [self]; the methods called this way have no defaults. *)
Definition binds (parameters : list string) (positional : nat) (keywords : list string)
    : bool :=
  bool_decide (positional ≤ length parameters)%nat &&
  forallb (λ k, bool_decide (k ∈ drop positional parameters)) keywords &&
  bool_decide (positional + length keywords = length parameters)%nat.

Definition call {R A} (parameters : list string) (positional : nat)
    (keywords : list string) (body : M R A) : M R A :=
  if binds parameters positional keywords then body else raise TypeError.

Definition by_public_id (o1 o2 : CmdbObject) : Prop := public_id o1 ≤ public_id o2.
Definition type_by_public_id (t1 t2 : TypeModel) : Prop :=
  type_public_id t1 ≤ type_public_id t2.
Definition loc_by_public_id (l1 l2 : CmdbLocation) : Prop :=
  loc_public_id l1 ≤ loc_public_id l2.

#[global] Instance by_public_id_dec : RelDecision by_public_id.
Proof. intros o1 o2. unfold by_public_id. apply _. Defined.
#[global] Instance type_by_public_id_dec : RelDecision type_by_public_id.
Proof. intros o1 o2. unfold type_by_public_id. apply _. Defined.
#[global] Instance loc_by_public_id_dec : RelDecision loc_by_public_id.
Proof. intros o1 o2. unfold loc_by_public_id. apply _. Defined.

(** ** The managers *)

(** cmdb/framework/cmdb_object_manager.py, class CmdbObjectManager. *)
Module object_manager.

Definition get_object {R} (id : Z) : M R CmdbObject :=
  modify (emit (EvFindOne ObjectsC)) ;;;
  w <- world ;;
  match find_object id w with
  | Some o => ret o
  | None => raise ObjectManagerGetError
  end.

(** [get_objects_by(sort='public_id', **requirements)]: the requirements
    are the query, a predicate on the stored documents. *)
Definition get_objects_by {R} (requirements : CmdbObject → Prop)
    `{∀ o, Decision (requirements o)} : M R (list CmdbObject) :=
  modify (emit (EvFindMany ObjectsC)) ;;;
  w <- world ;;
  ret (merge_sort by_public_id (filter requirements (objects w))).

Definition get_type {R} (id : Z) : M R TypeModel :=
  modify (emit (EvFindOne TypesC)) ;;;
  w <- world ;;
  match find_type id w with
  | Some t => ret t
  | None => raise ObjectManagerGetError
  end.

Definition get_types_by {R} (requirements : TypeModel → Prop)
    `{∀ t, Decision (requirements t)} : M R (list TypeModel) :=
  modify (emit (EvFindMany TypesC)) ;;;
  w <- world ;;
  ret (merge_sort type_by_public_id (filter requirements (types w))).

(** [insert_object(self, data)]: the CmdbObject built from the dict [data],
    which needs the key [type_id]; then the insert of
    [new_object.to_database()], which the store refuses for an identifier
    in use ([PublicIDAlreadyExists], turned into [ObjectInsertError]).  The
    acknowledgement is the identifier. *)
Definition insert_object_parameters : list string := ["data"].

Definition insert_object {R} (data_public_id : Z) (data_type_id : option Z)
    (data_active : bool) (data_version : string) (data_fields : list Field) : M R Z :=
  match data_type_id with
  | None => raise TypeError
  | Some tid =>
      let new_object := mkObject data_public_id tid data_version data_active data_fields in
      w <- world ;;
      if bool_decide (data_public_id ∈ map public_id (objects w))
      then raise ObjectInsertError
      else
        modify (emit (EvInsert ObjectsC data_public_id)) ;;;
        modify (set_objects (λ l, (l ++ [new_object])%list)) ;;;
        ret data_public_id
  end.

(** [delete_object(self, public_id)]: the store removes the documents with
    this identifier and acknowledges; every exception on the way is turned
    into [ObjectDeleteError]. *)
Definition delete_object_parameters : list string := ["public_id"].

Definition delete_object {R} (E : Env) (public_id_ : Z) : M R bool :=
  if delete_fault E public_id_ then raise ObjectDeleteError
  else
    modify (emit (EvDelete ObjectsC public_id_)) ;;;
    modify (set_objects (filter (λ o, public_id o ≠ public_id_))) ;;;
    ret true.

(** Modelled from the spec: CmdbType.get_field_of_type_with_value, called
    with [input_type='ref'], [_filter='ref_types'] and the type identifier
    as [value], hands back one field dict of the type (the caller reads its
    ['name']): the first reference field whose allowed-target set includes
    [value].  It raises a CMDBError when the type has none. *)
Definition get_field_of_type_with_value (t : TypeModel) (input_type : string)
    (value : Z) : option TypeField :=
  List.find (λ x, bool_decide (tf_type x = input_type ∧ value ∈ tf_ref_types x))
            (type_fields t).

Definition get_object_references {R} (public_id_ : Z) : M R (list CmdbObject) :=
  (* Type of given object id *)
  o <- get_object public_id_ ;;
  let type_id_ := type_id o in
  (* get type list: all types with ref input type with value of type id *)
  req_type_list <-
    get_types_by
      (λ t, Exists (λ f, tf_type f = "ref" ∧ type_id_ ∈ tf_ref_types f) (type_fields t)) ;;
  let type_init_list :=
    flat_map
      (λ current_loop_type,
         match get_field_of_type_with_value current_loop_type "ref" type_id_ with
         | Some ref_field => [(type_public_id current_loop_type, tf_name ref_field)]
         | None => []
         end)
      req_type_list in
  for_fold type_init_list []
    (λ referenced_by_objects possible_object_types,
       found <-
         get_objects_by
           (λ o', type_id o' = possible_object_types.1 ∧
                  Exists (λ fld, f_name fld = possible_object_types.2 ∧
                                 (f_value fld = VInt public_id_ ∨
                                  f_value fld = VStr (str public_id_)))
                         (fields o')) ;;
       ret (referenced_by_objects ++ found)%list).

End object_manager.

(** The managers below are called by the routes; their code is in modules of
    the repository other than the ones embedded here. *)
Module type_manager.

(** Modelled from the spec: TypeManager.get is [FindOne(collection, id) →
    record | NotFound] on the type collection. *)
Definition get {R} (id : Z) : M R TypeModel :=
  modify (emit (EvFindOne TypesC)) ;;;
  w <- world ;;
  match find_type id w with
  | Some t => ret t
  | None => raise ManagerGetError
  end.

End type_manager.

Module manager.

(** Modelled from the spec: ObjectManager.get is [FindOne(collection, id) →
    record | NotFound] on the object collection, after the access-control
    check [CheckPermission(actor, action, object) → allowed | denied]. *)
Definition get {R} (E : Env) (id : Z) : M R CmdbObject :=
  modify (emit (EvFindOne ObjectsC)) ;;;
  w <- world ;;
  match find_object id w with
  | Some o => if acl_denied E id then raise AccessDeniedError else ret o
  | None => raise ManagerGetError
  end.

(** Modelled from the spec: ObjectManager.iterate with the filter
    [{'type_id': id}], [sort='public_id'], [order=1], no limit and no skip
    is [FindMany(collection, filter, sort, limit, skip) → list of record]. *)
Definition iterate {R} (type_id_ : Z) : M R (list CmdbObject) :=
  modify (emit (EvFindMany ObjectsC)) ;;;
  w <- world ;;
  ret (merge_sort by_public_id (filter (λ o, type_id o = type_id_) (objects w))).

(** Modelled from the spec: ObjectManager.update_many with the query
    [{'public_id': id}] is [Update(collection, id, record)]: the update is
    applied to every stored document with this identifier. *)
Definition update_many {R} (id : Z) (update : CmdbObject → CmdbObject) : M R unit :=
  modify (emit (EvUpdate ObjectsC id)) ;;;
  modify (set_objects (map (λ o, if decide (public_id o = id) then update o else o))).

(** Modelled from the spec: ObjectManager.update replaces the stored
    document of this identifier ([Update(collection, id, record) →
    acknowledged]), after the access-control check. *)
Definition update {R} (E : Env) (id : Z) (data : CmdbObject) : M R unit :=
  if acl_denied E id then raise AccessDeniedError
  else
    modify (emit (EvUpdate ObjectsC id)) ;;;
    modify (set_objects (map (λ o, if decide (public_id o = id) then data else o))).

(** Modelled from the spec: ObjectManager.delete_all_object_references
    rewrites the objects that reference [id] (reference edges are a view
    over the stored field values); how one object is rewritten is the
    collaborator [delete_object_reference]. *)
Definition delete_all_object_references {R} (E : Env) (id : Z) : M R unit :=
  modify (emit (EvFindMany ObjectsC)) ;;;
  modify (emit (EvUpdate ObjectsC id)) ;;;
  modify (set_objects (map (delete_object_reference E id))).

End manager.

Module locations_manager.

(** Modelled from the spec: LocationsManager.get_location_for_object is
    [FindOne → record | NotFound] on the location bound to the object. *)
Definition get_location_for_object {R} (object_id : Z) : M R CmdbLocation :=
  modify (emit (EvFindOne LocationsC)) ;;;
  w <- world ;;
  match find_location_for_object object_id w with
  | Some l => ret l
  | None => raise ManagerGetError
  end.

(** Modelled from the spec: LocationsManager.get_one_by with the filter
    [{'parent': id}] is [FindOne → record | NotFound] on the locations
    whose parent is [id]: one of [Children(id)]. *)
Definition get_one_by_parent {R} (parent : Z) : M R CmdbLocation :=
  modify (emit (EvFindOne LocationsC)) ;;;
  w <- world ;;
  match find_child_location parent w with
  | Some l => ret l
  | None => raise ManagerGetError
  end.

(** Modelled from the spec: LocationsManager.iterate with the pipeline
    [{"$match": {"public_id": {"$gt": 1}}}] is [FindMany]: every location
    but the root, by identifier. *)
Definition iterate {R} : M R (list CmdbLocation) :=
  modify (emit (EvFindMany LocationsC)) ;;;
  w <- world ;;
  ret (merge_sort loc_by_public_id (filter (λ l, 1 < loc_public_id l) (locations w))).

(** Modelled from the spec: LocationsManager.delete with
    [{'public_id': id}] is [Delete(collection, id) → acknowledged]. *)
Definition delete {R} (id : Z) : M R bool :=
  modify (emit (EvDelete LocationsC id)) ;;;
  modify (set_locations (filter (λ l, loc_public_id l ≠ id))) ;;;
  ret true.

(** Modelled from the spec: LocationsManager.get_all_children is
    [AllDescendants(locationId, allLocations) → list of Location], the full
    cascade set computed by recursive traversal over the snapshot passed by
    the caller: the direct children, then the descendants of each.  A
    forest over [n] locations has no path longer than [n]. *)
Fixpoint get_all_children_upto (depth : nat) (id : Z)
    (all_locations : list CmdbLocation) : list CmdbLocation :=
  match depth with
  | O => []
  | S depth' =>
      let found_children := filter (λ l, loc_parent l = id) all_locations in
      found_children ++
      flat_map (λ child, get_all_children_upto depth' (loc_public_id child) all_locations)
               found_children
  end.

Definition get_all_children (id : Z) (all_locations : list CmdbLocation)
    : list CmdbLocation :=
  get_all_children_upto (length all_locations) id all_locations.

End locations_manager.

Module object_links_manager.

(** Modelled from the spec: ObjectLinksManager.iterate with the filter
    [{'$or': [{'primary': id}, {'secondary': id}]}] is [FindMany] on the
    links with the object at either end. *)
Definition iterate {R} (id : Z) : M R (list ObjectLinkModel) :=
  modify (emit (EvFindMany LinksC)) ;;;
  w <- world ;;
  ret (filter (λ l, link_primary l = id ∨ link_secondary l = id) (links w)).

(** Modelled from the spec: ObjectLinksManager.delete with
    [{'public_id': id}] is [Delete(collection, id) → acknowledged]. *)
Definition delete {R} (id : Z) : M R bool :=
  modify (emit (EvDelete LinksC id)) ;;;
  modify (set_links (filter (λ l, link_public_id l ≠ id))) ;;;
  ret true.

End object_links_manager.

Module logs_manager.

(** Modelled from the spec: LogsManager.insert_log is the change log's
    [Append(action, objectId, version, actor, comment, renderedSnapshot,
    changes)]; it raises [ManagerInsertError] when the append fails. *)
Definition insert_log {R} (E : Env) (entry : CmdbObjectLog) : M R unit :=
  if log_fault E (log_object_id entry) then raise ManagerInsertError
  else
    modify (emit (EvInsert LogsC (log_object_id entry))) ;;;
    modify (set_logs (λ l, (l ++ [entry])%list)).

End logs_manager.

(** ** The object routes
    (cmdb/interface/rest_api/framework_routes/objects_routes.py) *)
Module objects_routes.

(** [CmdbRender(...).result()]. *)
Definition render {R} (E : Env) (o : CmdbObject) (t : TypeModel) : M R RenderResult :=
  match CmdbRender E o t with
  | inl e => raise e
  | inr r => ret r
  end.

(** The log entry of an action, appended under
    [try: ... except ManagerInsertError: LOGGER.error(...)]. *)
Definition generate_log {R} (E : Env) (entry : CmdbObjectLog) : M R unit :=
  try_except (logs_manager.insert_log E entry)
    (λ e, match e with
          | ManagerInsertError => Some (ret tt)
          | _ => None
          end).

(** *** CRUD - CREATE *)

(** The JSON body of an insert request: [None] is an absent key. *)
Record InsertData : Type := mkInsertData {
  i_public_id : option Z;
  i_type_id : option Z;
  i_active : option bool;
  i_version : option string;
  i_fields : list Field
}.

(** Modelled from the spec: CmdbObjectManager.get_new_id is
    [NextId(collection) → integer], an identifier above every one in use. *)
Definition get_new_id {R} : M R Z :=
  w <- world ;;
  ret (1 + foldr Z.max 0 (map public_id (objects w))).

(** [insert_object]: the call
    [object_manager.insert_object(new_object_data, user=request_user,
    permission=AccessControlPermission.CREATE)] hands one positional
    argument and the keywords [user] and [permission] to
    [insert_object(self, data)]. *)
Definition insert_object (E : Env) (new_object_data : InsertData) : M Z (Response Z) :=
  try_except
    (data_public_id <-
       match i_public_id new_object_data with
       | None => get_new_id
       | Some id =>
           found <- try_except (object_manager.get_object id ;;; ret true)
                      (λ e, match e with
                            | ObjectManagerGetError => Some (ret false)
                            | _ => None
                            end) ;;
           if found : bool then exit (abort 400) else ret id
       end ;;
     let data_active :=
       match i_active new_object_data with
       | None => true
       | Some a => a
       end in
     let data_version := "1.0.0" in
     new_object_id <-
       call object_manager.insert_object_parameters 1 ["user"; "permission"]
         (object_manager.insert_object data_public_id (i_type_id new_object_data)
            data_active data_version (i_fields new_object_data)) ;;
     current_type_instance <-
       match i_type_id new_object_data with
       | Some tid => object_manager.get_type tid
       | None => raise KeyError
       end ;;
     current_object <- object_manager.get_object new_object_id ;;
     current_object_render_result <- render E current_object current_type_instance ;;
     generate_log E (mkLog CREATE new_object_id (version current_object)
                           "Object was created") ;;;
     ret (make_response new_object_id))
    (λ e, match e with
          | TypeError | ObjectInsertError => Some (exit (abort 400))
          | ManagerGetError | ObjectManagerGetError => Some (exit (abort 404))
          | AccessDeniedError => Some (exit (abort 403))
          | RenderError => Some (exit (abort 500))
          | _ => None
          end).

(** *** CRUD - READ *)

Definition get_unstructured_objects (public_id_ : Z)
    : M (list CmdbObject) (Response (list CmdbObject)) :=
  found <-
    try_except
      (type_instance <- type_manager.get public_id_ ;;
       objects_ <- manager.iterate public_id_ ;;
       ret (type_instance, objects_))
      (λ e, match e with
            | ManagerGetError => Some (exit (abort 400))
            | _ => None
            end) ;;
  let '(type_instance, objects_) := found in
  let type_fields_ := sorted (map tf_name (type_fields type_instance)) in
  let unstructured :=
    filter (λ object_, sorted (map f_name (fields object_)) ≠ type_fields_) objects_ in
  ret (make_response unstructured).

(** *** CRUD - UPDATE *)

(** The validated JSON body of an update request.  [None] is an absent
    key; [d_active] is [request.get_json().get('active', None)] when it is
    a boolean.  The schema makes [fields] a list, whose entries are field
    dicts. *)
Record UpdateData : Type := mkUpdateData {
  d_type_id : Z;
  d_version : option string;
  d_comment : option string;
  d_active : option bool;
  d_fields : list Field
}.

Record ResponseFailedMessage : Type := mkFailed {
  failed_status : Z;
  failed_public_id : Z
}.

(** [for old in old_fields: if item['name'] == old['name']:
    old['value'] = item['value']]. *)
Definition overwrite_value (item : Field) (old_fields : list Field) : list Field :=
  map (λ old, if decide (f_name item = f_name old)
              then mkField (f_name old) (f_value item)
              else old)
      old_fields.

(** [for item in new_fields: ...], the dicts of [old_fields] being updated
    in place. *)
Definition merge_fields (old_fields new_fields : list Field) : list Field :=
  foldl (λ olds item, overwrite_value item olds) old_fields new_fields.

(** Modelled from the spec: [current / update] is [Diff(oldObject,
    newObject) → {changedFieldNames, old, new}]; [changes['new']] lists the
    fields of the update that the current object does not hold, and
    [changes['old']] the fields of the current object that the update does
    not hold. *)
Definition changes_new (current update : CmdbObject) : list Field :=
  filter (λ j, j ∉ fields current) (fields update).
Definition changes_old (current update : CmdbObject) : list Field :=
  filter (λ i, i ∉ fields update) (fields current).

(** Python's [c > n / 2] on two lengths: [/] is true division. *)
Definition exceeds_half (c n : nat) : bool :=
  negb (Qle_bool (inject_Z (Z.of_nat c)) (inject_Z (Z.of_nat n) / 2)).

(** The tier chosen under [# calc version], from [len(changes['new'])] and
    [len(update_object_instance.fields)]. *)
Definition calc_version (len_changes_new len_fields : nat) : Tier :=
  if (len_changes_new =? 1)%nat then VERSIONING_PATCH
  else if (len_changes_new =? len_fields)%nat then VERSIONING_MAJOR
  else if exceeds_half len_changes_new len_fields then VERSIONING_MINOR
  else VERSIONING_PATCH.

Definition UpdateMulti : Type := list CmdbObject * list ResponseFailedMessage.

(** The body of [for obj_id in object_ids].  In the inner [try], the
    payload being a validated dict whose field entries carry a name and a
    value, the one key that can be absent is ['comment'], read after
    [new_data['fields'] = old_fields]: [except (KeyError, ...)] then leaves
    the comment empty. *)
Definition update_one (E : Env) (data : UpdateData) (acc : UpdateMulti) (obj_id : Z)
    : M UpdateMulti UpdateMulti :=
  let '(results, failed) := acc in
  let active_state := d_active data in
  try_except
    (current_object_instance <- manager.get E obj_id ;;
     current_type_instance <- type_manager.get (type_id current_object_instance) ;;
     current_object_render_result <-
       render E current_object_instance current_type_instance ;;
     let new_data_active :=
       match active_state with
       | Some b => b
       | None => active current_object_instance
       end in
     let new_data_version :=
       match d_version data with
       | Some v => v
       | None => version current_object_instance
       end in
     let old_fields := r_fields current_object_render_result in
     let new_fields := d_fields data in
     let new_data_fields := merge_fields old_fields new_fields in
     let update_comment :=
       match d_comment data with
       | Some c => c
       | None => ""
       end in
     let update_object_instance :=
       mkObject obj_id (d_type_id data) new_data_version new_data_active new_data_fields in
     let changes := changes_new current_object_instance update_object_instance in
     let tier := calc_version (length changes) (length (fields update_object_instance)) in
     let bumped := update_version E tier (version update_object_instance) in
     let new_data :=
       mkObject obj_id (d_type_id data) bumped new_data_active new_data_fields in
     manager.update E obj_id new_data ;;;
     generate_log E (mkLog EDIT obj_id bumped update_comment) ;;;
     ret ((results ++ [new_data])%list, failed))
    (λ e, match e with
          | AccessDeniedError => Some (exit (abort 403))
          | ObjectManagerGetError =>
              Some (ret (results, (failed ++ [mkFailed 400 obj_id])%list))
          | ManagerGetError | ObjectManagerUpdateError =>
              Some (ret (results, (failed ++ [mkFailed 404 obj_id])%list))
          | TypeError | KeyError => None
          | _ => Some (ret (results, (failed ++ [mkFailed 500 obj_id])%list))
          end).

Definition update_object (E : Env) (public_id_ : Z) (objectIDs : list Z)
    (data : UpdateData) : M UpdateMulti (Response UpdateMulti) :=
  let object_ids :=
    if bool_decide (0 < length objectIDs)%nat then objectIDs else [public_id_] in
  acc <- for_fold object_ids ([], []) (update_one E data) ;;
  ret (make_response acc).

(** The two lists filled by the loops over [type_fields] and [obj_fields]:
    [(incorrect, correct)]. *)
Definition classify_fields (type_fields_ : list TypeField) (obj_fields : list Field)
    : list string * list string :=
  foldl (λ acc t_field,
           let name := tf_name t_field in
           foldl (λ acc' field,
                    let '(incorrect, correct) := acc' in
                    if decide (name = f_name field)
                    then (incorrect, (correct ++ [f_name field])%list)
                    else ((incorrect ++ [f_name field])%list, correct))
                 acc obj_fields)
        ([], []) type_fields_.

Definition removed_type_fields (type_fields_ : list TypeField) (obj : CmdbObject)
    : list string :=
  let '(incorrect, correct) := classify_fields type_fields_ (fields obj) in
  filter (λ item, item ∉ correct) incorrect.

(** [{'$pull': {'fields': {"name": field}}}]. *)
Definition pull_field (field : string) (o : CmdbObject) : CmdbObject :=
  mkObject (public_id o) (type_id o) (version o) (active o)
           (filter (λ f, f_name f ≠ field) (fields o)).

(** [update={'fields': {"name": name, "value": value}}, add_to_set=True]. *)
Definition add_to_set_field (fld : Field) (o : CmdbObject) : CmdbObject :=
  mkObject (public_id o) (type_id o) (version o) (active o)
           (if decide (fld ∈ fields o) then fields o else (fields o ++ [fld])%list).

Definition update_unstructured_objects (public_id_ : Z)
    : M (list CmdbObject) (Response (list CmdbObject)) :=
  try_except
    (update_type_instance <- type_manager.get public_id_ ;;
     let type_fields_ := type_fields update_type_instance in
     objects_by_type <- manager.iterate public_id_ ;;
     for_each objects_by_type
       (λ obj,
          for_each (removed_type_fields type_fields_ obj)
            (λ field, manager.update_many (public_id obj) (pull_field field))) ;;;
     objects_by_type <- manager.iterate public_id_ ;;
     for_each objects_by_type
       (λ obj,
          for_each type_fields_
            (λ t_field,
               let name := tf_name t_field in
               if bool_decide (filter (λ item, f_name item = name) (fields obj) ≠ [])
               then ret tt
               else
                 let value :=
                   match tf_value t_field with
                   | Some v => v
                   | None => VNone
                   end in
                 manager.update_many (public_id obj)
                   (add_to_set_field (mkField name value)))) ;;;
     ret (make_response []))
    (λ e, match e with
          | ManagerUpdateError => Some (exit (abort 400))
          | _ => None
          end).

(** *** Helper methods *)

(** Deletes all object links where this [public_id] is set. *)
Definition delete_object_links {R} (public_id_ : Z) : M R unit :=
  links_ <- object_links_manager.iterate public_id_ ;;
  for_each links_ (λ link, object_links_manager.delete (link_public_id link) ;;; ret tt).

(** *** CRUD - DELETE *)

(** [delete_object]: the call
    [object_manager.delete_object(public_id, request_user,
    AccessControlPermission.DELETE)] hands three positional arguments to
    [delete_object(self, public_id)]; no clause of the second [try] catches
    the [TypeError], which is no [CMDBError]. *)
Definition delete_object (E : Env) (public_id_ : Z) : M bool (Response bool) :=
  found <-
    try_except
      (current_object_instance <- object_manager.get_object public_id_ ;;
       (* Remove object links and references *)
       delete_object_links public_id_ ;;;
       manager.delete_all_object_references E public_id_ ;;;
       current_type_instance <-
         object_manager.get_type (type_id current_object_instance) ;;
       current_object_render_result <-
         render E current_object_instance current_type_instance ;;
       (* an object can not be deleted if it has a location AND the
          location is a parent for other locations *)
       current_location <-
         try_except
           (current_location <- locations_manager.get_location_for_object public_id_ ;;
            try_except
              (child_location <-
                 locations_manager.get_one_by_parent (loc_public_id current_location) ;;
               exit (ErrorBody 405))
              (λ e, match e with
                    | ManagerGetError => Some (ret (Some current_location))
                    | _ => None
                    end))
           (λ e, match e with
                 | ManagerGetError => Some (ret None)
                 | _ => None
                 end) ;;
       ret (current_object_render_result, current_location))
      (λ e, match e with
            | ObjectManagerGetError => Some (exit (abort 404))
            | RenderError => Some (exit (abort 500))
            | _ => None
            end) ;;
  let '(current_object_render_result, current_location) := found in
  ack <-
    try_except
      (match current_location with
       | Some l => locations_manager.delete (loc_public_id l) ;;; ret tt
       | None => ret tt
       end ;;;
       call object_manager.delete_object_parameters 3 []
         (object_manager.delete_object E public_id_))
      (λ e, match e with
            | ObjectManagerGetError => Some (exit (abort 400))
            | AccessDeniedError => Some (exit (abort 403))
            | ObjectDeleteError => Some (exit (abort 400))
            | TypeError | KeyError => None
            | _ => Some (exit (abort 500))
            end) ;;
  generate_log E (mkLog DELETE public_id_ (r_version current_object_render_result)
                        "Object was deleted") ;;;
  ret (make_response ack).

(** Deletes an object and all objects which are child objects of it in the
    location tree.  The corresponding locations of each object are also
    deleted.  Both calls of [object_manager.delete_object] hand the
    identifier, [request_user] and [AccessControlPermission.DELETE] as
    positional arguments. *)
Definition delete_object_with_child_objects (E : Env) (public_id_ : Z)
    : M bool (Response bool) :=
  try_except
    ((* check if object exists *)
     current_object_instance <- object_manager.get_object public_id_ ;;
     (* Remove object links and references *)
     delete_object_links public_id_ ;;;
     manager.delete_all_object_references E public_id_ ;;;
     (* check if location for this object exists *)
     current_location <- locations_manager.get_location_for_object public_id_ ;;
     (* [if current_object_instance and current_location]: both are instances
        here, a missing object or location has raised above *)
     (* get all child locations for this location *)
     all_locations <- locations_manager.iterate ;;
     let all_children_locations :=
       locations_manager.get_all_children (loc_public_id current_location) all_locations in
     (* delete all child locations and extract their corresponding object_ids *)
     children_object_ids <-
       for_fold all_children_locations []
         (λ children_object_ids child,
            locations_manager.delete (loc_public_id child) ;;;
            ret (children_object_ids ++ [loc_object_id child])%list) ;;
     (* delete the objects of child locations *)
     for_each children_object_ids
       (λ child_object_id,
          call object_manager.delete_object_parameters 3 []
            (object_manager.delete_object E child_object_id) ;;; ret tt) ;;;
     (* delete the current object and its location *)
     locations_manager.delete (loc_public_id current_location) ;;;
     deleted <- call object_manager.delete_object_parameters 3 []
                  (object_manager.delete_object E public_id_) ;;
     ret (make_response deleted))
    (λ e, match e with
          | ObjectManagerGetError => Some (exit (abort 404))
          | RenderError => Some (exit (abort 500))
          | _ => None
          end).

(** The body of the bulk-delete answer: [{'successfully': ack}], or the
    message [jsonify(message='Delete Error', ...)]. *)
Inductive BulkDeleted : Type :=
  | successfully (ack : list bool)
  | Delete_Error.

(** The body of the first loop over the objects found: no object of a
    bulk delete may have a location. *)
Definition check_no_location (current_object_instance : CmdbObject)
    : M BulkDeleted unit :=
  try_except
    (location_for_object <-
       locations_manager.get_location_for_object (public_id current_object_instance) ;;
     exit (ErrorBody 405))
    (λ e, match e with
          | ManagerGetError => Some (ret tt)
          | _ => None
          end).

(** The body of the second loop over the objects found.  The call
    [object_manager.delete_object(public_id=..., user=request_user,
    permission=AccessControlPermission.DELETE)] hands three keywords. *)
Definition delete_one_of_many (E : Env) (ack : list bool)
    (current_object_instance : CmdbObject) : M BulkDeleted (list bool) :=
  current_object_render_result <-
    try_except
      ((* Remove object links and references *)
       delete_object_links (public_id current_object_instance) ;;;
       manager.delete_all_object_references E (public_id current_object_instance) ;;;
       current_type_instance <-
         object_manager.get_type (type_id current_object_instance) ;;
       render E current_object_instance current_type_instance)
      (λ e, match e with
            | ObjectManagerGetError => Some (exit (abort 404))
            | RenderError => Some (exit (abort 500))
            | _ => None
            end) ;;
  ack' <-
    try_except
      (a <- call object_manager.delete_object_parameters 0
              ["public_id"; "user"; "permission"]
              (object_manager.delete_object E (public_id current_object_instance)) ;;
       ret (ack ++ [a])%list)
      (λ e, match e with
            | ObjectDeleteError => Some (exit (abort 400))
            | AccessDeniedError => Some (exit (abort 403))
            | TypeError | KeyError => None
            | _ => Some (exit (abort 500))
            end) ;;
  generate_log E (mkLog DELETE (public_id current_object_instance)
                        (r_version current_object_render_result)
                        "Object was deleted") ;;;
  ret ack'.

(** [public_ids.split(",")] with [int(v)] on each part: [None] stands for a
    part that [int] rejects. *)
Definition delete_many_objects (E : Env) (public_ids : list (option Z))
    : M BulkDeleted (Response BulkDeleted) :=
  try_except
    (ids <- for_fold public_ids []
              (λ ids v, match v with
                        | Some i => ret (ids ++ [i])%list
                        | None => exit (abort 400)
                        end) ;;
     objects_ <- object_manager.get_objects_by (λ o, public_id o ∈ ids) ;;
     (* At the current state it is not possible to bulk delete objects with
        locations: check if any object has a location *)
     for_each objects_ check_no_location ;;;
     ack <- for_fold objects_ [] (delete_one_of_many E) ;;
     ret (make_response (successfully ack)))
    (λ e, match e with
          | ObjectDeleteError => Some (ret (make_response Delete_Error))
          | TypeError | KeyError => None
          | _ => Some (exit (abort 500))
          end).

(** *** Routes beside the ones above *)

(** The answer of the state route: [make_response(False, 204)], or
    [UpdateSingleResponse(result=found_object.__dict__)]. *)
Inductive ObjectStateBody : Type :=
  | False_204
  | UpdateSingle (result : CmdbObject).

(** [found_object.active = state]. *)
Definition set_active (state : bool) (o : CmdbObject) : CmdbObject :=
  mkObject (public_id o) (type_id o) (version o) state (fields o).

(** [update_object_state]: [request_json] is [Some state] when the JSON body
    is a boolean. *)
Definition update_object_state (E : Env) (public_id_ : Z) (request_json : option bool)
    : M ObjectStateBody (Response ObjectStateBody) :=
  state <-
    match request_json with
    | Some state => ret state
    | None => exit (abort 400)
    end ;;
  found_object <-
    try_except (manager.get E public_id_)
      (λ e, match e with
            | ObjectManagerGetError => Some (exit (abort 404))
            | _ => None
            end) ;;
  if bool_decide (active found_object = state) then ret (make_response False_204)
  else
    let found_object := set_active state found_object in
    try_except (manager.update E public_id_ found_object)
      (λ e, match e with
            | AccessDeniedError => Some (exit (abort 403))
            | ObjectManagerUpdateError => Some (exit (abort 500))
            | _ => None
            end) ;;;
    (* get current object state *)
    current_object_render_result <-
      try_except
        (current_type_instance <- type_manager.get (type_id found_object) ;;
         render E found_object current_type_instance)
        (λ e, match e with
              | ObjectManagerGetError => Some (exit (abort 404))
              | RenderError => Some (exit (abort 500))
              | _ => None
              end) ;;
    generate_log E (mkLog ACTIVE_CHANGE public_id_ (version found_object)
                          "Active status has changed") ;;;
    ret (make_response (UpdateSingle found_object)).

(** [delete_object_with_child_locations]: the locations under the object's
    location go, the objects bound to them stay.  As in the route above,
    [if current_object_instance and current_location] is reached with both
    found, a missing object or location having raised before.  The call
    [object_manager.delete_object(public_id, request_user,
    permission=AccessControlPermission.DELETE)] hands two positional
    arguments and the keyword [permission]. *)
Definition delete_object_with_child_locations (E : Env) (public_id_ : Z)
    : M bool (Response bool) :=
  try_except
    ((* check if object exists *)
     current_object_instance <- object_manager.get_object public_id_ ;;
     (* Remove object links and references *)
     delete_object_links public_id_ ;;;
     manager.delete_all_object_references E public_id_ ;;;
     (* check if location for this object exists *)
     current_location <- locations_manager.get_location_for_object public_id_ ;;
     (* get all child locations for this location *)
     all_locations <- locations_manager.iterate ;;
     let all_children :=
       locations_manager.get_all_children (loc_public_id current_location) all_locations in
     (* delete all child locations *)
     for_each all_children
       (λ child, locations_manager.delete (loc_public_id child) ;;; ret tt) ;;;
     (* delete the current object and its location *)
     locations_manager.delete (loc_public_id current_location) ;;;
     deleted <- call object_manager.delete_object_parameters 2 ["permission"]
                  (object_manager.delete_object E public_id_) ;;
     ret (make_response deleted))
    (λ e, match e with
          | ObjectManagerGetError => Some (exit (abort 404))
          | RenderError => Some (exit (abort 500))
          | _ => None
          end).

End objects_routes.

(** ** The user manager
    (cmdb/user_management/managers/user_manager.py, class UserManager) *)
Module UserManager.

(** [get]: [_get(collection, filter={'public_id': public_id}, limit=1)],
    the first result, or [ManagerGetError]. *)
Definition get {R} (public_id_ : Z) : M R UserModel :=
  modify (emit (EvFindOne UsersC)) ;;;
  w <- world ;;
  match find_user public_id_ w with
  | Some u => ret u
  | None => raise ManagerGetError
  end.

(** Modelled from the spec: the inherited [_delete(collection, public_id)]
    is [Delete(collection, id) → acknowledged]; [deleted_count] is the
    number of documents removed. *)
Definition _delete {R} (public_id_ : Z) : M R nat :=
  modify (emit (EvDelete UsersC public_id_)) ;;;
  w <- world ;;
  let deleted_count :=
    length (filter (λ u, user_public_id u = public_id_) (users w)) in
  modify (set_users (filter (λ u, user_public_id u ≠ public_id_))) ;;;
  ret deleted_count.

Definition delete {R} (public_id_ : Z) : M R UserModel :=
  if bool_decide (public_id_ ∈ [1]) then raise ManagerDeleteError
  else
    user <- get public_id_ ;;
    delete_result <- _delete public_id_ ;;
    if (delete_result =? 0)%nat then raise ManagerDeleteError
    else ret user.

End UserManager.

(** ** More of the object manager
    (cmdb/framework/cmdb_object_manager.py, class CmdbObjectManager) *)
Module CmdbObjectManager.

(** [get_objects]: one [get_object] per identifier, in turn. *)
Definition get_objects {R} (public_ids : list Z) : M R (list CmdbObject) :=
  for_fold public_ids []
    (λ object_list public_id_,
       o <- object_manager.get_object public_id_ ;;
       ret (object_list ++ [o])%list).

(** *** Search *)

(** Python's [str] on a field value. *)
Definition py_str (v : Value) : string :=
  match v with
  | VNone => "None"
  | VBool true => "True"
  | VBool false => "False"
  | VInt z => str z
  | VStr s => s
  end.

(** A query document, as far as the code looks into it: a dict (keys in
    insertion order), a string, or a value of another type. *)
#[warnings="-register-all"]
Inductive Query : Type :=
  | QDict (entries : list (string * Query))
  | QStr (s : string)
  | QOther.

(** The exceptions of the search that are no [CMDBError]; [re_error] is
    [re.error]. *)
Inductive PyError : Type :=
  | AttributeError
  | RegexKeyError
  | PatternTypeError
  | re_error.

(** [items[key]] on a dict. *)
Fixpoint dict_get (key : string) (entries : list (string * Query)) : option Query :=
  match entries with
  | [] => None
  | (k, v) :: entries' => if String.eqb k key then Some v else dict_get key entries'
  end.

(** [for key, items in query.items(): ...] of [_find_query_fields], on the
    list object [match_fields], which the loop appends to in place: the
    list is handed back as the loop leaves it, also when an exception ends
    the loop.  The inner [for item in items] walks the keys of a dict, and
    the call [self._find_query_fields(item, ...)] on a key, a [str], raises
    [AttributeError] at [query.items()]. *)
Fixpoint find_query_fields_loop (entries : list (string * Query))
    (match_fields : list Query) : option PyError * list Query :=
  match entries with
  | [] => (None, match_fields)
  | (key, items) :: entries' =>
      match items with
      | QDict sub =>
          if String.eqb "fields.value" key then
            match dict_get "$regex" sub with
            | Some regex => find_query_fields_loop entries' (match_fields ++ [regex])%list
            | None => (Some RegexKeyError, match_fields)
            end
          else
            match sub with
            | [] => find_query_fields_loop entries' match_fields
            | _ :: _ => (Some AttributeError, match_fields)
            end
      | _ => find_query_fields_loop entries' match_fields
      end
  end.

(** [_find_query_fields(query, match_fields)]: the exception raised, if
    any, and the list [match_fields] after the call (the value returned,
    when there is one). *)
Definition _find_query_fields (query : Query) (match_fields : list Query)
    : option PyError * list Query :=
  match query with
  | QDict entries => find_query_fields_loop entries match_fields
  | _ => (Some AttributeError, match_fields)
  end.

(** Loops whose body may raise. *)
Fixpoint fold_err {A B} (l : list A) (acc : B) (body : B → A → PyError + B)
    : PyError + B :=
  match l with
  | [] => inr acc
  | x :: l' =>
      match body acc x with
      | inl e => inl e
      | inr acc' => fold_err l' acc' body
      end
  end.

(** [_re_search_fields]: [re_search pattern string] is whether
    [re.search(pattern, string)] finds a match, [None] when it raises
    [re.error]; a pattern that is no string is a [TypeError]. *)
Definition _re_search_fields (re_search : string → string → option bool)
    (search_object : CmdbObject) (regex : list Query) : PyError + list string :=
  fold_err regex []
    (λ match_list index,
       fold_err (fields search_object) match_list
         (λ match_list field,
            match index with
            | QStr pattern =>
                match re_search pattern (py_str (f_value field)) with
                | Some true => inr (match_list ++ [f_name field])%list
                | Some false => inr match_list
                | None => inl re_error
                end
            | _ => inl PatternTypeError
            end)).

(** [search_objects_with_limit], over the documents [_search] hands back,
    each one a document the constructor of [CmdbObject] accepts.
    [self._find_query_fields(query)] leaves [match_fields] out, so every
    call works on the one list object the [def] bound to the default:
    [default] is that list before the search, and the second component of
    the result is that list after it.  [result_list] is the dict filled with
    [update], in insertion order. *)
Fixpoint search_loop (re_search : string → string → option bool) (query : Query)
    (results : list CmdbObject) (result_list : list (CmdbObject * list string))
    (default : list Query)
    : (PyError + list (CmdbObject * list string)) * list Query :=
  match results with
  | [] => (inr result_list, default)
  | result_object_instance :: results' =>
      match _find_query_fields query default with
      | (Some e, default') => (inl e, default')
      | (None, re_query) =>
          match _re_search_fields re_search result_object_instance re_query with
          | inl re_error => search_loop re_search query results' result_list re_query
          | inl e => (inl e, re_query)
          | inr matched_fields =>
              search_loop re_search query results'
                (result_list ++ [(result_object_instance, matched_fields)])%list re_query
          end
      end
  end.

Definition search_objects_with_limit (re_search : string → string → option bool)
    (query : Query) (results : list CmdbObject) (default : list Query)
    : (PyError + list (CmdbObject * list string)) * list Query :=
  search_loop re_search query results [] default.

(** The names of the fields of [o] whose value [pattern] matches, in the
    order of the fields. *)
Definition matching_fields (re_search : string → string → option bool)
    (o : CmdbObject) (pattern : string) : list string :=
  map f_name
      (filter (λ f, re_search pattern (py_str (f_value f)) = Some true) (fields o)).

(** *** Categories *)

(** A category, [parent_id] being [None] when the key is absent. *)
Record CmdbCategory : Type := mkCategory {
  cat_public_id : Z;
  cat_parent_id : option Z
}.

(** An entry of the tree: [{'category': ..., 'children': ...}], the
    children being [None] for a category without any. *)
#[warnings="-register-all"]
Inductive CategoryNode : Type :=
  | mkNode (category : CmdbCategory) (children : option (list CategoryNode)).

(** [get_categories_by(_filter={'parent_id': id})] on the stored
    categories, those the constructor of [CmdbCategory] accepts. *)
Definition get_categories_by_parent (categories : list CmdbCategory) (parent_id : Z)
    : list CmdbCategory :=
  filter (λ c, cat_parent_id c = Some parent_id) categories.

(** [_get_category_nodes]: [depth] bounds the nesting of the recursive
    calls, as the interpreter's recursion limit does; [None] is the
    recursion cut off at that bound. *)
Fixpoint _get_category_nodes (depth : nat) (categories parent_list : list CmdbCategory)
    : option (list CategoryNode) :=
  match depth with
  | O => None
  | S depth' =>
      (fix loop (parent_list : list CmdbCategory) : option (list CategoryNode) :=
         match parent_list with
         | [] => Some []
         | cat_child :: parent_list' =>
             let next_children :=
               get_categories_by_parent categories (cat_public_id cat_child) in
             let node :=
               if bool_decide (0 < length next_children)%nat
               then
                 match _get_category_nodes depth' categories next_children with
                 | Some nodes => Some (mkNode cat_child (Some nodes))
                 | None => None
                 end
               else Some (mkNode cat_child None) in
             match node with
             | Some node =>
                 match loop parent_list' with
                 | Some edge => Some (node :: edge)
                 | None => None
                 end
             | None => None
             end
         end) parent_list
  end.

Inductive CategoryTree : Type :=
  | Tree (tree : list CategoryNode)
  | NoRootCategories
  | RecursionError.

Definition get_category_tree (depth : nat) (categories : list CmdbCategory)
    : CategoryTree :=
  let root_categories :=
    filter (λ c, cat_parent_id c = None ∨ cat_parent_id c = Some 0) categories in
  if bool_decide (0 < length root_categories)%nat
  then
    match _get_category_nodes depth categories root_categories with
    | Some tree => Tree tree
    | None => RecursionError
    end
  else NoRootCategories.

(** The forest of the categories under [parent_list]: every category with
    its children, those stored with its identifier as [parent_id], and [None]
    in the place of an empty list of children. *)
Inductive forest_of (categories : list CmdbCategory)
    : list CmdbCategory → list CategoryNode → Prop :=
  | forest_nil : forest_of categories [] []
  | forest_leaf c parent_list edge :
      get_categories_by_parent categories (cat_public_id c) = [] →
      forest_of categories parent_list edge →
      forest_of categories (c :: parent_list) (mkNode c None :: edge)
  | forest_inner c nodes parent_list edge :
      get_categories_by_parent categories (cat_public_id c) ≠ [] →
      forest_of categories (get_categories_by_parent categories (cat_public_id c)) nodes →
      forest_of categories parent_list edge →
      forest_of categories (c :: parent_list) (mkNode c (Some nodes) :: edge).

(** The categories with an identifier above [id]: fewer for a child than
    for its parent. *)
Definition above (categories : list CmdbCategory) (id : Z) : nat :=
  length (filter (λ x, id < cat_public_id x) categories).

End CmdbObjectManager.

(** ** The export routes (cmdb/interface/rest_api/export_routes.py) *)
Module export_routes.

(** [sep.join(l)]. *)
Definition join (sep : string) (l : list string) : string := String.concat sep l.

(** [parse_to_csv]: [header], [rows] and [i] are the three locals of the
    loop. *)
Definition parse_to_csv (data_list : list CmdbObject) : string :=
  let '(header, rows, i) :=
    foldl (λ '(header, rows, i) obj,
             let fields_ := fields obj in
             let row := [str (public_id obj)] in
             let '(header, row) :=
               foldl (λ '(header, row) key,
                        let header :=
                          if (i =? 0)%nat then (header ++ [f_name key])%list else header in
                        (header, (row ++ [CmdbObjectManager.py_str (f_value key)])%list))
                     (header, row) fields_ in
             (header, (rows ++ [join "," row])%list, S i))
          (["public_id"], [","], O) data_list in
  join "," header ++ join (String (Ascii.ascii_of_nat 10) "") rows.

(** The line of one object: its identifier, then the value of every field. *)
Definition csv_row (obj : CmdbObject) : string :=
  join ","
    (str (public_id obj) :: map (λ key, CmdbObjectManager.py_str (f_value key)) (fields obj)).

(** A new line and the line of the object, for every object. *)
Definition csv_lines (data_list : list CmdbObject) : string :=
  foldr (λ obj rest, String (Ascii.ascii_of_nat 10) "" ++ csv_row obj ++ rest) ""
        data_list.

End export_routes.

(** ** The check routine (cmdb/__check__.py, class CheckRoutine) *)
Module CheckRoutine.

Inductive CheckStatus : Type :=
  | NOT
  | RUNNING
  | HAS_UPDATES
  | FINISHED.

(** A class of one of the three collection lists: its [COLLECTION] name, and
    whether the class is [CmdbLocation]. *)
Record CollectionClass : Type := mkClass {
  COLLECTION : string;
  is_CmdbLocation : bool
}.

(** What the routine reads:
    - [collection_names]: [database.list_collection_names()];
    - [validate_collection name]: the ['valid'] entry of
      [database.validate_collection(name, scandata=True)], [None] when the
      call raises;
    - [root_location]: [find_one(collection, 1)], with, for a root location
      found, what [validate_root_location] says about it;
    - [section_error]: whether reading the section 'updater' raises
      [SectionError];
    - [last_version], [settings_version]: the versions the updater module
      compares. *)
Record Setup : Type := mkSetup {
  collection_names : list string;
  validate_collection : string → option bool;
  root_location : option bool;
  section_error : bool;
  last_version : Z;
  settings_version : Z
}.

(** A call of [set_root_location(collection, create=...)]. *)
Inductive SetupCall : Type :=
  | set_root_location (create : bool).

Definition __is_database_empty (s : Setup) : bool :=
  match collection_names s with
  | [] => true
  | _ :: _ => false
  end.

(** One of the three loops of [__check_database_collection_valid]:
    [collection_test] is assigned anew for every collection; [None] is an
    exception on the way.  [with_locations] is set for the loop over the
    framework collections. *)
Fixpoint validate_loop (s : Setup) (with_locations : bool)
    (classes : list CollectionClass) (collection_test : bool) (calls : list SetupCall)
    : option bool * list SetupCall :=
  match classes with
  | [] => (Some collection_test, calls)
  | collection :: classes' =>
      match validate_collection s (COLLECTION collection) with
      | None => (None, calls)
      | Some collection_test =>
          let calls :=
            if with_locations && is_CmdbLocation collection && collection_test then
              match root_location s with
              | Some true => calls
              | Some false => (calls ++ [set_root_location false])%list
              | None => (calls ++ [set_root_location true])%list
              end
            else calls in
          validate_loop s with_locations classes' collection_test calls
      end
  end.

(** [__check_database_collection_valid]: the answer, and the calls of
    [set_root_location] made. *)
Definition __check_database_collection_valid (s : Setup)
    (FRAMEWORK_CLASSES USER_MANAGEMENT_COLLECTION JOB_MANAGEMENT_COLLECTION
       : list CollectionClass)
    : bool * list SetupCall :=
  let collection_test := true in
  match validate_loop s true FRAMEWORK_CLASSES collection_test [] with
  | (None, calls) => (false, calls)
  | (Some collection_test, calls) =>
      match validate_loop s false USER_MANAGEMENT_COLLECTION collection_test calls with
      | (None, calls) => (false, calls)
      | (Some collection_test, calls) =>
          match validate_loop s false JOB_MANAGEMENT_COLLECTION collection_test calls with
          | (None, calls) => (false, calls)
          | (Some collection_test, calls) => (collection_test, calls)
          end
      end
  end.

Definition has_updates (s : Setup) : bool :=
  if section_error s then false
  else if settings_version s <? last_version s then false
  else true.

(** [checker]: the status it ends with, and the calls of
    [set_root_location] made. *)
Definition checker (s : Setup)
    (FRAMEWORK_CLASSES USER_MANAGEMENT_COLLECTION JOB_MANAGEMENT_COLLECTION
       : list CollectionClass)
    : CheckStatus * list SetupCall :=
  let status := FINISHED in
  if negb (__is_database_empty s) then
    let '(valid, calls) :=
      __check_database_collection_valid s FRAMEWORK_CLASSES USER_MANAGEMENT_COLLECTION
        JOB_MANAGEMENT_COLLECTION in
    if negb (valid && has_updates s) then (HAS_UPDATES, calls) else (status, calls)
  else (status, []).

End CheckRoutine.

(** ** The properties as the specification words them *)
Module Spec.

(** The version-bump rule, in its priority order: exactly one changed field
    bumps PATCH; else all fields changed bumps MAJOR; else more than half
    of the fields changed bumps MINOR; else PATCH. *)
Definition NextVersion_tier (c n : nat) : Tier :=
  if decide (c = 1%nat) then VERSIONING_PATCH
  else if decide (c = n) then VERSIONING_MAJOR
  else if decide (n < 2 * c)%nat then VERSIONING_MINOR
  else VERSIONING_PATCH.

(** Backward resolution as worded: every object of a source type, one of
    whose reference fields allows the type of the queried object and holds
    the queried identifier in numeric or string form, is in the result. *)
Definition ResolveBackward_complete (w : World) (id : Z) (result : list CmdbObject)
    : Prop :=
  ∀ target t f o fld,
    target ∈ objects w → public_id target = id →
    t ∈ types w → f ∈ type_fields t →
    tf_type f = "ref" → type_id target ∈ tf_ref_types f →
    o ∈ objects w → type_id o = type_public_id t →
    fld ∈ fields o → f_name fld = tf_name f →
    (f_value fld = VInt id ∨ f_value fld = VStr (str id)) →
    o ∈ result.



(** Bulk delete as worded, for the identifiers [ids] of which [k] fails:
    the other deletions all take place, and the answer lists one success
    for each of them. *)
Definition bulk_delete_completes (E : Env) (w : World) (ids : list Z) (k : Z) : Prop :=
  let '(r, w') := run_route (objects_routes.delete_many_objects E (map Some ids)) w in
  (∀ i, i ∈ ids → i ≠ k → i ∉ map public_id (objects w')) ∧
  (∃ ack, r = make_response (objects_routes.successfully ack) ∧
          length ack = (length ids - 1)%nat).

(** Structural consistency of an object with its type: the same field-name
    set. *)
Definition structured (t : TypeModel) (o : CmdbObject) : Prop :=
  ∀ name, name ∈ map f_name (fields o) ↔ name ∈ map tf_name (type_fields t).

(** The value a rendered field ends with: the one of the last payload field
    of its name, its own when the payload has none. *)
Definition merged_field (news : list Field) (old : Field) : Field :=
  match List.find (λ item, bool_decide (f_name item = f_name old)) (rev news) with
  | Some item => mkField (f_name old) (f_value item)
  | None => old
  end.

End Spec.

(** ** The effect of the store accesses on the world *)
Module Effects.

(** The world after the links of [id] are looked up and deleted one by
    one. *)
Definition delete_link_effect (k : ObjectLinkModel) (w : World) : World :=
  set_links (filter (λ x, link_public_id x ≠ link_public_id k))
            (emit (EvDelete LinksC (link_public_id k)) w).
Definition links_deleted (id : Z) (w : World) : World :=
  foldl (λ w0 k, delete_link_effect k w0) (emit (EvFindMany LinksC) w)
        (filter (λ k, link_primary k = id ∨ link_secondary k = id) (links w)).
Definition delete_location_effect (d : CmdbLocation) (w : World) : World :=
  set_locations (filter (λ x, loc_public_id x ≠ loc_public_id d))
                (emit (EvDelete LocationsC (loc_public_id d)) w).
Definition delete_object_effect (id : Z) (w : World) : World :=
  set_objects (filter (λ x, public_id x ≠ id)) (emit (EvDelete ObjectsC id) w).
Definition references_deleted (E : Env) (id : Z) (w : World) : World :=
  set_objects (map (delete_object_reference E id))
              (emit (EvUpdate ObjectsC id) (emit (EvFindMany ObjectsC) w)).

(** The objects one entry of [type_init_list] selects. *)
Definition referencing (id : Z) (p : Z * string) (o : CmdbObject) : Prop :=
  type_id o = p.1 ∧
  Exists (λ fld, f_name fld = p.2 ∧
                 (f_value fld = VInt id ∨ f_value fld = VStr (str id)))
         (fields o).

(** The snapshot of all locations a cascade delete loads. *)
Definition snapshot_of (w : World) : list CmdbLocation :=
  merge_sort loc_by_public_id (filter (λ l, 1 < loc_public_id l) (locations w)).

(** One stored document under [update_many] with the query
    [{'public_id': id}]. *)
Definition doc_update (id : Z) (upd : CmdbObject → CmdbObject) (d : CmdbObject)
    : CmdbObject :=
  if decide (public_id d = id) then upd d else d.

(** The stored document [d] after the first pass over the objects
    [snapshot] of the type, and after the second. *)
Definition pulled (tfs : list TypeField) (snapshot : list CmdbObject) (d : CmdbObject)
    : CmdbObject :=
  foldl (λ d0 obj,
           foldl (λ d1 n, doc_update (public_id obj) (objects_routes.pull_field n) d1)
                 d0 (objects_routes.removed_type_fields tfs obj))
        d snapshot.

Definition default_field (tf : TypeField) : Field :=
  mkField (tf_name tf) match tf_value tf with Some v => v | None => VNone end.

Definition filled (tfs : list TypeField) (snapshot : list CmdbObject) (d : CmdbObject)
    : CmdbObject :=
  foldl (λ d0 obj,
           foldl (λ d1 tf,
                    if bool_decide (filter (λ item, f_name item = tf_name tf) (fields obj) ≠ [])
                    then d1
                    else doc_update (public_id obj)
                           (objects_routes.add_to_set_field (default_field tf)) d1)
                 d0 tfs)
        d snapshot.

Definition update_many_effect (id : Z) (upd : CmdbObject → CmdbObject) (w : World)
    : World :=
  set_objects (map (doc_update id upd)) (emit (EvUpdate ObjectsC id) w).

End Effects.

(** ** Concrete environments and worlds, for the examples *)
Module Examples.

(** No fault, no refusal; rendering hands back the stored fields; no
    object references another; versions are left as they are. *)
Definition nominal : Env :=
  mkEnv (λ _, false) (λ o t, inr (mkRender (fields o) (version o)))
        (λ _ o, o) (λ _ v, v) (λ _, false) (λ _, false).

(** One type, no object yet. *)
Definition empty_world : World := mkWorld [] [mkType 1 []] [] [] [] [] [].

(** A type with the fields a and b; object 1 has them in another order,
    object 2 lacks b. *)
Definition type_ab : TypeModel :=
  mkType 4 [mkTypeField "a" "text" [] None; mkTypeField "b" "text" [] None].
Definition drifted_world : World :=
  mkWorld [mkObject 1 4 "1.0.0" true [mkField "b" VNone; mkField "a" VNone];
           mkObject 2 4 "1.0.0" true [mkField "a" VNone]]
          [type_ab] [] [] [] [] [].

(** The types Rack and Server; a server refers to its racks through two
    reference fields.  Rack 7 is referenced by server 5 through rack_b and
    by server 6, in string form, through rack_a. *)
Definition Rack : TypeModel := mkType 1 [].
Definition Server2 : TypeModel :=
  mkType 2 [mkTypeField "rack_a" "ref" [1] None; mkTypeField "rack_b" "ref" [1] None].
Definition rack7 : CmdbObject := mkObject 7 1 "1.0.0" true [].
Definition server5 : CmdbObject :=
  mkObject 5 2 "1.0.0" true [mkField "rack_a" VNone; mkField "rack_b" (VInt 7)].
Definition server6 : CmdbObject :=
  mkObject 6 2 "1.0.0" true [mkField "rack_a" (VStr "7"); mkField "rack_b" VNone].
Definition two_racks_world : World :=
  mkWorld [rack7; server5; server6] [Rack; Server2] [] [] [] [] [].

(** An update of rack_a that also carries a field the object does not
    have. *)
Definition update_rack_a : objects_routes.UpdateData :=
  objects_routes.mkUpdateData 2 None None None
    [mkField "rack_a" (VInt 3); mkField "zz" (VInt 1)].

(** The example of the specification: type Server has the field rack, a
    reference to Rack, and server 5 has rack = 7. *)
Definition Server : TypeModel := mkType 2 [mkTypeField "rack" "ref" [1] None].
Definition server5_rack7 : CmdbObject :=
  mkObject 5 2 "1.0.0" true [mkField "rack" (VInt 7)].
Definition one_rack_world : World :=
  mkWorld [rack7; server5_rack7] [Rack; Server] [] [] [] [] [].

(** Objects 5 and 6 of one type; the location of 6 lies under the location
    of 5, which lies under the root; one link joins the two objects. *)
Definition located_world : World :=
  mkWorld [mkObject 5 1 "1.0.0" true []; mkObject 6 1 "1.0.0" true []]
          [mkType 1 []]
          [mkLocation 2 5 1; mkLocation 3 6 2]
          [mkLink 1 5 6] [] [] [].

(** Objects 1, 3 and 2 in storage order, without locations. *)
Definition bulk_world : World :=
  mkWorld [mkObject 1 1 "1.0.0" true []; mkObject 3 1 "1.0.0" true [];
           mkObject 2 1 "1.0.0" true []]
          [mkType 1 []] [] [] [] [] [].

(** Object 1 does not render. *)
Definition unrendered_1 : Env :=
  mkEnv (λ _, false)
        (λ o t, if bool_decide (public_id o = 1) then inl RenderError
                else inr (mkRender (fields o) (version o)))
        (λ _ o, o) (λ _ v, v) (λ _, false) (λ _, false).

(** The forest of the specification: root → A → B and root → C. *)
Definition loc_A : CmdbLocation := mkLocation 2 12 1.
Definition loc_B : CmdbLocation := mkLocation 3 13 2.
Definition loc_C : CmdbLocation := mkLocation 4 14 1.

(** A type left without fields, and an object of it that still has one. *)
Definition stale_object : CmdbObject := mkObject 1 1 "1.0.0" true [mkField "a" (VInt 1)].
Definition fieldless_world : World :=
  mkWorld [stale_object] [mkType 1 []] [] [] [] [] [].

End Examples.

(** ** Computations that leave a part of the world alone *)

(** [m] hands back the part [proj] of the world as it found it. *)
Definition preserves {R A B} (proj : World → B) (m : M R A) : Prop :=
  ∀ w, proj (m w).2 = proj w.

(** ** Reasoning about computations *)

Ltac unfold_monad :=
  unfold bind, ret, raise, exit, world, modify, try_except, run_route in *.

Lemma bind_Return {R A B} (m : M R A) (k : A → M R B) w a w' :
  m w = (Return a, w') → bind m k w = k a w'.
Proof. intros H. unfold bind. by rewrite H. Qed.

Lemma bind_Exit {R A B} (m : M R A) (k : A → M R B) w r w' :
  m w = (Exit r, w') → bind m k w = (Exit r, w').
Proof. intros H. unfold bind. by rewrite H. Qed.

Lemma bind_Raise {R A B} (m : M R A) (k : A → M R B) w e w' :
  m w = (Raise e, w') → bind m k w = (Raise e, w').
Proof. intros H. unfold bind. by rewrite H. Qed.

Lemma try_except_Return {R A} (m : M R A) (h : Exn → option (M R A)) w a w' :
  m w = (Return a, w') → try_except m h w = (Return a, w').
Proof. intros H. unfold try_except. by rewrite H. Qed.

(** A loop whose body always returns is the fold of the body's effect. *)
Lemma for_each_foldl {R A} (l : list A) (body : A → M R unit)
    (f : A → World → World) w :
  (∀ x w0, x ∈ l → body x w0 = (Return tt, f x w0)) →
  for_each l body w = (Return tt, foldl (λ w0 x, f x w0) w l).
Proof.
  revert w. induction l as [|x l IH]; intros w Hbody; [done|].
  simpl. erewrite bind_Return; [|apply Hbody; by left].
  apply IH. intros y w0 Hy. apply Hbody. by right.
Qed.


(** A loop under an invariant on the elements already visited. *)
Lemma for_fold_invariant {R A B} (P : list A → B → World → Prop)
    (l : list A) (body : B → A → M R B) acc w :
  P [] acc w →
  (∀ visited x b w0, x ∈ l → P visited b w0 →
     ∃ b' w1, body b x w0 = (Return b', w1) ∧ P (visited ++ [x])%list b' w1) →
  ∃ b' w', for_fold l acc body w = (Return b', w') ∧ P l b' w'.
Proof.
  intros Hinit Hbody.
  cut (∀ rest visited b w0, (∀ x, x ∈ rest → x ∈ l) → P visited b w0 →
         ∃ b' w', for_fold rest b body w0 = (Return b', w') ∧
                  P (visited ++ rest)%list b' w').
  { intros Hcut. apply (Hcut l [] acc w); auto. }
  induction rest as [|x rest IH]; intros visited b w0 Hsub HP.
  - exists b, w0. by rewrite app_nil_r.
  - destruct (Hbody visited x b w0) as (b1 & w1 & Hrun & HP1); [apply Hsub; by left|done|].
    destruct (IH (visited ++ [x])%list b1 w1) as (b2 & w2 & Hrun2 & HP2).
    { intros y Hy. apply Hsub. by right. }
    { done. }
    exists b2, w2. split.
    + simpl. by erewrite bind_Return.
    + by rewrite <- app_assoc in HP2.
Qed.

Lemma for_each_invariant {R A} (P : list A → World → Prop)
    (l : list A) (body : A → M R unit) w :
  P [] w →
  (∀ visited x w0, x ∈ l → P visited w0 →
     ∃ w1, body x w0 = (Return tt, w1) ∧ P (visited ++ [x])%list w1) →
  ∃ w', for_each l body w = (Return tt, w') ∧ P l w'.
Proof.
  intros Hinit Hbody.
  cut (∀ rest visited w0, (∀ x, x ∈ rest → x ∈ l) → P visited w0 →
         ∃ w', for_each rest body w0 = (Return tt, w') ∧ P (visited ++ rest)%list w').
  { intros Hcut. apply (Hcut l [] w); auto. }
  induction rest as [|x rest IH]; intros visited w0 Hsub HP.
  - exists w0. by rewrite app_nil_r.
  - destruct (Hbody visited x w0) as (w1 & Hrun & HP1); [apply Hsub; by left|done|].
    destruct (IH (visited ++ [x])%list w1) as (w2 & Hrun2 & HP2).
    { intros y Hy. apply Hsub. by right. }
    { done. }
    exists w2. split.
    + simpl. by erewrite bind_Return.
    + by rewrite <- app_assoc in HP2.
Qed.

Lemma for_fold_app {R A B} (l1 l2 : list A) (acc : B) (body : B → A → M R B) w :
  for_fold (l1 ++ l2) acc body w
  = bind (for_fold l1 acc body) (λ acc', for_fold l2 acc' body) w.
Proof.
  revert acc w. induction l1 as [|x l1 IH]; intros acc w; simpl; [done|].
  unfold bind. destruct (body acc x w) as [[acc'|e|r] w']; [|done..].
  rewrite IH. reflexivity.
Qed.

(** *** Lists *)

Lemma find_Some_elem {A} (p : A → bool) l x :
  List.find p l = Some x → x ∈ l ∧ p x = true.
Proof.
  intros H. apply List.find_some in H as [Hin Hp]. split; [|done].
  by apply list_elem_of_In.
Qed.

Lemma elem_of_map_iff {A B} (f : A → B) (l : list A) (y : B) :
  y ∈ map f l ↔ ∃ x, f x = y ∧ x ∈ l.
Proof.
  rewrite list_elem_of_In, in_map_iff.
  split; intros (x & Hx & Hin); exists x; by rewrite ?list_elem_of_In in *.
Qed.

Lemma elem_of_flat_map {A B} (f : A → list B) (l : list A) (y : B) :
  y ∈ flat_map f l ↔ ∃ x, x ∈ l ∧ y ∈ f x.
Proof.
  rewrite list_elem_of_In, in_flat_map. split.
  - intros (x & Hx & Hy). exists x. by rewrite !list_elem_of_In.
  - intros (x & Hx & Hy). exists x. by rewrite <- !list_elem_of_In.
Qed.

Lemma flat_map_singleton {A B} (g : A → B) (l : list A) :
  flat_map (λ x, [g x]) l = map g l.
Proof. induction l as [|x l IH]; [done|]. simpl. by f_equal. Qed.


Lemma filter_all {A} (P : A → Prop) `{∀ x, Decision (P x)} (l : list A) :
  (∀ x, x ∈ l → P x) → filter P l = l.
Proof.
  induction l as [|x l IH]; intros HP; [done|].
  rewrite filter_cons_True by (apply HP; by left).
  f_equal. apply IH. intros y Hy. apply HP. by right.
Qed.

Lemma filter_ext_elem {A} (P Q : A → Prop) `{∀ x, Decision (P x)} `{∀ x, Decision (Q x)}
    (l : list A) :
  (∀ x, x ∈ l → (P x ↔ Q x)) → filter P l = filter Q l.
Proof.
  induction l as [|x l IH]; intros Hext; [done|].
  rewrite !filter_cons.
  assert (P x ↔ Q x) as Hx by (apply Hext; by left).
  rewrite IH by (intros y Hy; apply Hext; by right).
  repeat case_decide; tauto.
Qed.

Lemma map_filter_comm {A B} (f : A → B) (P : B → Prop)
    `{∀ y, Decision (P y)} `{∀ x, Decision (P (f x))} (l : list A) :
  map f (filter (λ x, P (f x)) l) = filter P (map f l).
Proof.
  induction l as [|x l IH]; [done|]. simpl.
  rewrite !filter_cons. repeat case_decide; simpl; rewrite ?IH; tauto.
Qed.

(** *** Projections of a world reached by a fold of effects *)

Lemma foldl_io_app {A} (f : A → World → World) (ev : A → list Event) l w :
  (∀ x w0, io (f x w0) = (io w0 ++ ev x)%list) →
  io (foldl (λ w0 x, f x w0) w l) = (io w ++ flat_map ev l)%list.
Proof.
  intros Hf. revert w. induction l as [|x l IH]; intros w; simpl.
  - by rewrite app_nil_r.
  - rewrite IH, Hf. by rewrite <- app_assoc.
Qed.

Lemma foldl_preserved {A B} (proj : World → B) (f : A → World → World) l w :
  (∀ x w0, proj (f x w0) = proj w0) →
  proj (foldl (λ w0 x, f x w0) w l) = proj w.
Proof.
  intros Hf. revert w. induction l as [|x l IH]; intros w; simpl; [done|].
  by rewrite IH, Hf.
Qed.

Lemma foldl_objects_map {A} (F : A → World → World) (G : A → CmdbObject → CmdbObject)
    (l : list A) (w : World) :
  (∀ x w0, objects (F x w0) = map (G x) (objects w0)) →
  objects (foldl (λ w0 x, F x w0) w l)
  = map (λ d, foldl (λ d0 x, G x d0) d l) (objects w).
Proof.
  intros HF. revert w. induction l as [|x l IH]; intros w; simpl.
  - by rewrite map_id.
  - by rewrite IH, HF, map_map.
Qed.

Lemma foldl_objects_filter {A} (f : A → World → World) (key : A → Z) l w :
  (∀ x w0, objects (f x w0) = filter (λ o, public_id o ≠ key x) (objects w0)) →
  objects (foldl (λ w0 x, f x w0) w l)
  = filter (λ o, public_id o ∉ map key l) (objects w).
Proof.
  intros Hf. revert w. induction l as [|x l IH]; intros w; simpl.
  - symmetry. apply filter_all. intros o _. apply not_elem_of_nil.
  - rewrite IH, Hf, list_filter_filter. apply list_filter_iff.
    intros o. rewrite not_elem_of_cons. tauto.
Qed.

Lemma foldl_locations_filter {A} (f : A → World → World) (key : A → Z) l w :
  (∀ x w0, locations (f x w0) = filter (λ o, loc_public_id o ≠ key x) (locations w0)) →
  locations (foldl (λ w0 x, f x w0) w l)
  = filter (λ o, loc_public_id o ∉ map key l) (locations w).
Proof.
  intros Hf. revert w. induction l as [|x l IH]; intros w; simpl.
  - symmetry. apply filter_all. intros o _. apply not_elem_of_nil.
  - rewrite IH, Hf, list_filter_filter. apply list_filter_iff.
    intros o. rewrite not_elem_of_cons. tauto.
Qed.

(** ** Diff and version policy *)

Lemma exceeds_half_lt (c n : nat) :
  objects_routes.exceeds_half c n = bool_decide (n < 2 * c)%nat.
Proof.
  unfold objects_routes.exceeds_half, Qle_bool, Qdiv, Qmult, Qinv, inject_Z. simpl.
  match goal with
  | |- negb (?a <=? ?b) = _ => destruct (Z.leb_spec a b) as [H|H]
  end; simpl; symmetry;
    [apply bool_decide_eq_false_2|apply bool_decide_eq_true_2]; lia.
Qed.

Lemma calc_version_rule (c n : nat) :
  objects_routes.calc_version c n = Spec.NextVersion_tier c n.
Proof.
  unfold objects_routes.calc_version, Spec.NextVersion_tier.
  rewrite exceeds_half_lt.
  destruct (Nat.eqb_spec c 1), (Nat.eqb_spec c n);
    repeat case_decide; try case_bool_decide; try done; lia.
Qed.

(** C1. The tier computed by the update route from the changed-field count
    [c] and the total field count [n] is the one of the rule in its priority
    order: PATCH if [c = 1]; else MAJOR if [c = n]; else MINOR if [c > n/2];
    else PATCH.  The tie at exactly half (2 of 4) is PATCH, and a change of
    the single field of a one-field object is PATCH. *)
Theorem calc_version_priority :
  (∀ c n, objects_routes.calc_version c n = Spec.NextVersion_tier c n) ∧
  objects_routes.calc_version 2 4 = VERSIONING_PATCH ∧
  objects_routes.calc_version 1 1 = VERSIONING_PATCH ∧
  objects_routes.calc_version 1 4 = VERSIONING_PATCH ∧
  objects_routes.calc_version 4 4 = VERSIONING_MAJOR ∧
  objects_routes.calc_version 3 4 = VERSIONING_MINOR.
Proof. split; [exact calc_version_rule|by vm_compute]. Qed.

(** ** The user manager *)

(** C10. Deleting the user with public id 1 raises [ManagerDeleteError] and
    leaves the world as it was: the user collection is unchanged and the
    trace of store accesses has gained neither a lookup nor a deletion. *)
Theorem delete_admin_refused :
  ∀ (R : Type) (w : World),
    UserManager.delete (R:=R) 1 w = (Raise ManagerDeleteError, w).
Proof. intros R w. reflexivity. Qed.

(** Every other identifier reaches the store. *)
Lemma delete_user_looks_up (R : Type) (w : World) (id : Z) :
  id ≠ 1 →
  ∃ o w', UserManager.delete (R:=R) id w = (o, w') ∧
          ∃ tr, io w' = (io w ++ EvFindOne UsersC :: tr)%list.
Proof.
  intros Hid. unfold UserManager.delete.
  rewrite bool_decide_eq_false_2 by (by rewrite list_elem_of_singleton).
  unfold UserManager.get, UserManager._delete. unfold_monad. simpl.
  unfold find_user. simpl.
  destruct (List.find _ (users w)) as [u|]; simpl.
  - case_match; eexists _, _; (split; [reflexivity|]); simpl;
      rewrite <- app_assoc; by eexists.
  - eexists _, _; split; [reflexivity|]. simpl. by exists [].
Qed.

(** ** Object creation *)

(** The calls the routes make with the requesting user and a permission
    do not bind to [insert_object(self, data)] and
    [delete_object(self, public_id)]. *)
Lemma call_unbound {R A} (parameters : list string) (positional : nat)
    (keywords : list string) (body : M R A) (w : World) :
  binds parameters positional keywords = false →
  call parameters positional keywords body w = (Raise TypeError, w).
Proof. intros Hbinds. unfold call. by rewrite Hbinds. Qed.

Lemma call_bound {R A} (parameters : list string) (positional : nat)
    (keywords : list string) (body : M R A) :
  binds parameters positional keywords = true →
  call parameters positional keywords body = body.
Proof. intros Hbinds. unfold call. by rewrite Hbinds. Qed.

(** C8, at the failing input.  A request for a new object of type 1 that
    supplies the version "9.9.9", on a store without objects: the route
    sets the version "1.0.0" and calls
    [object_manager.insert_object(new_object_data, user=..., permission=...)];
    [insert_object(self, data)] has no such parameters, the call raises
    [TypeError] before anything is stored, and the route answers 400.  The
    call [insert_object(new_object_data)] on the same data stores the
    object with the version "1.0.0". *)
Theorem insert_object_stores_nothing :
  let data := objects_routes.mkInsertData None (Some 1) None (Some "9.9.9") [] in
  let res := run_route (objects_routes.insert_object Examples.nominal data)
                       Examples.empty_world in
  binds object_manager.insert_object_parameters 1 ["user"; "permission"] = false ∧
  res.1 = abort 400 ∧
  objects res.2 = [] ∧
  io res.2 = [] ∧
  binds object_manager.insert_object_parameters 1 [] = true ∧
  objects (object_manager.insert_object (R:=Z) 1 (Some 1) true "1.0.0" []
             Examples.empty_world).2
    = [mkObject 1 1 "1.0.0" true []].
Proof. by vm_compute. Qed.

(** ** Unstructured objects *)

Lemma sorted_Permutation (l : list string) : sorted l ≡ₚ l.
Proof. apply merge_sort_Permutation. Qed.

Lemma sorted_Sorted (l : list string) : Sorted String.le (sorted l).
Proof. apply (Sorted_merge_sort String.le). Qed.

(** Two lists have the same sorted form exactly when they are permutations
    of each other. *)
Lemma sorted_eq_iff (l1 l2 : list string) : sorted l1 = sorted l2 ↔ l1 ≡ₚ l2.
Proof.
  split.
  - intros Heq. rewrite <- (sorted_Permutation l1), <- (sorted_Permutation l2).
    by rewrite Heq.
  - intros Hperm. apply (Sorted_unique String.le); try apply sorted_Sorted.
    by rewrite !sorted_Permutation.
Qed.

(** C6. For a type that exists, the route answers with exactly the objects
    of the type whose sorted field-name list differs from the sorted
    field-name list of the type; an object whose field names are a
    permutation of the type's is not reported. *)
Theorem get_unstructured_objects_exact (tid : Z) (w : World) (t : TypeModel) :
  find_type tid w = Some t →
  ∃ unstructured w',
    run_route (objects_routes.get_unstructured_objects tid) w
      = (make_response unstructured, w') ∧
    (∀ o, o ∈ unstructured ↔
            o ∈ objects w ∧ type_id o = tid ∧
            sorted (map f_name (fields o)) ≠ sorted (map tf_name (type_fields t))) ∧
    (∀ o, map f_name (fields o) ≡ₚ map tf_name (type_fields t) → o ∉ unstructured).
Proof.
  intros Ht.
  unfold objects_routes.get_unstructured_objects, type_manager.get, manager.iterate.
  unfold_monad. simpl.
  change (find_type tid (emit (EvFindOne TypesC) w)) with (find_type tid w).
  rewrite Ht. simpl.
  eexists _, _. split; [reflexivity|].
  assert (∀ o, o ∈ filter
                 (λ object_, sorted (map f_name (fields object_)) ≠
                             sorted (map tf_name (type_fields t)))
                 (merge_sort by_public_id (filter (λ o0, type_id o0 = tid) (objects w)))
               ↔ o ∈ objects w ∧ type_id o = tid ∧
                 sorted (map f_name (fields o)) ≠ sorted (map tf_name (type_fields t)))
    as Hexact.
  { intros o. rewrite list_elem_of_filter, merge_sort_Permutation, list_elem_of_filter.
    tauto. }
  split; [exact Hexact|].
  intros o Hperm Hin. apply Hexact in Hin as (_ & _ & Hne).
  apply Hne. by apply sorted_eq_iff.
Qed.

Lemma get_unstructured_objects_exact_witness :
  find_type 4 Examples.drifted_world = Some Examples.type_ab ∧
  ∃ unstructured w',
    run_route (objects_routes.get_unstructured_objects 4) Examples.drifted_world
      = (make_response unstructured, w') ∧
    (∀ o, o ∈ unstructured ↔
            o ∈ objects Examples.drifted_world ∧ type_id o = 4 ∧
            sorted (map f_name (fields o))
              ≠ sorted (map tf_name (type_fields Examples.type_ab))) ∧
    (∀ o, map f_name (fields o) ≡ₚ map tf_name (type_fields Examples.type_ab) →
          o ∉ unstructured).
Proof.
  split; [reflexivity|].
  apply (get_unstructured_objects_exact 4 Examples.drifted_world Examples.type_ab).
  reflexivity.
Defined.

(** Object 1 holds the type's names in another order and is not reported;
    object 2 lacks a field and is. *)
Example get_unstructured_objects_run :
  (run_route (objects_routes.get_unstructured_objects 4) Examples.drifted_world).1
    = make_response [mkObject 2 4 "1.0.0" true [mkField "a" VNone]].
Proof. by vm_compute. Qed.

(** ** Object update *)

Lemma overwrite_value_names (item : Field) (olds : list Field) :
  map f_name (objects_routes.overwrite_value item olds) = map f_name olds.
Proof.
  unfold objects_routes.overwrite_value. rewrite map_map.
  apply map_ext. intros old. by case_decide.
Qed.

Lemma merge_fields_snoc (olds news : list Field) (item : Field) :
  objects_routes.merge_fields olds (news ++ [item])
  = objects_routes.overwrite_value item (objects_routes.merge_fields olds news).
Proof. unfold objects_routes.merge_fields. by rewrite foldl_app. Qed.

Lemma merged_field_name (news : list Field) (old : Field) :
  f_name (Spec.merged_field news old) = f_name old.
Proof. unfold Spec.merged_field. by case_match. Qed.

Lemma merged_field_snoc (news : list Field) (item old : Field) :
  Spec.merged_field (news ++ [item]) old
  = if decide (f_name item = f_name old)
    then mkField (f_name old) (f_value item)
    else Spec.merged_field news old.
Proof.
  unfold Spec.merged_field. rewrite rev_unit. simpl.
  destruct (decide (f_name item = f_name old)) as [Heq|Hne].
  - by rewrite bool_decide_eq_true_2.
  - by rewrite bool_decide_eq_false_2.
Qed.

Lemma merge_fields_map (olds news : list Field) :
  objects_routes.merge_fields olds news = map (Spec.merged_field news) olds.
Proof.
  induction news as [|item news IH] using rev_ind.
  - simpl. symmetry. erewrite map_ext; [apply map_id|done].
  - rewrite merge_fields_snoc, IH. unfold objects_routes.overwrite_value.
    rewrite map_map. apply map_ext. intros old.
    by rewrite merged_field_snoc, merged_field_name.
Qed.

Lemma merge_fields_names (olds news : list Field) :
  map f_name (objects_routes.merge_fields olds news) = map f_name olds.
Proof.
  rewrite merge_fields_map, map_map. apply map_ext. intros old.
  apply merged_field_name.
Qed.

(** C9. When the update of one object goes through, the stored fields are
    the rendered fields of the current object, in their order and under
    their names, each with the value of the last payload field of its name
    or else its own value: a payload field can only overwrite the value of a
    rendered field of the same name, one that matches no rendered field is
    dropped, and the persisted field names are those of the rendered
    object. *)
Theorem update_object_keeps_field_names (E : Env) (data : objects_routes.UpdateData)
    (acc : objects_routes.UpdateMulti) (obj_id : Z) (w : World)
    (current : CmdbObject) (t : TypeModel) (rendered : RenderResult) :
  find_object obj_id w = Some current →
  acl_denied E obj_id = false →
  find_type (type_id current) w = Some t →
  CmdbRender E current t = inr rendered →
  ∃ new_data w',
    objects_routes.update_one E data acc obj_id w
      = (Return ((acc.1 ++ [new_data])%list, acc.2), w') ∧
    objects w' = map (λ o, if decide (public_id o = obj_id) then new_data else o)
                     (objects w) ∧
    new_data ∈ objects w' ∧
    map f_name (fields new_data) = map f_name (r_fields rendered) ∧
    fields new_data
      = map (Spec.merged_field (objects_routes.d_fields data)) (r_fields rendered) ∧
    (∀ item, item ∈ objects_routes.d_fields data →
             f_name item ∉ map f_name (r_fields rendered) →
             f_name item ∉ map f_name (fields new_data)).
Proof.
  intros Hobj Hacl Htype Hrender. destruct acc as [results failed].
  unfold objects_routes.update_one, manager.get, type_manager.get,
    objects_routes.render, manager.update, objects_routes.generate_log,
    logs_manager.insert_log.
  unfold_monad. simpl.
  change (find_object obj_id (emit (EvFindOne ObjectsC) w)) with (find_object obj_id w).
  rewrite Hobj, Hacl. simpl.
  change (find_type (type_id current) (emit (EvFindOne TypesC) (emit (EvFindOne ObjectsC) w)))
    with (find_type (type_id current) w).
  rewrite Htype. simpl. rewrite Hrender. simpl.
  apply find_Some_elem in Hobj as [Hin Hid]. apply bool_decide_eq_true in Hid.
  destruct (log_fault E obj_id); simpl;
    (eexists _, _; split; [reflexivity|]; simpl;
     split; [reflexivity|]; split; [|split; [apply merge_fields_names|split;
       [apply merge_fields_map|by rewrite merge_fields_names]]]).
  all: apply list_elem_of_In, in_map_iff; exists current;
    (split; [by rewrite decide_True|by apply list_elem_of_In]).
Qed.

Lemma update_object_keeps_field_names_witness :
  find_object 5 Examples.two_racks_world = Some Examples.server5 ∧
  acl_denied Examples.nominal 5 = false ∧
  find_type 2 Examples.two_racks_world = Some Examples.Server2 ∧
  CmdbRender Examples.nominal Examples.server5 Examples.Server2
    = inr (mkRender (fields Examples.server5) "1.0.0") ∧
  ∃ new_data w',
    objects_routes.update_one Examples.nominal Examples.update_rack_a ([], []) 5
                              Examples.two_racks_world
      = (Return ([new_data], []), w') ∧
    objects w' = map (λ o, if decide (public_id o = 5) then new_data else o)
                     (objects Examples.two_racks_world) ∧
    new_data ∈ objects w' ∧
    map f_name (fields new_data) = ["rack_a"; "rack_b"] ∧
    fields new_data
      = map (Spec.merged_field (objects_routes.d_fields Examples.update_rack_a))
            (fields Examples.server5) ∧
    (∀ item, item ∈ objects_routes.d_fields Examples.update_rack_a →
             f_name item ∉ ["rack_a"; "rack_b"] →
             f_name item ∉ map f_name (fields new_data)).
Proof.
  repeat (split; [reflexivity|]).
  apply (update_object_keeps_field_names Examples.nominal Examples.update_rack_a
           ([], []) 5 Examples.two_racks_world Examples.server5 Examples.Server2
           (mkRender (fields Examples.server5) "1.0.0"));
    reflexivity.
Defined.

Example update_object_run :
  (run_route (objects_routes.update_object Examples.nominal 5 [] Examples.update_rack_a)
             Examples.two_racks_world).1
  = make_response
      ([mkObject 5 2 "1.0.0" true [mkField "rack_a" (VInt 3); mkField "rack_b" (VInt 7)]],
       []).
Proof. by vm_compute. Qed.

(** The rule at work in the update route: the version stored is the bump, at
    the tier of the rule, of the version the update carries (the payload's,
    else the current one), for [c] the number of fields of the update that
    the current object does not hold and [n] the number of fields of the
    update. *)
Lemma update_object_version_by_rule (E : Env) (data : objects_routes.UpdateData)
    (acc : objects_routes.UpdateMulti) (obj_id : Z) (w : World)
    (current : CmdbObject) (t : TypeModel) (rendered : RenderResult) :
  find_object obj_id w = Some current →
  acl_denied E obj_id = false →
  find_type (type_id current) w = Some t →
  CmdbRender E current t = inr rendered →
  ∃ new_data w',
    objects_routes.update_one E data acc obj_id w
      = (Return ((acc.1 ++ [new_data])%list, acc.2), w') ∧
    let carried :=
      match objects_routes.d_version data with
      | Some v => v
      | None => version current
      end in
    let c := length (filter (λ j, j ∉ fields current) (fields new_data)) in
    let n := length (fields new_data) in
    version new_data = update_version E (Spec.NextVersion_tier c n) carried.
Proof.
  intros Hobj Hacl Htype Hrender. destruct acc as [results failed].
  unfold objects_routes.update_one, manager.get, type_manager.get,
    objects_routes.render, manager.update, objects_routes.generate_log,
    logs_manager.insert_log.
  unfold_monad. simpl.
  change (find_object obj_id (emit (EvFindOne ObjectsC) w)) with (find_object obj_id w).
  rewrite Hobj, Hacl. simpl.
  change (find_type (type_id current) (emit (EvFindOne TypesC) (emit (EvFindOne ObjectsC) w)))
    with (find_type (type_id current) w).
  rewrite Htype. simpl. rewrite Hrender. simpl.
  destruct (log_fault E obj_id); simpl;
    (eexists _, _; split; [reflexivity|]; simpl; by rewrite calc_version_rule).
Qed.

(** ** Backward reference resolution *)

Lemma get_field_of_type_with_value_Some (t : TypeModel) (v : Z) (f : TypeField) :
  object_manager.get_field_of_type_with_value t "ref" v = Some f →
  f ∈ type_fields t ∧ tf_type f = "ref" ∧ v ∈ tf_ref_types f.
Proof.
  intros H. apply find_Some_elem in H as [Hin Hp].
  apply bool_decide_eq_true in Hp. tauto.
Qed.

(** C5, as the code has it.  For a queried object that exists, the result
    holds exactly the stored objects [o] for which some type [t] has, as its
    first reference field allowing the queried object's type, a field [f],
    [o] being of type [t] with a field named as [f] whose value is the
    queried identifier in numeric or in string form. *)
Theorem get_object_references_first_field (R : Type) (id : Z) (w : World)
    (target : CmdbObject) :
  find_object id w = Some target →
  ∃ result w',
    object_manager.get_object_references (R:=R) id w = (Return result, w') ∧
    ∀ o, o ∈ result ↔
         o ∈ objects w ∧
         ∃ t f fld,
           t ∈ types w ∧
           object_manager.get_field_of_type_with_value t "ref" (type_id target) = Some f ∧
           type_id o = type_public_id t ∧
           fld ∈ fields o ∧ f_name fld = tf_name f ∧
           (f_value fld = VInt id ∨ f_value fld = VStr (str id)).
Proof.
  intros Htarget.
  unfold object_manager.get_object_references, object_manager.get_object,
    object_manager.get_types_by.
  unfold bind at 1. unfold bind at 1. unfold modify at 1.
  unfold bind at 1. unfold world at 1. 
  change (find_object id (emit (EvFindOne ObjectsC) w)) with (find_object id w).
  rewrite Htarget. unfold ret at 1.
  unfold bind at 1. unfold bind at 1. unfold modify at 1. unfold bind at 1. unfold world at 1.
  unfold ret at 1.
  simpl types.
  match goal with
  | |- ∃ result w', for_fold ?l [] ?body ?w1 = _ ∧ _ =>
      destruct (for_fold_invariant
        (λ visited b w0,
           objects w0 = objects w ∧
           ∀ o, o ∈ b ↔ ∃ p, p ∈ visited ∧ o ∈ objects w ∧ Effects.referencing id p o)
        l body [] w1) as (result & w' & Hrun & _ & Hres)
  end.
  { split; [done|]. intros o. split; [by intros ?%elem_of_nil|].
    by intros (p & ?%elem_of_nil & _). }
  { intros visited p b w0 _ [Hobjs Hb].
    unfold object_manager.get_objects_by. unfold_monad. simpl.
    eexists _, _. split; [reflexivity|]. split; [done|].
    intros o. rewrite elem_of_app, Hb, merge_sort_Permutation, list_elem_of_filter, Hobjs.
    split.
    - intros [(q & Hq & Ho)|[Href Ho]].
      + exists q. rewrite elem_of_app. tauto.
      + exists p. rewrite elem_of_app, list_elem_of_singleton. unfold Effects.referencing. tauto.
    - intros (q & Hq & Ho & Href). apply elem_of_app in Hq as [Hq|Hq].
      + left. by exists q.
      + apply list_elem_of_singleton in Hq as ->. right. unfold Effects.referencing in Href. tauto. }
  exists result, w'. split; [exact Hrun|].
  intros o. rewrite Hres. split.
  - intros (p & Hp & Ho & Htid & Hfld). split; [done|].
    apply elem_of_flat_map in Hp as (t & Ht & Hp).
    rewrite merge_sort_Permutation, list_elem_of_filter in Ht.
    destruct Ht as [_ Ht].
    destruct (object_manager.get_field_of_type_with_value t "ref" (type_id target))
      as [f|] eqn:Hf; [|by apply elem_of_nil in Hp].
    apply list_elem_of_singleton in Hp as ->. simpl in *.
    apply Exists_exists in Hfld as (fld & Hin & Hname & Hval).
    by exists t, f, fld.
  - intros (Ho & t & f & fld & Ht & Hf & Htid & Hin & Hname & Hval).
    exists (type_public_id t, tf_name f). split; [|split; [done|]].
    + apply elem_of_flat_map. exists t. split.
      * rewrite merge_sort_Permutation, list_elem_of_filter. split; [|done].
        apply get_field_of_type_with_value_Some in Hf as (Hfin & Hty & Hv).
        apply Exists_exists. by exists f.
      * rewrite Hf. by apply list_elem_of_singleton.
    + split; [done|]. apply Exists_exists. by exists fld.
Qed.

Lemma get_object_references_first_field_witness :
  find_object 7 Examples.two_racks_world = Some Examples.rack7 ∧
  ∃ result w',
    object_manager.get_object_references (R:=unit) 7 Examples.two_racks_world
      = (Return result, w') ∧
    ∀ o, o ∈ result ↔
         o ∈ objects Examples.two_racks_world ∧
         ∃ t f fld,
           t ∈ types Examples.two_racks_world ∧
           object_manager.get_field_of_type_with_value t "ref" 1 = Some f ∧
           type_id o = type_public_id t ∧
           fld ∈ fields o ∧ f_name fld = tf_name f ∧
           (f_value fld = VInt 7 ∨ f_value fld = VStr (str 7)).
Proof.
  split; [reflexivity|].
  apply (get_object_references_first_field unit 7 Examples.two_racks_world
           Examples.rack7).
  reflexivity.
Defined.

(** C5 as worded fails on a type with two reference fields to the same
    target type: server 5 refers to rack 7 through its second reference
    field and is not in the result. *)
Lemma get_object_references_misses_second_field :
  ∃ result w',
    object_manager.get_object_references (R:=unit) 7 Examples.two_racks_world
      = (Return result, w') ∧
    ¬ Spec.ResolveBackward_complete Examples.two_racks_world 7 result.
Proof.
  eexists _, _. split; [by vm_compute|].
  intros Hclaim.
  specialize (Hclaim Examples.rack7 Examples.Server2
                (mkTypeField "rack_b" "ref" [1] None) Examples.server5
                (mkField "rack_b" (VInt 7))).
  assert (Examples.server5 ∈ [Examples.server6]) as Hin.
  { apply Hclaim; try done; by repeat constructor. }
  apply list_elem_of_singleton in Hin. discriminate Hin.
Qed.

(** The example of the specification: ResolveBackward(7) includes server 5,
    found through the field rack of type Server. *)
Example ResolveBackward_rack_7 :
  object_manager.get_field_of_type_with_value Examples.Server "ref" 1
    = Some (mkTypeField "rack" "ref" [1] None) ∧
  (object_manager.get_object_references (R:=unit) 7 Examples.one_rack_world).1
    = Return [Examples.server5_rack7].
Proof. by vm_compute. Qed.

(** ** Deletion *)

Lemma delete_object_links_run {R} (id : Z) (w : World) :
  objects_routes.delete_object_links (R:=R) id w = (Return tt, Effects.links_deleted id w).
Proof.
  unfold objects_routes.delete_object_links, object_links_manager.iterate.
  unfold bind at 1. unfold bind at 1. unfold modify at 1. unfold bind at 1.
  unfold world at 1. unfold ret at 1.
  apply for_each_foldl. intros k w0 _. reflexivity.
Qed.

Lemma delete_all_object_references_run {R} (E : Env) (id : Z) (w : World) :
  manager.delete_all_object_references (R:=R) E id w
  = (Return tt, Effects.references_deleted E id w).
Proof. reflexivity. Qed.

(** Unlinking an object touches neither the types nor the locations, and
    rewrites the objects one by one. *)
Lemma unlinked_types (E : Env) (id : Z) (w : World) :
  types (Effects.references_deleted E id (Effects.links_deleted id w)) = types w.
Proof.
  unfold Effects.references_deleted, Effects.links_deleted. simpl.
  by rewrite (foldl_preserved types).
Qed.

Lemma unlinked_locations (E : Env) (id : Z) (w : World) :
  locations (Effects.references_deleted E id (Effects.links_deleted id w)) = locations w.
Proof.
  unfold Effects.references_deleted, Effects.links_deleted. simpl.
  by rewrite (foldl_preserved locations).
Qed.

Lemma unlinked_objects (E : Env) (id : Z) (w : World) :
  objects (Effects.references_deleted E id (Effects.links_deleted id w))
  = map (delete_object_reference E id) (objects w).
Proof.
  unfold Effects.references_deleted, Effects.links_deleted. simpl.
  by rewrite (foldl_preserved objects).
Qed.

Lemma links_deleted_io (id : Z) (w : World) :
  io (Effects.links_deleted id w)
  = (io w ++ EvFindMany LinksC ::
       map (λ k, EvDelete LinksC (link_public_id k))
           (filter (λ k, link_primary k = id ∨ link_secondary k = id) (links w)))%list.
Proof.
  unfold Effects.links_deleted.
  rewrite (foldl_io_app _ (λ k, [EvDelete LinksC (link_public_id k)])) by done.
  simpl. rewrite <- app_assoc. simpl. by do 2 f_equal.
Qed.

Lemma links_deleted_links (id : Z) (w : World) :
  links (Effects.links_deleted id w)
  = filter (λ x, link_public_id x ∉
                 map link_public_id
                     (filter (λ k, link_primary k = id ∨ link_secondary k = id) (links w)))
           (links w).
Proof.
  unfold Effects.links_deleted.
  generalize (filter (λ k, link_primary k = id ∨ link_secondary k = id) (links w)).
  intros found.
  change (links w) with (links (emit (EvFindMany LinksC) w)).
  generalize (emit (EvFindMany LinksC) w). clear w.
  induction found as [|k ks IH]; intros w; simpl.
  - symmetry. apply filter_all. intros o _. apply not_elem_of_nil.
  - rewrite IH. simpl. rewrite list_filter_filter. apply list_filter_iff.
    intros o. rewrite not_elem_of_cons. tauto.
Qed.

Lemma unlinked_logs (E : Env) (id : Z) (w : World) :
  logs (Effects.references_deleted E id (Effects.links_deleted id w)) = logs w.
Proof.
  unfold Effects.references_deleted, Effects.links_deleted. simpl.
  by rewrite (foldl_preserved logs).
Qed.

(** *** Single delete *)

(** X15. The refusal itself: with a child location under the object's
    location, the route answers 405 and deletes neither an object nor a
    location; the links of the object are gone and the references to it
    rewritten. *)
Lemma delete_object_refused (E : Env) (id : Z) (w : World) (o : CmdbObject)
    (t : TypeModel) (r : RenderResult) (l c : CmdbLocation) :
  find_object id w = Some o →
  find_type (type_id o) w = Some t →
  CmdbRender E o t = inr r →
  find_location_for_object id w = Some l →
  find_child_location (loc_public_id l) w = Some c →
  ∃ w',
    run_route (objects_routes.delete_object E id) w = (ErrorBody 405, w') ∧
    locations w' = locations w ∧
    objects w' = map (delete_object_reference E id) (objects w) ∧
    links w' = links (Effects.links_deleted id w).
Proof.
  intros Ho Ht Hr Hl Hc.
  unfold run_route, objects_routes.delete_object.
  unfold bind at 1. unfold try_except at 1.
  unfold object_manager.get_object.
  unfold bind at 1. unfold bind at 1. unfold modify at 1.
  unfold bind at 1. unfold world at 1.
  change (find_object id (emit (EvFindOne ObjectsC) w)) with (find_object id w).
  rewrite Ho. unfold ret at 1.
  erewrite bind_Return; [|apply delete_object_links_run].
  erewrite bind_Return; [|apply delete_all_object_references_run].
  set (w1 := Effects.references_deleted E id (Effects.links_deleted id (emit (EvFindOne ObjectsC) w))).
  assert (locations w1 = locations w) as Hlocs1.
  { exact (unlinked_locations E id (emit (EvFindOne ObjectsC) w)). }
  assert (types w1 = types w) as Htypes1.
  { exact (unlinked_types E id (emit (EvFindOne ObjectsC) w)). }
  assert (objects w1 = map (delete_object_reference E id) (objects w)) as Hobjs1.
  { exact (unlinked_objects E id (emit (EvFindOne ObjectsC) w)). }
  assert (links w1 = links (Effects.links_deleted id w)) as Hlinks1.
  { unfold w1, Effects.references_deleted. simpl. by rewrite !links_deleted_links. }
  clearbody w1.
  unfold object_manager.get_type, objects_routes.render,
    locations_manager.get_location_for_object, locations_manager.get_one_by_parent.
  unfold_monad.
  unfold find_type, find_location_for_object, find_child_location in *. simpl.
  rewrite Htypes1, Ht. simpl. rewrite Hr. simpl.
  rewrite Hlocs1, Hl. simpl. rewrite Hlocs1, Hc. simpl.
  eexists. split; [reflexivity|]. by simpl.
Qed.

(** X16. Without a child location the route goes on to delete.  The
    location bound to the object is deleted; then the call
    [object_manager.delete_object(public_id, request_user,
    AccessControlPermission.DELETE)] raises [TypeError], which no clause of
    the route catches: the object stays stored, its location is gone, and
    no log entry is written. *)
Lemma delete_object_without_children (E : Env) (id : Z) (w : World) (o : CmdbObject)
    (t : TypeModel) (r : RenderResult) (l : CmdbLocation) :
  find_object id w = Some o →
  find_type (type_id o) w = Some t →
  CmdbRender E o t = inr r →
  find_location_for_object id w = Some l →
  find_child_location (loc_public_id l) w = None →
  ∃ w',
    run_route (objects_routes.delete_object E id) w = (unhandled TypeError, w') ∧
    locations w' = filter (λ x, loc_public_id x ≠ loc_public_id l) (locations w) ∧
    objects w' = map (delete_object_reference E id) (objects w) ∧
    logs w' = logs w.
Proof.
  intros Ho Ht Hr Hl Hc.
  unfold run_route, objects_routes.delete_object.
  unfold bind at 1. unfold try_except at 1.
  unfold object_manager.get_object.
  unfold bind at 1. unfold bind at 1. unfold modify at 1.
  unfold bind at 1. unfold world at 1.
  change (find_object id (emit (EvFindOne ObjectsC) w)) with (find_object id w).
  rewrite Ho. unfold ret at 1.
  erewrite bind_Return; [|apply delete_object_links_run].
  erewrite bind_Return; [|apply delete_all_object_references_run].
  set (w1 := Effects.references_deleted E id (Effects.links_deleted id (emit (EvFindOne ObjectsC) w))).
  assert (locations w1 = locations w) as Hlocs1.
  { exact (unlinked_locations E id (emit (EvFindOne ObjectsC) w)). }
  assert (types w1 = types w) as Htypes1.
  { exact (unlinked_types E id (emit (EvFindOne ObjectsC) w)). }
  assert (objects w1 = map (delete_object_reference E id) (objects w)) as Hobjs1.
  { exact (unlinked_objects E id (emit (EvFindOne ObjectsC) w)). }
  assert (logs w1 = logs w) as Hlogs1.
  { exact (unlinked_logs E id (emit (EvFindOne ObjectsC) w)). }
  clearbody w1.
  unfold call.
  change (binds object_manager.delete_object_parameters 3 []) with false.
  unfold object_manager.get_type, objects_routes.render,
    locations_manager.get_location_for_object, locations_manager.get_one_by_parent,
    locations_manager.delete.
  unfold_monad.
  unfold find_type, find_location_for_object, find_child_location in *. simpl.
  rewrite Htypes1, Ht. simpl. rewrite Hr. simpl.
  rewrite Hlocs1, Hl. simpl. rewrite Hlocs1, Hc. simpl.
  eexists. split; [reflexivity|]. simpl. by rewrite Hlocs1, Hobjs1, Hlogs1.
Qed.

(** C3, at the failing input.  Object 5 is bound to a location with a child
    location: the delete is refused with status 405, no object and no
    location is deleted, but the link between the objects 5 and 6 is gone
    from the store. *)
Theorem delete_object_refused_after_unlinking :
  let res := run_route (objects_routes.delete_object Examples.nominal 5)
                       Examples.located_world in
  res.1 = ErrorBody 405 ∧
  objects res.2 = objects Examples.located_world ∧
  locations res.2 = locations Examples.located_world ∧
  links Examples.located_world = [mkLink 1 5 6] ∧
  links res.2 = [] ∧
  io res.2 = [EvFindOne ObjectsC; EvFindMany LinksC; EvDelete LinksC 1;
              EvFindMany ObjectsC; EvUpdate ObjectsC 5; EvFindOne TypesC;
              EvFindOne LocationsC; EvFindOne LocationsC].
Proof. by vm_compute. Qed.

(** *** Cascade delete *)




(** The descendants in the forest of the specification, root → A → B and
    root → C: A, B and C, each once. *)
Example get_all_children_forest :
  locations_manager.get_all_children 1 [Examples.loc_A; Examples.loc_B; Examples.loc_C]
    = [Examples.loc_A; Examples.loc_C; Examples.loc_B].
Proof. by vm_compute. Qed.

(** *** Bulk delete *)

Lemma parse_public_ids {R} (ids acc : list Z) (w : World) :
  for_fold (R:=R) (map Some ids) acc
    (λ ids0 v, match v with
               | Some i => ret (ids0 ++ [i])%list
               | None => exit (abort 400)
               end) w
  = (Return (acc ++ ids)%list, w).
Proof.
  revert acc. induction ids as [|i ids IH]; intros acc; simpl.
  - by rewrite app_nil_r.
  - unfold bind, ret at 1. rewrite IH. by rewrite <- app_assoc.
Qed.

Lemma check_no_location_run (o : CmdbObject) (w : World) :
  find_location_for_object (public_id o) w = None →
  objects_routes.check_no_location o w = (Return tt, emit (EvFindOne LocationsC) w).
Proof.
  intros Hnone.
  unfold objects_routes.check_no_location, locations_manager.get_location_for_object.
  unfold_monad.
  change (find_location_for_object (public_id o) (emit (EvFindOne LocationsC) w))
    with (find_location_for_object (public_id o) w).
  by rewrite Hnone.
Qed.

(** The first loop of the bulk delete, when no object found has a
    location. *)
Lemma check_loop_run (w w1 : World) (l : list CmdbObject) :
  locations w1 = locations w →
  (∀ o, o ∈ l → find_location_for_object (public_id o) w = None) →
  ∃ w2, for_each l objects_routes.check_no_location w1 = (Return tt, w2) ∧
        objects w2 = objects w1 ∧ types w2 = types w1 ∧ locations w2 = locations w ∧
        links w2 = links w1 ∧ logs w2 = logs w1.
Proof.
  intros Hlocs Hnoloc.
  destruct (for_each_invariant
              (λ _ w0, objects w0 = objects w1 ∧ types w0 = types w1 ∧
                       locations w0 = locations w ∧
                       links w0 = links w1 ∧ logs w0 = logs w1)
              l objects_routes.check_no_location w1)
    as (w2 & Hrun & HP); [done| |by exists w2].
  intros visited o w0 Ho (Hobjs0 & Htypes0 & Hlocs0 & Hlinks0 & Hlogs0).
  eexists. split.
  - apply check_no_location_run. unfold find_location_for_object.
    rewrite Hlocs0. by apply Hnoloc.
  - done.
Qed.

(** The first [try] of the second loop, on an object whose type is not
    stored or does not render: the object is unlinked, and the route
    returns from inside the loop. *)
Lemma delete_one_of_many_aborts (E : Env) (ack : list bool) (o : CmdbObject) (w : World)
    (status : Z) :
  (find_type (type_id o) w = None ∧ status = 404) ∨
  (∃ t, find_type (type_id o) w = Some t ∧ CmdbRender E o t = inl RenderError ∧
        status = 500) →
  ∃ w',
    objects_routes.delete_one_of_many E ack o w = (Exit (abort status), w') ∧
    objects w' = map (delete_object_reference E (public_id o)) (objects w) ∧
    links w' = links (Effects.links_deleted (public_id o) w) ∧
    locations w' = locations w ∧
    logs w' = logs w.
Proof.
  intros Hfail.
  unfold objects_routes.delete_one_of_many.
  pose proof (unlinked_types E (public_id o) w) as Htypes1.
  pose proof (unlinked_locations E (public_id o) w) as Hlocs1.
  pose proof (unlinked_objects E (public_id o) w) as Hobjs1.
  pose proof (unlinked_logs E (public_id o) w) as Hlogs1.
  eexists. split.
  - apply bind_Exit. unfold try_except.
    erewrite bind_Return; [|apply delete_object_links_run].
    erewrite bind_Return; [|apply delete_all_object_references_run].
    unfold object_manager.get_type, objects_routes.render. unfold_monad.
    unfold find_type in *. cbn [types emit]. rewrite Htypes1.
    destruct Hfail as [[Ht ->]|(t & Ht & Hr & ->)]; rewrite Ht; [reflexivity|].
    rewrite Hr. reflexivity.
  - cbn [objects links locations logs emit]. by rewrite Hobjs1, Hlocs1, Hlogs1.
Qed.

(** The second [try] of the second loop, on an object that was rendered:
    the call with the keywords [public_id], [user] and [permission] raises
    [TypeError], and no clause catches it. *)
Lemma delete_one_of_many_raises (E : Env) (ack : list bool) (o : CmdbObject) (w : World)
    (t : TypeModel) (r : RenderResult) :
  find_type (type_id o) w = Some t →
  CmdbRender E o t = inr r →
  ∃ w',
    objects_routes.delete_one_of_many E ack o w = (Raise TypeError, w') ∧
    objects w' = map (delete_object_reference E (public_id o)) (objects w) ∧
    links w' = links (Effects.links_deleted (public_id o) w) ∧
    locations w' = locations w ∧
    logs w' = logs w.
Proof.
  intros Ht Hr.
  unfold objects_routes.delete_one_of_many.
  pose proof (unlinked_types E (public_id o) w) as Htypes1.
  pose proof (unlinked_locations E (public_id o) w) as Hlocs1.
  pose proof (unlinked_objects E (public_id o) w) as Hobjs1.
  pose proof (unlinked_logs E (public_id o) w) as Hlogs1.
  erewrite bind_Return; cycle 1.
  { apply try_except_Return.
    erewrite bind_Return; [|apply delete_object_links_run].
    erewrite bind_Return; [|apply delete_all_object_references_run].
    unfold object_manager.get_type, objects_routes.render. unfold_monad.
    unfold find_type in *. cbn [types emit]. rewrite Htypes1, Ht, Hr. reflexivity. }
  unfold bind at 1. unfold try_except at 1. unfold bind at 1.
  rewrite call_unbound by reflexivity.
  eexists. split; [reflexivity|].
  cbn [objects links locations logs emit]. by rewrite Hobjs1, Hlocs1, Hlogs1.
Qed.

(** The bulk delete up to the second loop, for identifiers none of which is
    bound to a location. *)
Lemma delete_many_objects_found (E : Env) (w : World) (ids : list Z)
    (found : list CmdbObject) (k : list bool → M objects_routes.BulkDeleted
                                     (Response objects_routes.BulkDeleted)) :
  merge_sort by_public_id (filter (λ o, public_id o ∈ ids) (objects w)) = found →
  (∀ i, i ∈ ids → find_location_for_object i w = None) →
  ∃ w1,
    (ids0 <- for_fold (map Some ids) []
               (λ ids0 v, match v with
                          | Some i => ret (ids0 ++ [i])%list
                          | None => exit (abort 400)
                          end) ;;
     objects_ <- object_manager.get_objects_by (λ o, public_id o ∈ ids0) ;;
     for_each objects_ objects_routes.check_no_location ;;;
     ack <- for_fold objects_ [] (objects_routes.delete_one_of_many E) ;;
     k ack) w
    = (ack <- for_fold found [] (objects_routes.delete_one_of_many E) ;; k ack) w1 ∧
    objects w1 = objects w ∧ types w1 = types w ∧ locations w1 = locations w ∧
    links w1 = links w ∧ logs w1 = logs w.
Proof.
  intros Hfound Hnoloc.
  erewrite bind_Return; [|apply parse_public_ids].
  unfold object_manager.get_objects_by.
  unfold bind at 1. unfold bind at 1. unfold modify at 1.
  unfold bind at 1. unfold world at 1. unfold ret at 1.
  cbn [app objects emit].
  rewrite Hfound.
  assert (∀ o, o ∈ found → public_id o ∈ ids) as Hin_found.
  { intros o. rewrite <- Hfound.
    rewrite merge_sort_Permutation, list_elem_of_filter. tauto. }
  destruct (check_loop_run w (emit (EvFindMany ObjectsC) w) found)
    as (w1 & Hrun1 & Hobjs1 & Htypes1 & Hlocs1 & Hlinks1 & Hlogs1); [done| |].
  { intros o Ho. apply Hnoloc. by apply Hin_found. }
  erewrite bind_Return; [|exact Hrun1].
  by exists w1.
Qed.

(** C2, as the code has it.  A bulk delete stops at the first failure and
    has no failure entries.  The objects found, in identifier order, [x]
    first, none bound to a location: when the type of [x] is not stored the
    route answers 404, when [x] does not render it answers 500, from inside
    the loop.  The objects after [x] are not visited; [x] has lost its links
    and the references to it, and every object is still stored. *)
Theorem delete_many_objects_aborts_at_first_failure (E : Env) (w : World)
    (ids : list Z) (x : CmdbObject) (after : list CmdbObject) (status : Z) :
  merge_sort by_public_id (filter (λ o, public_id o ∈ ids) (objects w)) = x :: after →
  (∀ i, i ∈ ids → find_location_for_object i w = None) →
  (find_type (type_id x) w = None ∧ status = 404) ∨
  (∃ t, find_type (type_id x) w = Some t ∧ CmdbRender E x t = inl RenderError ∧
        status = 500) →
  ∃ w',
    run_route (objects_routes.delete_many_objects E (map Some ids)) w
      = (abort status, w') ∧
    objects w' = map (delete_object_reference E (public_id x)) (objects w) ∧
    links w' = links (Effects.links_deleted (public_id x) w) ∧
    locations w' = locations w ∧
    logs w' = logs w.
Proof.
  intros Hfound Hnoloc Hfail.
  unfold run_route, objects_routes.delete_many_objects, try_except.
  destruct (delete_many_objects_found E w ids (x :: after)
              (λ ack, ret (make_response (objects_routes.successfully ack))))
    as (w1 & -> & Hobjs1 & Htypes1 & Hlocs1 & Hlinks1 & Hlogs1); [done|done|].
  destruct (delete_one_of_many_aborts E [] x w1 status)
    as (w2 & Hrun2 & Hobjs2 & Hlinks2 & Hlocs2 & Hlogs2).
  { unfold find_type in *. by rewrite Htypes1. }
  erewrite bind_Exit; [|simpl; erewrite bind_Exit; [reflexivity|exact Hrun2]].
  exists w2. split; [done|].
  rewrite Hobjs2, Hlocs2, Hlogs2, Hobjs1, Hlocs1, Hlogs1, Hlinks2.
  repeat split. by rewrite !links_deleted_links, Hlinks1.
Qed.

Lemma delete_many_objects_aborts_at_first_failure_witness :
  ∃ w',
    run_route (objects_routes.delete_many_objects Examples.unrendered_1
                 (map Some [3; 7; 1; 2])) Examples.bulk_world
      = (abort 500, w') ∧
    objects w' = objects Examples.bulk_world.
Proof.
  destruct (delete_many_objects_aborts_at_first_failure Examples.unrendered_1
              Examples.bulk_world [3; 7; 1; 2] (mkObject 1 1 "1.0.0" true [])
              [mkObject 2 1 "1.0.0" true []; mkObject 3 1 "1.0.0" true []] 500)
    as (w' & Hrun & Hobjs & _).
  - by vm_compute.
  - intros i _. reflexivity.
  - right. exists (mkType 1 []). repeat split; reflexivity.
  - exists w'. split; [exact Hrun|]. rewrite Hobjs. by vm_compute.
Defined.

(** X21. A bulk delete deletes no object.  The objects found, in identifier
    order, [x] first, none bound to a location, [x] of a stored type and
    rendered: the call [object_manager.delete_object(public_id=...,
    user=..., permission=...)] for [x] raises [TypeError], which neither
    the clauses of the loop nor those of the route catch.  [x] has lost its
    links and the references to it; every object is still stored and no log
    entry is written. *)
Lemma delete_many_objects_fails_at_first_delete (E : Env) (w : World) (ids : list Z)
    (x : CmdbObject) (after : list CmdbObject) (t : TypeModel) (r : RenderResult) :
  merge_sort by_public_id (filter (λ o, public_id o ∈ ids) (objects w)) = x :: after →
  (∀ i, i ∈ ids → find_location_for_object i w = None) →
  find_type (type_id x) w = Some t →
  CmdbRender E x t = inr r →
  ∃ w',
    run_route (objects_routes.delete_many_objects E (map Some ids)) w
      = (unhandled TypeError, w') ∧
    objects w' = map (delete_object_reference E (public_id x)) (objects w) ∧
    links w' = links (Effects.links_deleted (public_id x) w) ∧
    locations w' = locations w ∧
    logs w' = logs w.
Proof.
  intros Hfound Hnoloc Ht Hr.
  unfold run_route, objects_routes.delete_many_objects, try_except.
  destruct (delete_many_objects_found E w ids (x :: after)
              (λ ack, ret (make_response (objects_routes.successfully ack))))
    as (w1 & -> & Hobjs1 & Htypes1 & Hlocs1 & Hlinks1 & Hlogs1); [done|done|].
  destruct (delete_one_of_many_raises E [] x w1 t r)
    as (w2 & Hrun2 & Hobjs2 & Hlinks2 & Hlocs2 & Hlogs2); [|done|].
  { unfold find_type in *. by rewrite Htypes1. }
  unfold bind at 1. simpl for_fold. unfold bind at 1. rewrite Hrun2.
  exists w2. split; [done|].
  rewrite Hobjs2, Hlocs2, Hlogs2, Hobjs1, Hlocs1, Hlogs1, Hlinks2.
  repeat split. by rewrite !links_deleted_links, Hlinks1.
Qed.

(** C2 as worded fails.  Of the objects 1, 2 and 3 exactly one, object 1,
    fails: it does not render.  The route aborts with status 500; the
    objects 2 and 3 are not deleted and the answer lists no success. *)
Lemma delete_many_objects_aborts_on_failure :
  let res := run_route (objects_routes.delete_many_objects Examples.unrendered_1
                          [Some 1; Some 2; Some 3]) Examples.bulk_world in
  ¬ Spec.bulk_delete_completes Examples.unrendered_1 Examples.bulk_world [1; 2; 3] 1 ∧
  res.1 = abort 500 ∧
  objects res.2 = objects Examples.bulk_world.
Proof.
  split; [|split; by vm_compute].
  unfold Spec.bulk_delete_completes.
  set (res := run_route _ _). vm_compute in res. subst res.
  intros [_ (ack & Hack & _)]. discriminate Hack.
Qed.

(** ** Structural repair *)

Lemma classify_inner (name : string) (ofs : list Field) (inc cor : list string) :
  foldl (λ acc' field,
           let '(incorrect, correct) := acc' in
           if decide (name = f_name field)
           then (incorrect, (correct ++ [f_name field])%list)
           else ((incorrect ++ [f_name field])%list, correct))
        (inc, cor) ofs
  = ((inc ++ map f_name (filter (λ f, name ≠ f_name f) ofs))%list,
     (cor ++ map f_name (filter (λ f, name = f_name f) ofs))%list).
Proof.
  revert inc cor. induction ofs as [|f ofs IH]; intros inc cor; simpl.
  - by rewrite !app_nil_r.
  - rewrite !filter_cons. destruct (decide (name = f_name f)) as [Heq|Hne].
    + rewrite IH. rewrite decide_False by tauto. simpl. by rewrite <- app_assoc.
    + rewrite IH. rewrite decide_True by done. simpl. by rewrite <- app_assoc.
Qed.

Lemma classify_fields_elem (tfs : list TypeField) (ofs : list Field) (n : string) :
  (n ∈ (objects_routes.classify_fields tfs ofs).1 ↔
     n ∈ map f_name ofs ∧ ∃ tf, tf ∈ tfs ∧ tf_name tf ≠ n) ∧
  (n ∈ (objects_routes.classify_fields tfs ofs).2 ↔
     n ∈ map f_name ofs ∧ n ∈ map tf_name tfs).
Proof.
  unfold objects_routes.classify_fields.
  cut (∀ inc cor,
         let res := foldl (λ acc t_field,
                             let name := tf_name t_field in
                             foldl (λ acc' field,
                                      let '(incorrect, correct) := acc' in
                                      if decide (name = f_name field)
                                      then (incorrect, (correct ++ [f_name field])%list)
                                      else ((incorrect ++ [f_name field])%list, correct))
                                   acc ofs)
                          (inc, cor) tfs in
         (n ∈ res.1 ↔ n ∈ inc ∨ (n ∈ map f_name ofs ∧ ∃ tf, tf ∈ tfs ∧ tf_name tf ≠ n)) ∧
         (n ∈ res.2 ↔ n ∈ cor ∨ (n ∈ map f_name ofs ∧ n ∈ map tf_name tfs))).
  { intros Hcut. specialize (Hcut [] []). simpl in Hcut.
    destruct Hcut as [H1 H2]. rewrite H1, H2. rewrite !elem_of_nil. tauto. }
  induction tfs as [|tf tfs IH]; intros inc cor; simpl.
  - rewrite !elem_of_nil. split; [|tauto]. split; [tauto|].
    intros [?|[_ (tf & Htf%elem_of_nil & _)]]; tauto.
  - rewrite classify_inner. destruct (IH
      (inc ++ map f_name (filter (λ f, tf_name tf ≠ f_name f) ofs))%list
      (cor ++ map f_name (filter (λ f, tf_name tf = f_name f) ofs))%list) as [H1 H2].
    simpl in H1, H2. rewrite H1, H2. clear H1 H2 IH.
    rewrite !elem_of_app.
    assert (∀ (P : Field → Prop) `{∀ f, Decision (P f)},
              n ∈ map f_name (filter P ofs) ↔ ∃ f, f ∈ ofs ∧ P f ∧ f_name f = n) as Hmf.
    { intros P HP. rewrite list_elem_of_In, in_map_iff. split.
      - intros (f & Hf & Hin%list_elem_of_In%list_elem_of_filter). exists f. tauto.
      - intros (f & Hin & HPf & Hf). exists f. split; [done|].
        apply list_elem_of_In, list_elem_of_filter. tauto. }
    assert (n ∈ map f_name ofs ↔ ∃ f, f ∈ ofs ∧ f_name f = n) as Hm.
    { rewrite list_elem_of_In, in_map_iff. split.
      - intros (f & Hf & Hin%list_elem_of_In). by exists f.
      - intros (f & Hin & Hf). exists f. by rewrite <- list_elem_of_In. }
    rewrite !Hmf, Hm. rewrite elem_of_cons. split.
    + split.
      * intros [[?|(f & Hin & Hne & Hf)]|[Hex (tf' & Htf' & Hne')]].
        -- by left.
        -- right. split; [by exists f|]. exists tf. rewrite elem_of_cons. split; [by left|congruence].
        -- right. split; [done|]. exists tf'. rewrite elem_of_cons. tauto.
      * intros [?|[(f & Hin & Hf) (tf' & Htf' & Hne')]]; [tauto|].
        apply elem_of_cons in Htf' as [->|Htf'].
        -- left. right. exists f. split; [done|]. split; [congruence|done].
        -- right. split; [by exists f|]. by exists tf'.
    + split.
      * intros [[?|(f & Hin & Heq & Hf)]|[Hex Htf']].
        -- by left.
        -- right. split; [by exists f|]. left. congruence.
        -- right. tauto.
      * intros [?|[(f & Hin & Hf) [->|Htf']]]; [tauto| |].
        -- left. right. exists f. done.
        -- right. split; [by exists f|done].
Qed.

Lemma removed_type_fields_elem (tfs : list TypeField) (o : CmdbObject) (n : string) :
  n ∈ objects_routes.removed_type_fields tfs o ↔
  n ∈ map f_name (fields o) ∧ (n ∉ map tf_name tfs) ∧ tfs ≠ [].
Proof.
  unfold objects_routes.removed_type_fields.
  destruct (classify_fields_elem tfs (fields o) n) as [Hinc Hcor].
  destruct (objects_routes.classify_fields tfs (fields o)) as [incorrect correct].
  simpl in Hinc, Hcor. rewrite list_elem_of_filter, Hinc, Hcor. split.
  - intros [Hnc [Hn (tf & Htf & Hne)]]. split; [done|]. split; [tauto|].
    intros ->. by apply elem_of_nil in Htf.
  - intros (Hn & Hnt & Hne). split; [tauto|]. split; [done|].
    destruct tfs as [|tf tfs]; [done|]. exists tf. split; [by left|].
    intros <-. apply Hnt. simpl. by left.
Qed.

Lemma pulled_inner (id : Z) (names : list string) (d : CmdbObject) :
  let d' := foldl (λ d1 n, Effects.doc_update id (objects_routes.pull_field n) d1) d names in
  public_id d' = public_id d ∧ type_id d' = type_id d ∧
  ∀ f, f ∈ fields d' ↔ f ∈ fields d ∧ (public_id d = id → f_name f ∉ names).
Proof.
  revert d. induction names as [|n names IH]; intros d; simpl.
  - split; [done|]. split; [done|]. intros f. split; [|tauto].
    intros Hf. split; [done|]. intros _. apply not_elem_of_nil.
  - destruct (IH (Effects.doc_update id (objects_routes.pull_field n) d)) as (Hp & Ht & Hf).
    unfold Effects.doc_update in *. destruct (decide (public_id d = id)) as [Hid|Hid]; simpl in *.
    + split; [done|]. split; [done|]. intros f. rewrite Hf, list_elem_of_filter.
      rewrite not_elem_of_cons. tauto.
    + split; [done|]. split; [done|]. intros f. rewrite Hf. tauto.
Qed.

Lemma pulled_spec (tfs : list TypeField) (snapshot : list CmdbObject) (d : CmdbObject) :
  public_id (Effects.pulled tfs snapshot d) = public_id d ∧
  type_id (Effects.pulled tfs snapshot d) = type_id d ∧
  ∀ f, f ∈ fields (Effects.pulled tfs snapshot d) ↔
       f ∈ fields d ∧
       ∀ obj, obj ∈ snapshot → public_id obj = public_id d →
              f_name f ∉ objects_routes.removed_type_fields tfs obj.
Proof.
  unfold Effects.pulled. revert d. induction snapshot as [|obj snapshot IH]; intros d; simpl.
  - split; [done|]. split; [done|]. intros f. split; [|tauto].
    intros Hf. split; [done|]. by intros ? ?%elem_of_nil.
  - destruct (pulled_inner (public_id obj) (objects_routes.removed_type_fields tfs obj) d)
      as (Hp & Ht & Hf). simpl in Hp, Ht, Hf.
    destruct (IH (foldl (λ d1 n, Effects.doc_update (public_id obj) (objects_routes.pull_field n) d1)
                        d (objects_routes.removed_type_fields tfs obj)))
      as (Hp' & Ht' & Hf').
    split; [congruence|]. split; [congruence|].
    intros f. rewrite Hf', Hf, Hp. split.
    + intros [[Hin Hthis] Hrest]. split; [done|].
      intros obj' [->|Hobj']%elem_of_cons Hid; [by apply Hthis|by apply Hrest].
    + intros [Hin Hall]. split; [split; [done|]|].
      * intros Hid. apply Hall; [by left|done].
      * intros obj' Hobj' Hid. apply Hall; [by right|done].
Qed.

Lemma has_field_named (n : string) (fs : list Field) :
  filter (λ item, f_name item = n) fs ≠ [] ↔ n ∈ map f_name fs.
Proof.
  induction fs as [|f fs IH]; simpl.
  - rewrite elem_of_nil. tauto.
  - rewrite filter_cons, elem_of_cons. case_decide as Hn.
    + split; [intros _; by left|done].
    + rewrite IH. split; [tauto|]. intros [->|?]; tauto.
Qed.

Lemma add_to_set_field_elem (fld f : Field) (d : CmdbObject) :
  f ∈ fields (objects_routes.add_to_set_field fld d) ↔ f ∈ fields d ∨ f = fld.
Proof.
  unfold objects_routes.add_to_set_field. simpl. case_decide as Hin.
  - split; [tauto|]. intros [?| ->]; done.
  - rewrite elem_of_app, list_elem_of_singleton. tauto.
Qed.

Lemma add_to_set_field_ids (fld : Field) (d : CmdbObject) :
  public_id (objects_routes.add_to_set_field fld d) = public_id d ∧
  type_id (objects_routes.add_to_set_field fld d) = type_id d.
Proof. done. Qed.

Lemma filled_inner (obj : CmdbObject) (tfs : list TypeField) (d : CmdbObject) :
  let d' :=
    foldl (λ d1 tf,
             if bool_decide (filter (λ item, f_name item = tf_name tf) (fields obj) ≠ [])
             then d1
             else Effects.doc_update (public_id obj)
                    (objects_routes.add_to_set_field (Effects.default_field tf)) d1)
          d tfs in
  public_id d' = public_id d ∧ type_id d' = type_id d ∧
  ∀ f, f ∈ fields d' ↔
       f ∈ fields d ∨
       (public_id d = public_id obj ∧
        ∃ tf, tf ∈ tfs ∧ (tf_name tf ∉ map f_name (fields obj)) ∧ f = Effects.default_field tf).
Proof.
  revert d. induction tfs as [|tf tfs IH]; intros d; simpl.
  - split; [done|]. split; [done|]. intros f. split; [tauto|].
    intros [?|[_ (tf & ?%elem_of_nil & _)]]; tauto.
  - pose proof (has_field_named (tf_name tf) (fields obj)) as Hnamed.
    case_bool_decide as Hhas.
    + apply Hnamed in Hhas. clear Hnamed.
      destruct (IH d) as (Hp & Ht & Hf). split; [done|]. split; [done|].
      intros f. rewrite Hf. split.
      * intros [?|[Hid (tf' & Htf' & Hn & ->)]]; [tauto|]. right. split; [done|].
        exists tf'. rewrite elem_of_cons. tauto.
      * intros [?|[Hid (tf' & [->|Htf']%elem_of_cons & Hn & ->)]]; [tauto|tauto|].
        right. split; [done|]. by exists tf'.
    + assert (tf_name tf ∉ map f_name (fields obj)) as Hmiss by tauto.
      clear Hnamed Hhas.
      destruct (IH (Effects.doc_update (public_id obj)
                      (objects_routes.add_to_set_field (Effects.default_field tf)) d))
        as (Hp & Ht & Hf).
      unfold Effects.doc_update in *.
      destruct (decide (public_id d = public_id obj)) as [Hid|Hid].
      * destruct (add_to_set_field_ids (Effects.default_field tf) d) as [Hp0 Ht0].
        rewrite Hp0 in Hp, Hf. rewrite Ht0 in Ht.
        split; [done|]. split; [done|]. intros f. rewrite Hf, add_to_set_field_elem.
        split.
        -- intros [[?| ->]|[_ (tf' & Htf' & Hn & ->)]]; [tauto| |].
           ++ right. split; [done|]. exists tf. rewrite elem_of_cons. tauto.
           ++ right. split; [done|]. exists tf'. rewrite elem_of_cons. tauto.
        -- intros [?|[_ (tf' & [->|Htf']%elem_of_cons & Hn & ->)]]; [tauto|tauto|].
           right. split; [done|]. by exists tf'.
      * split; [done|]. split; [done|]. intros f. rewrite Hf. tauto.
Qed.

Lemma filled_spec (tfs : list TypeField) (snapshot : list CmdbObject) (d : CmdbObject) :
  public_id (Effects.filled tfs snapshot d) = public_id d ∧
  type_id (Effects.filled tfs snapshot d) = type_id d ∧
  ∀ f, f ∈ fields (Effects.filled tfs snapshot d) ↔
       f ∈ fields d ∨
       ∃ obj tf, obj ∈ snapshot ∧ public_id obj = public_id d ∧ tf ∈ tfs ∧
                 (tf_name tf ∉ map f_name (fields obj)) ∧ f = Effects.default_field tf.
Proof.
  unfold Effects.filled. revert d. induction snapshot as [|obj snapshot IH]; intros d; simpl.
  - split; [done|]. split; [done|]. intros f. split; [tauto|].
    intros [?|(obj & tf & ?%elem_of_nil & _)]; tauto.
  - destruct (filled_inner obj tfs d) as (Hp & Ht & Hf). simpl in Hp, Ht, Hf.
    match goal with
    | |- context [foldl _ (foldl ?g d tfs) snapshot] =>
        destruct (IH (foldl g d tfs)) as (Hp' & Ht' & Hf')
    end.
    split; [congruence|]. split; [congruence|].
    intros f. rewrite Hf', Hf, Hp. split.
    + intros [[?|[Hid (tf & Htf & Hn & ->)]]|(obj' & tf & Hobj' & Hid & Htf & Hn & ->)].
      * by left.
      * right. exists obj, tf. rewrite elem_of_cons. split; [by left|]. by repeat split.
      * right. exists obj', tf. rewrite elem_of_cons. split; [by right|]. by repeat split.
    + intros [?|(obj' & tf & [->|Hobj']%elem_of_cons & Hid & Htf & Hn & ->)].
      * tauto.
      * left. right. split; [done|]. by exists tf.
      * right. by exists obj', tf.
Qed.

Lemma update_many_run {R} (id : Z) (upd : CmdbObject → CmdbObject) (w : World) :
  manager.update_many (R:=R) id upd w = (Return tt, Effects.update_many_effect id upd w).
Proof. reflexivity. Qed.

Lemma update_unstructured_objects_run (tid : Z) (w : World) (t : TypeModel) :
  find_type tid w = Some t →
  let snapshot1 :=
    merge_sort by_public_id (filter (λ o, type_id o = tid) (objects w)) in
  let snapshot2 :=
    merge_sort by_public_id
      (filter (λ o, type_id o = tid)
              (map (Effects.pulled (type_fields t) snapshot1) (objects w))) in
  ∃ w',
    run_route (objects_routes.update_unstructured_objects tid) w
      = (make_response [], w') ∧
    objects w' = map (λ d, Effects.filled (type_fields t) snapshot2
                             (Effects.pulled (type_fields t) snapshot1 d))
                     (objects w).
Proof.
  intros Ht snapshot1 snapshot2.
  unfold run_route, objects_routes.update_unstructured_objects.
  set (pass1 := λ (obj : CmdbObject) (w0 : World),
         foldl (λ w1 n, Effects.update_many_effect (public_id obj) (objects_routes.pull_field n) w1)
               w0 (objects_routes.removed_type_fields (type_fields t) obj)).
  set (pass2 := λ (obj : CmdbObject) (w0 : World),
         foldl (λ w1 tf,
                  if bool_decide (filter (λ item, f_name item = tf_name tf) (fields obj) ≠ [])
                  then w1
                  else Effects.update_many_effect (public_id obj)
                         (objects_routes.add_to_set_field (Effects.default_field tf)) w1)
               w0 (type_fields t)).
  set (w1 := foldl (λ w0 obj, pass1 obj w0)
                   (emit (EvFindMany ObjectsC) (emit (EvFindOne TypesC) w)) snapshot1).
  assert (objects w1 = map (Effects.pulled (type_fields t) snapshot1) (objects w)) as Hobjs1.
  { unfold w1. rewrite (foldl_objects_map pass1
      (λ obj d, foldl (λ d1 n, Effects.doc_update (public_id obj) (objects_routes.pull_field n) d1)
                      d (objects_routes.removed_type_fields (type_fields t) obj))).
    - reflexivity.
    - intros obj w0. unfold pass1.
      by rewrite (foldl_objects_map _
        (λ n d1, Effects.doc_update (public_id obj) (objects_routes.pull_field n) d1)). }
  set (w2 := foldl (λ w0 obj, pass2 obj w0) (emit (EvFindMany ObjectsC) w1) snapshot2).
  exists w2. split.
  - erewrite try_except_Return; [reflexivity|].
    unfold type_manager.get.
    unfold bind at 1. unfold bind at 1. unfold modify at 1.
    unfold bind at 1. unfold world at 1.
    change (find_type tid (emit (EvFindOne TypesC) w)) with (find_type tid w).
    rewrite Ht. unfold ret at 1.
    unfold manager.iterate at 1.
    unfold bind at 1. unfold bind at 1. unfold modify at 1.
    unfold bind at 1. unfold world at 1. unfold ret at 1.
    cbn [objects emit]. fold snapshot1.
    erewrite bind_Return; cycle 1.
    { apply (for_each_foldl snapshot1 _ pass1). intros obj w0 _.
      apply for_each_foldl. intros n w3 _. apply update_many_run. }
    fold w1.
    unfold manager.iterate at 1.
    unfold bind at 1. unfold bind at 1. unfold modify at 1.
    unfold bind at 1. unfold world at 1. unfold ret at 1.
    cbn [objects emit]. rewrite Hobjs1. fold snapshot2.
    erewrite bind_Return; cycle 1.
    { apply (for_each_foldl snapshot2 _ pass2). intros obj w0 _.
      apply for_each_foldl. intros tf w3 _.
      case_bool_decide; [reflexivity|apply update_many_run]. }
    reflexivity.
  - unfold w2. rewrite (foldl_objects_map pass2
      (λ obj d, foldl (λ d1 tf,
                  if bool_decide (filter (λ item, f_name item = tf_name tf) (fields obj) ≠ [])
                  then d1
                  else Effects.doc_update (public_id obj)
                         (objects_routes.add_to_set_field (Effects.default_field tf)) d1)
                d (type_fields t))).
    + cbn [objects emit]. rewrite Hobjs1, map_map. reflexivity.
    + intros obj w0. unfold pass2.
      rewrite (foldl_objects_map
        (λ tf w1, if bool_decide (filter (λ item, f_name item = tf_name tf) (fields obj) ≠ [])
                  then w1
                  else Effects.update_many_effect (public_id obj)
                         (objects_routes.add_to_set_field (Effects.default_field tf)) w1)
        (λ tf d1, if bool_decide (filter (λ item, f_name item = tf_name tf) (fields obj) ≠ [])
                  then d1
                  else Effects.doc_update (public_id obj)
                         (objects_routes.add_to_set_field (Effects.default_field tf)) d1)).
      * reflexivity.
      * intros tf w3. case_bool_decide; [by rewrite map_id|reflexivity].
Qed.

(** X10. The repair on a type with at least one field: every stored object of
    the type ends with the field names of the type, keeps its fields named in
    the type, and gains only default fields of the type. *)
Theorem repair_structures_objects (tid : Z) (w : World) (t : TypeModel) :
  find_type tid w = Some t →
  type_fields t ≠ [] →
  ∃ w' repaired,
    run_route (objects_routes.update_unstructured_objects tid) w
      = (make_response [], w') ∧
    objects w' = map repaired (objects w) ∧
    ∀ o, o ∈ objects w → type_id o = tid →
      public_id (repaired o) = public_id o ∧
      type_id (repaired o) = tid ∧
      Spec.structured t (repaired o) ∧
      (∀ f, f ∈ fields o → f_name f ∈ map tf_name (type_fields t) →
            f ∈ fields (repaired o)) ∧
      (∀ f, f ∈ fields (repaired o) →
            f ∈ fields o ∨ ∃ tf, tf ∈ type_fields t ∧ f = Effects.default_field tf).
Proof.
  intros Ht Hne.
  destruct (update_unstructured_objects_run tid w t Ht) as (w' & Hrun & Hobjs).
  simpl in Hobjs.
  set (snapshot1 := merge_sort by_public_id (filter (λ o, type_id o = tid) (objects w)))
    in *.
  set (snapshot2 := merge_sort by_public_id
         (filter (λ o, type_id o = tid)
                 (map (Effects.pulled (type_fields t) snapshot1) (objects w)))) in *.
  exists w', (λ d, Effects.filled (type_fields t) snapshot2 (Effects.pulled (type_fields t) snapshot1 d)).
  split; [exact Hrun|]. split; [exact Hobjs|].
  intros o Ho Htid.
  destruct (pulled_spec (type_fields t) snapshot1 o) as (Hp1 & Ht1 & Hf1).
  destruct (filled_spec (type_fields t) snapshot2 (Effects.pulled (type_fields t) snapshot1 o))
    as (Hp2 & Ht2 & Hf2).
  assert (o ∈ snapshot1) as Hsnap1.
  { unfold snapshot1. rewrite merge_sort_Permutation, list_elem_of_filter. done. }
  assert (Effects.pulled (type_fields t) snapshot1 o ∈ snapshot2) as Hsnap2.
  { unfold snapshot2. rewrite merge_sort_Permutation, list_elem_of_filter.
    split; [congruence|]. apply elem_of_map_iff. by exists o. }
  assert (∀ f, f ∈ fields (Effects.pulled (type_fields t) snapshot1 o) →
               f_name f ∈ map tf_name (type_fields t)) as Hclean.
  { intros f [Hin Hkept]%Hf1.
    destruct (decide (f_name f ∈ map tf_name (type_fields t))) as [|Hnot]; [done|].
    exfalso. apply (Hkept o Hsnap1 eq_refl).
    apply removed_type_fields_elem. split; [|done].
    apply elem_of_map_iff. by exists f. }
  split; [congruence|]. split; [congruence|]. split; [|split].
  - intros n. split.
    + intros (f & <- & Hin)%elem_of_map_iff.
      apply Hf2 in Hin as [Hin|(obj & tf & _ & _ & Htf & _ & ->)].
      * by apply Hclean.
      * apply elem_of_map_iff. by exists tf.
    + intros (tf & <- & Htf)%elem_of_map_iff.
      destruct (decide (tf_name tf ∈
                  map f_name (fields (Effects.pulled (type_fields t) snapshot1 o))))
        as [Hhas|Hmiss].
      * apply elem_of_map_iff in Hhas as (f & Hname & Hin).
        apply elem_of_map_iff. exists f. split; [done|]. apply Hf2. by left.
      * apply elem_of_map_iff. exists (Effects.default_field tf). split; [done|].
        apply Hf2. right.
        exists (Effects.pulled (type_fields t) snapshot1 o), tf. done.
  - intros f Hin Hname. apply Hf2. left. apply Hf1. split; [done|].
    intros obj _ _ Hrem%removed_type_fields_elem. tauto.
  - intros f [Hin|(obj & tf & _ & _ & Htf & _ & ->)]%Hf2.
    + left. by apply Hf1 in Hin as [? _].
    + right. by exists tf.
Qed.

Lemma repair_structures_objects_witness :
  find_type 4 Examples.drifted_world = Some Examples.type_ab ∧
  type_fields Examples.type_ab ≠ [] ∧
  ∃ w' repaired,
    run_route (objects_routes.update_unstructured_objects 4) Examples.drifted_world
      = (make_response [], w') ∧
    objects w' = map repaired (objects Examples.drifted_world) ∧
    ∀ o, o ∈ objects Examples.drifted_world → type_id o = 4 →
      public_id (repaired o) = public_id o ∧
      type_id (repaired o) = 4 ∧
      Spec.structured Examples.type_ab (repaired o) ∧
      (∀ f, f ∈ fields o → f_name f ∈ map tf_name (type_fields Examples.type_ab) →
            f ∈ fields (repaired o)) ∧
      (∀ f, f ∈ fields (repaired o) →
            f ∈ fields o ∨
            ∃ tf, tf ∈ type_fields Examples.type_ab ∧ f = Effects.default_field tf).
Proof.
  split; [reflexivity|]. split; [done|].
  apply (repair_structures_objects 4 Examples.drifted_world Examples.type_ab);
    [reflexivity|done].
Defined.

Example repair_run :
  objects (run_route (objects_routes.update_unstructured_objects 4)
                     Examples.drifted_world).2
  = [mkObject 1 4 "1.0.0" true [mkField "b" VNone; mkField "a" VNone];
     mkObject 2 4 "1.0.0" true [mkField "a" VNone; mkField "b" VNone]].
Proof. by vm_compute. Qed.

(** C7, at the failing input.  The type has no field left and the object
    still has the field "a": the repair completes, the object keeps its
    field, and it is still reported as unstructured. *)
Theorem repair_keeps_fields_of_fieldless_type :
  let res := run_route (objects_routes.update_unstructured_objects 1)
                       Examples.fieldless_world in
  res.1 = make_response [] ∧
  objects res.2 = [Examples.stale_object] ∧
  map f_name (fields Examples.stale_object) = ["a"] ∧
  map tf_name (type_fields (mkType 1 [])) = [] ∧
  (run_route (objects_routes.get_unstructured_objects 1) res.2).1
    = make_response [Examples.stale_object].
Proof. by vm_compute. Qed.

(** * Further properties of the routes and the managers *)

(** ** Parts of the world a computation leaves alone *)

Lemma preserves_ret {R A B} (proj : World → B) (a : A) : preserves proj (ret (R:=R) a).
Proof. done. Qed.

Lemma preserves_raise {R A B} (proj : World → B) (e : Exn) :
  preserves proj (raise (R:=R) (A:=A) e).
Proof. done. Qed.

Lemma preserves_exit {R A B} (proj : World → B) (r : Response R) :
  preserves proj (exit (A:=A) r).
Proof. done. Qed.

Lemma preserves_world {R B} (proj : World → B) : preserves proj (world (R:=R)).
Proof. done. Qed.

Lemma preserves_modify {R B} (proj : World → B) (f : World → World) :
  (∀ w, proj (f w) = proj w) → preserves proj (modify (R:=R) f).
Proof. intros Hf w. apply Hf. Qed.

Lemma preserves_bind {R A A' B} (proj : World → B) (m : M R A) (k : A → M R A') :
  preserves proj m → (∀ a, preserves proj (k a)) → preserves proj (bind m k).
Proof.
  intros Hm Hk w. unfold bind. specialize (Hm w).
  destruct (m w) as [[a|e|r] w1]; simpl in *; [|done..].
  by rewrite Hk.
Qed.

Lemma preserves_try_except {R A B} (proj : World → B) (m : M R A)
    (h : Exn → option (M R A)) :
  preserves proj m → (∀ e k, h e = Some k → preserves proj k) →
  preserves proj (try_except m h).
Proof.
  intros Hm Hh w. unfold try_except. specialize (Hm w).
  destruct (m w) as [[a|e|r] w1]; simpl in *; [done| |done].
  destruct (h e) as [k|] eqn:He; [|done]. by rewrite (Hh e k He).
Qed.

Lemma preserves_for_each {R A B} (proj : World → B) (l : list A) (body : A → M R unit) :
  (∀ x, preserves proj (body x)) → preserves proj (for_each l body).
Proof.
  intros Hbody. induction l as [|x l IH]; [done|].
  simpl. apply preserves_bind; [apply Hbody|done].
Qed.

Lemma preserves_for_fold {R A C B} (proj : World → B) (l : list A) (acc : C)
    (body : C → A → M R C) :
  (∀ c x, preserves proj (body c x)) → preserves proj (for_fold l acc body).
Proof.
  intros Hbody. revert acc. induction l as [|x l IH]; intros acc; [done|].
  simpl. apply preserves_bind; [apply Hbody|done].
Qed.

Lemma preserves_run_route {R B} (proj : World → B) (m : M R (Response R)) :
  preserves proj m → ∀ w, proj (run_route m w).2 = proj w.
Proof.
  intros Hm w. unfold run_route. specialize (Hm w).
  by destruct (m w) as [[a|e|r] w1].
Qed.

Ltac preserves_step :=
  first
    [ apply preserves_ret | apply preserves_raise | apply preserves_exit
    | apply preserves_world
    | apply preserves_modify; intros ?; reflexivity
    | apply preserves_bind; [|intros ?]
    | apply preserves_for_each; intros ?
    | apply preserves_for_fold; intros ? ?
    | apply preserves_try_except;
        [|let e := fresh in let k := fresh in let H := fresh in
          intros e k H; destruct e; simplify_eq/= ]
    | progress case_match ].

(** ** Lookups in lists of documents *)

Lemma foldl_keeps {A B} (P : B → Prop) (f : B → A → B) (l : list A) (b : B) :
  (∀ b0 x, x ∈ l → P b0 → P (f b0 x)) → P b → P (foldl f b l).
Proof.
  revert b. induction l as [|x l IH]; intros b Hf Hb; [done|].
  simpl. apply IH.
  - intros b0 y Hy. apply Hf. by right.
  - apply Hf; [by left|done].
Qed.

Lemma NoDup_map_filter {A B} (f : A → B) (P : A → Prop) `{∀ x, Decision (P x)}
    (l : list A) :
  NoDup (map f l) → NoDup (map f (filter P l)).
Proof.
  induction l as [|x l IH]; [done|].
  simpl. intros [Hx Hnd]%NoDup_cons. rewrite filter_cons. case_decide; [|by apply IH].
  simpl. apply NoDup_cons. split; [|by apply IH].
  intros (y & Hy & [_ Hin]%list_elem_of_filter)%elem_of_map_iff.
  apply Hx, elem_of_map_iff. by exists y.
Qed.

Lemma NoDup_map_eq {A B} (f : A → B) (l : list A) (x y : A) :
  NoDup (map f l) → x ∈ l → y ∈ l → f x = f y → x = y.
Proof.
  induction l as [|z l IH]; [by intros _ ?%elem_of_nil|].
  simpl. intros [Hz Hnd]%NoDup_cons [->|Hx]%elem_of_cons [->|Hy]%elem_of_cons Heq.
  - done.
  - exfalso. apply Hz, elem_of_map_iff. by exists y.
  - exfalso. apply Hz, elem_of_map_iff. by exists x.
  - by apply IH.
Qed.

Lemma filter_none {A} (P : A → Prop) `{∀ x, Decision (P x)} (l : list A) :
  (∀ x, x ∈ l → ¬ P x) → filter P l = [].
Proof.
  induction l as [|x l IH]; intros Hall; [done|].
  rewrite filter_cons, decide_False by (apply Hall; by left).
  apply IH. intros y Hy. apply Hall. by right.
Qed.

Lemma find_object_replaced (id : Z) (o data : CmdbObject) (l : list CmdbObject) :
  public_id data = id →
  List.find (λ x, bool_decide (public_id x = id)) l = Some o →
  List.find (λ x, bool_decide (public_id x = id))
            (map (λ x, if decide (public_id x = id) then data else x) l) = Some data.
Proof.
  intros Hid. induction l as [|x l IH]; simpl; [done|].
  case_bool_decide as Hx; case_decide; try done; simpl.
  - intros _. by rewrite bool_decide_eq_true_2.
  - by rewrite (bool_decide_eq_false_2 _ Hx).
Qed.

Lemma find_after_replace (i j : Z) (data o : CmdbObject) (l : list CmdbObject) :
  public_id data = i → i ≠ j →
  List.find (λ x, bool_decide (public_id x = j)) l = Some o →
  List.find (λ x, bool_decide (public_id x = j))
            (map (λ x, if decide (public_id x = i) then data else x) l) = Some o.
Proof.
  intros Hdata Hne. induction l as [|x l IH]; simpl; [done|].
  case_bool_decide as Hx.
  - intros [= ->]. rewrite decide_False by congruence.
    by rewrite bool_decide_eq_true_2.
  - intros Hfind. case_decide.
    + rewrite bool_decide_eq_false_2 by congruence. by apply IH.
    + rewrite bool_decide_eq_false_2 by done. by apply IH.
Qed.

(** Looking up [j] among the documents left after those of [id] have been
    removed, for [j ≠ id], is looking up [j] among all documents. *)
Lemma find_filter_other {A} (key : A → Z) (id j : Z) (l : list A) :
  j ≠ id →
  List.find (λ x, bool_decide (key x = j)) (filter (λ x, key x ≠ id) l)
  = List.find (λ x, bool_decide (key x = j)) l.
Proof.
  intros Hne. induction l as [|x l IH]; [done|].
  rewrite filter_cons. case_decide as Hx; simpl.
  - by rewrite IH.
  - rewrite bool_decide_eq_false_2 by congruence. exact IH.
Qed.

Lemma find_filter_same {A} (key : A → Z) (id : Z) (l : list A) :
  List.find (λ x, bool_decide (key x = id)) (filter (λ x, key x ≠ id) l) = None.
Proof.
  induction l as [|x l IH]; [done|].
  rewrite filter_cons. case_decide as Hx; simpl; [|done].
  by rewrite bool_decide_eq_false_2.
Qed.

Lemma find_object_fresh (id : Z) (l : list CmdbObject) (o : CmdbObject) :
  id ∉ map public_id l → public_id o = id →
  List.find (λ x, bool_decide (public_id x = id)) (l ++ [o]) = Some o.
Proof.
  intros Hfresh Hid. induction l as [|x l IH]; simpl.
  - by rewrite bool_decide_eq_true_2.
  - simpl in Hfresh. apply not_elem_of_cons in Hfresh as [Hx Hl].
    rewrite bool_decide_eq_false_2 by done. by apply IH.
Qed.

Lemma get_object_found {R} (id : Z) (w : World) (o : CmdbObject) :
  find_object id w = Some o →
  object_manager.get_object (R:=R) id w = (Return o, emit (EvFindOne ObjectsC) w).
Proof.
  intros Ho. unfold object_manager.get_object. unfold_monad.
  change (find_object id (emit (EvFindOne ObjectsC) w)) with (find_object id w).
  by rewrite Ho.
Qed.

Lemma get_object_missing {R} (id : Z) (w : World) :
  find_object id w = None →
  object_manager.get_object (R:=R) id w
  = (Raise ObjectManagerGetError, emit (EvFindOne ObjectsC) w).
Proof.
  intros Ho. unfold object_manager.get_object. unfold_monad.
  change (find_object id (emit (EvFindOne ObjectsC) w)) with (find_object id w).
  by rewrite Ho.
Qed.

(** X1. An insert request that names a public id already in use is answered with
    status 400 after the one lookup: nothing is stored and nothing is logged. *)
Theorem insert_object_refuses_used_id (E : Env) (data : objects_routes.InsertData)
    (w : World) (id : Z) (o : CmdbObject) :
  objects_routes.i_public_id data = Some id →
  find_object id w = Some o →
  run_route (objects_routes.insert_object E data) w
  = (abort 400, emit (EvFindOne ObjectsC) w).
Proof.
  intros Hid Ho.
  unfold run_route, objects_routes.insert_object, object_manager.get_object.
  rewrite Hid. unfold_monad.
  change (find_object id (emit (EvFindOne ObjectsC) w)) with (find_object id w).
  by rewrite Ho.
Qed.

Lemma insert_object_refuses_used_id_witness :
  run_route (objects_routes.insert_object Examples.nominal
               (objects_routes.mkInsertData (Some 5) (Some 1) None None []))
            Examples.located_world
  = (abort 400, emit (EvFindOne ObjectsC) Examples.located_world).
Proof.
  apply (insert_object_refuses_used_id Examples.nominal _ Examples.located_world 5
           (mkObject 5 1 "1.0.0" true [])); reflexivity.
Defined.

(** X2. The insert route stores nothing.  Whatever the request, the
    environment and the store, the route answers 400 and leaves objects,
    types and logs as they were: a request that names an identifier in use
    is refused, and for every other one the call
    [object_manager.insert_object(new_object_data, user=...,
    permission=...)] raises [TypeError], which the route answers with
    [abort(400)]. *)
Theorem insert_object_answers_400 (E : Env) (data : objects_routes.InsertData)
    (w : World) :
  let res := run_route (objects_routes.insert_object E data) w in
  res.1 = abort 400 ∧
  objects res.2 = objects w ∧
  types res.2 = types w ∧
  logs res.2 = logs w.
Proof.
  unfold objects_routes.insert_object, objects_routes.get_new_id,
    object_manager.get_object, call.
  change (binds object_manager.insert_object_parameters 1 ["user"; "permission"])
    with false.
  unfold_monad. simpl.
  repeat (case_match; simplify_eq/=); done.
Qed.

(** X3. [insert_object(self, data)], called with the data alone.  For an
    identifier no stored object has and data that name a type, the method
    hands back the identifier, the store has gained exactly the object built
    from the data, with the version the data carry, and [get_object] on the
    identifier hands that object back. *)
Theorem insert_object_then_get (R : Type) (id tid : Z) (data_active : bool)
    (data_version : string) (data_fields : list Field) (w : World) :
  id ∉ map public_id (objects w) →
  let new_object := mkObject id tid data_version data_active data_fields in
  ∃ w',
    call object_manager.insert_object_parameters 1 []
      (object_manager.insert_object (R:=R) id (Some tid) data_active data_version
         data_fields) w
    = (Return id, w') ∧
    objects w' = (objects w ++ [new_object])%list ∧
    object_manager.get_object (R:=R) id w'
    = (Return new_object, emit (EvFindOne ObjectsC) w').
Proof.
  intros Hfresh new_object.
  rewrite call_bound by reflexivity.
  unfold object_manager.insert_object. unfold_monad.
  rewrite bool_decide_eq_false_2 by done.
  eexists. split; [reflexivity|]. split; [reflexivity|].
  apply get_object_found. unfold find_object. cbn [objects emit set_objects].
  by apply find_object_fresh.
Qed.

Lemma insert_object_then_get_witness :
  ∃ w',
    call object_manager.insert_object_parameters 1 []
      (object_manager.insert_object (R:=Z) 7 (Some 1) true "1.0.0" [])
      Examples.located_world
    = (Return 7, w') ∧
    objects w' = (objects Examples.located_world ++ [mkObject 7 1 "1.0.0" true []])%list.
Proof.
  destruct (insert_object_then_get Z 7 1 true "1.0.0" [] Examples.located_world)
    as (w' & Hrun & Hobjs & _).
  - apply (bool_decide_unpack _). by vm_compute.
  - exists w'. by split.
Defined.

(** ** Object update, once more *)

(** One pass of the update loop ends in exactly one new entry, among the
    results or among the failures. *)
Lemma update_one_one_entry (E : Env) (data : objects_routes.UpdateData)
    (results : list CmdbObject) (failed : list objects_routes.ResponseFailedMessage)
    (obj_id : Z) (w : World) :
  acl_denied E obj_id = false →
  (∀ o t e, CmdbRender E o t = inl e → e ∉ [AccessDeniedError; TypeError; KeyError]) →
  ∃ w',
    (∃ new_data,
       objects_routes.update_one E data (results, failed) obj_id w
         = (Return ((results ++ [new_data])%list, failed), w') ∧
       public_id new_data = obj_id) ∨
    (∃ status,
       objects_routes.update_one E data (results, failed) obj_id w
         = (Return (results, (failed ++ [objects_routes.mkFailed status obj_id])%list), w')).
Proof.
  intros Hacl Hrender.
  unfold objects_routes.update_one, manager.get, type_manager.get,
    objects_routes.render, manager.update, objects_routes.generate_log,
    logs_manager.insert_log.
  unfold_monad. simpl.
  change (find_object obj_id (emit (EvFindOne ObjectsC) w)) with (find_object obj_id w).
  destruct (find_object obj_id w) as [current|]; simpl.
  2:{ eexists. right. by eexists. }
  rewrite Hacl. simpl.
  change (find_type (type_id current) (emit (EvFindOne TypesC) (emit (EvFindOne ObjectsC) w)))
    with (find_type (type_id current) w).
  destruct (find_type (type_id current) w) as [t|]; simpl.
  2:{ eexists. right. by eexists. }
  destruct (CmdbRender E current t) as [e|rendered] eqn:Hr; simpl.
  - specialize (Hrender _ _ _ Hr).
    destruct e; simpl; try (eexists; right; by eexists).
    all: exfalso; apply Hrender; apply (bool_decide_unpack _); by vm_compute.
  - destruct (log_fault E obj_id); simpl; (eexists; left; by eexists).
Qed.

(** X5. The update route answers for every identifier it was given.  When no
    access is refused and a failing render raises a CMDB error other than
    the ones the route lets through, the route ends with [results] and
    [failed], and every identifier of the request is in exactly one of the
    two: a failure on one object does not end the batch. *)
Theorem update_object_answers_every_id (E : Env) (public_id_ : Z) (objectIDs : list Z)
    (data : objects_routes.UpdateData) (w : World) :
  (∀ i, acl_denied E i = false) →
  (∀ o t e, CmdbRender E o t = inl e → e ∉ [AccessDeniedError; TypeError; KeyError]) →
  ∃ results failed w',
    run_route (objects_routes.update_object E public_id_ objectIDs data) w
      = (make_response (results, failed), w') ∧
    (map public_id results ++ map objects_routes.failed_public_id failed)%list
      ≡ₚ (if bool_decide (0 < length objectIDs)%nat then objectIDs else [public_id_]).
Proof.
  intros Hacl Hrender.
  unfold run_route, objects_routes.update_object.
  set (object_ids := if bool_decide (0 < length objectIDs)%nat then objectIDs
                     else [public_id_]).
  destruct (for_fold_invariant
              (λ visited (acc : objects_routes.UpdateMulti) (_ : World),
                 (map public_id acc.1 ++ map objects_routes.failed_public_id acc.2)%list
                   ≡ₚ visited)
              object_ids (objects_routes.update_one E data) ([], []) w)
    as ([results failed] & w' & Hrun & HP); [done| |].
  - intros visited x [results failed] w0 _ HP. simpl in HP.
    destruct (update_one_one_entry E data results failed x w0 (Hacl x) Hrender)
      as (w1 & [(new_data & Hrun & Hid)|(status & Hrun)]).
    + eexists _, w1. split; [exact Hrun|]. simpl.
      rewrite map_app. simpl. rewrite Hid, <- HP.
      rewrite <- !app_assoc. apply Permutation_app_head, Permutation_app_comm.
    + eexists _, w1. split; [exact Hrun|]. simpl.
      rewrite map_app. simpl. by rewrite app_assoc, HP.
  - exists results, failed, w'.
    erewrite bind_Return; [|exact Hrun]. by unfold ret.
Qed.

Lemma update_object_answers_every_id_witness :
  ∃ results failed w',
    run_route (objects_routes.update_object Examples.nominal 5 [9; 5; 8]
                 Examples.update_rack_a) Examples.two_racks_world
      = (make_response (results, failed), w') ∧
    (map public_id results ++ map objects_routes.failed_public_id failed)%list
      ≡ₚ [9; 5; 8].
Proof.
  apply (update_object_answers_every_id Examples.nominal 5 [9; 5; 8]
           Examples.update_rack_a Examples.two_racks_world).
  - reflexivity.
  - intros o t e He. vm_compute in He. discriminate He.
Defined.

(** X6. An update of an object that is not stored is answered with an empty
    [results] and one entry in [failed], of status 404, after the one
    lookup; nothing is written. *)
Theorem update_object_missing_is_reported (E : Env) (id : Z)
    (data : objects_routes.UpdateData) (w : World) :
  find_object id w = None →
  run_route (objects_routes.update_object E id [] data) w
  = (make_response ([], [objects_routes.mkFailed 404 id]), emit (EvFindOne ObjectsC) w).
Proof.
  intros Ho.
  unfold run_route, objects_routes.update_object.
  assert (bool_decide (0 < length (@nil Z))%nat = false) as -> by done.
  cbn [for_fold].
  unfold objects_routes.update_one, manager.get.
  unfold_monad.
  change (find_object id (emit (EvFindOne ObjectsC) w)) with (find_object id w).
  by rewrite Ho.
Qed.

Lemma update_object_missing_is_reported_witness :
  run_route (objects_routes.update_object Examples.nominal 9 [] Examples.update_rack_a)
            Examples.two_racks_world
  = (make_response ([], [objects_routes.mkFailed 404 9]),
     emit (EvFindOne ObjectsC) Examples.two_racks_world).
Proof.
  apply (update_object_missing_is_reported Examples.nominal 9 Examples.update_rack_a
           Examples.two_racks_world).
  reflexivity.
Defined.
(** One pass of the update loop on an object that is stored, readable and
    rendered: the document is replaced, nothing else is written to the
    objects. *)
Lemma update_one_replaces (E : Env) (data : objects_routes.UpdateData)
    (results : list CmdbObject) (failed : list objects_routes.ResponseFailedMessage)
    (obj_id : Z) (w : World) (current : CmdbObject) (t : TypeModel)
    (rendered : RenderResult) :
  find_object obj_id w = Some current →
  acl_denied E obj_id = false →
  find_type (type_id current) w = Some t →
  CmdbRender E current t = inr rendered →
  ∃ new_data w',
    objects_routes.update_one E data (results, failed) obj_id w
      = (Return ((results ++ [new_data])%list, failed), w') ∧
    public_id new_data = obj_id ∧
    objects w' = map (λ o, if decide (public_id o = obj_id) then new_data else o)
                     (objects w).
Proof.
  intros Hobj Hacl Htype Hrender.
  unfold objects_routes.update_one, manager.get, type_manager.get,
    objects_routes.render, manager.update, objects_routes.generate_log,
    logs_manager.insert_log.
  unfold_monad. simpl.
  change (find_object obj_id (emit (EvFindOne ObjectsC) w)) with (find_object obj_id w).
  rewrite Hobj, Hacl. simpl.
  change (find_type (type_id current) (emit (EvFindOne TypesC) (emit (EvFindOne ObjectsC) w)))
    with (find_type (type_id current) w).
  rewrite Htype. simpl. rewrite Hrender. simpl.
  destruct (log_fault E obj_id); simpl;
    (eexists _, _; split; [reflexivity|]; by simpl).
Qed.

Lemma update_one_denied (E : Env) (data : objects_routes.UpdateData)
    (acc : objects_routes.UpdateMulti) (obj_id : Z) (w : World) (o : CmdbObject) :
  find_object obj_id w = Some o →
  acl_denied E obj_id = true →
  objects_routes.update_one E data acc obj_id w
  = (Exit (abort 403), emit (EvFindOne ObjectsC) w).
Proof.
  intros Hobj Hacl. destruct acc as [results failed].
  unfold objects_routes.update_one, manager.get. unfold_monad.
  change (find_object obj_id (emit (EvFindOne ObjectsC) w)) with (find_object obj_id w).
  by rewrite Hobj, Hacl.
Qed.

(** X7. A batch update is not undone when it is refused midway.  With two
    identifiers, the first updatable and the second refused by the access
    control, the route answers 403 and the update of the first object stays
    in the store. *)
Theorem update_object_denied_keeps_earlier_update (E : Env) (public_id_ i j : Z)
    (data : objects_routes.UpdateData) (w : World)
    (current other : CmdbObject) (t : TypeModel) (rendered : RenderResult) :
  find_object i w = Some current →
  acl_denied E i = false →
  find_type (type_id current) w = Some t →
  CmdbRender E current t = inr rendered →
  find_object j w = Some other →
  acl_denied E j = true →
  ∃ new_data w',
    run_route (objects_routes.update_object E public_id_ [i; j] data) w = (abort 403, w') ∧
    public_id new_data = i ∧
    objects w' = map (λ o, if decide (public_id o = i) then new_data else o) (objects w).
Proof.
  intros Hi Hacli Ht Hr Hj Haclj.
  assert (i ≠ j) as Hne by (intros ->; congruence).
  destruct (update_one_replaces E data [] [] i w current t rendered Hi Hacli Ht Hr)
    as (new_data & w1 & Hrun1 & Hid & Hobjs1).
  exists new_data, (emit (EvFindOne ObjectsC) w1).
  unfold run_route, objects_routes.update_object.
  assert (bool_decide (0 < length [i; j])%nat = true) as -> by done.
  cbn [for_fold].
  erewrite bind_Exit; [done|].
  erewrite bind_Return; [|exact Hrun1].
  erewrite bind_Exit; [done|].
  apply (update_one_denied E data _ j w1 other); [|done].
  unfold find_object in *. rewrite Hobjs1. by apply find_after_replace.
Qed.

Lemma update_object_denied_keeps_earlier_update_witness :
  let E := mkEnv (λ _, false) (λ o t, inr (mkRender (fields o) (version o)))
                 (λ _ o, o) (λ _ v, v) (λ _, false) (λ i, bool_decide (i = 6)) in
  ∃ new_data w',
    run_route (objects_routes.update_object E 5 [5; 6]
                 (objects_routes.mkUpdateData 1 None None (Some false) []))
              Examples.located_world = (abort 403, w') ∧
    public_id new_data = 5 ∧
    objects w' = [new_data; mkObject 6 1 "1.0.0" true []] ∧
    active new_data = false.
Proof.
  intros E.
  destruct (update_object_denied_keeps_earlier_update E 5 5 6
              (objects_routes.mkUpdateData 1 None None (Some false) [])
              Examples.located_world (mkObject 5 1 "1.0.0" true [])
              (mkObject 6 1 "1.0.0" true []) (mkType 1 []) (mkRender [] "1.0.0"))
    as (new_data & w' & Hrun & Hid & Hobjs); try reflexivity.
  exists new_data, w'. split; [exact Hrun|]. split; [exact Hid|].
  vm_compute in Hrun. injection Hrun as <-.
  vm_compute in Hobjs. injection Hobjs as <-. by vm_compute.
Defined.

(** X8. The state route writes the flag before it renders.  For a stored,
    accessible object whose active flag differs from the requested state,
    every stored document of the identifier becomes the object found with
    the flag set, all its other attributes, the version too, as they were,
    and this also when rendering then fails and the answer is 500. *)
Theorem update_object_state_persists (E : Env) (id : Z) (state : bool) (w : World)
    (o : CmdbObject) :
  find_object id w = Some o →
  acl_denied E id = false →
  active o ≠ state →
  let o' := objects_routes.set_active state o in
  ∃ r w',
    run_route (objects_routes.update_object_state E id (Some state)) w = (r, w') ∧
    objects w' = map (λ x, if decide (public_id x = id) then o' else x) (objects w) ∧
    (∀ t rr, find_type (type_id o) w = Some t → CmdbRender E o' t = inr rr →
       r = make_response (objects_routes.UpdateSingle o')) ∧
    (∀ t, find_type (type_id o) w = Some t → CmdbRender E o' t = inl RenderError →
       r = abort 500).
Proof.
  intros Ho Hacl Hne o'.
  unfold run_route, objects_routes.update_object_state.
  unfold bind at 1. unfold ret at 1.
  unfold bind at 1. unfold try_except at 1. unfold manager.get.
  unfold bind at 1. unfold modify at 1. unfold bind at 1. unfold world at 1.
  change (find_object id (emit (EvFindOne ObjectsC) w)) with (find_object id w).
  rewrite Ho, Hacl. unfold ret at 1.
  rewrite (bool_decide_eq_false_2 _ Hne).
  fold o'.
  unfold manager.update. rewrite Hacl.
  unfold objects_routes.render, objects_routes.generate_log, logs_manager.insert_log,
    type_manager.get.
  unfold_monad. unfold find_type in *. simpl.
  destruct (find _ (types w)) as [t|] eqn:Ht; simpl.
  - destruct (CmdbRender E o' t) as [e|rr] eqn:Hr; simpl.
    + destruct e; simpl; (eexists _, _; split; [reflexivity|]; simpl;
        split; [reflexivity|]; split; intros t' ?; intros; simplify_eq; congruence).
    + destruct (log_fault E id); simpl; (eexists _, _; split; [reflexivity|]; simpl;
        split; [reflexivity|]; split; intros t' ?; intros; simplify_eq; congruence).
  - eexists _, _; split; [reflexivity|]; simpl.
    split; [reflexivity|]. split; intros t' ?; intros; congruence.
Qed.

Lemma update_object_state_persists_witness :
  let o' := mkObject 5 1 "1.0.0" false [] in
  ∃ w',
    run_route (objects_routes.update_object_state Examples.nominal 5 (Some false))
              Examples.located_world
      = (make_response (objects_routes.UpdateSingle o'), w') ∧
    objects w' = [o'; mkObject 6 1 "1.0.0" true []].
Proof.
  intros o'.
  destruct (update_object_state_persists Examples.nominal 5 false Examples.located_world
              (mkObject 5 1 "1.0.0" true []))
    as (r & w' & Hrun & Hobjs & Hok & _); [reflexivity|reflexivity|done|].
  exists w'. split.
  - rewrite Hrun. f_equal. apply (Hok (mkType 1 []) (mkRender [] "1.0.0")); reflexivity.
  - rewrite Hobjs. by vm_compute.
Defined.

Lemma update_object_state_same (E : Env) (id : Z) (w : World) (o : CmdbObject) :
  find_object id w = Some o →
  acl_denied E id = false →
  run_route (objects_routes.update_object_state E id (Some (active o))) w
  = (make_response objects_routes.False_204, emit (EvFindOne ObjectsC) w).
Proof.
  intros Ho Hacl.
  unfold run_route, objects_routes.update_object_state, manager.get.
  unfold_monad.
  change (find_object id (emit (EvFindOne ObjectsC) w)) with (find_object id w).
  rewrite Ho, Hacl. by rewrite bool_decide_eq_true_2.
Qed.

(** X9. Setting the same state twice.  After a state change that was answered
    with the updated object, the same request is answered with
    [make_response(False, 204)] and makes one lookup only: no second write,
    no second log entry. *)
Theorem update_object_state_idempotent (E : Env) (id : Z) (state : bool) (w w1 : World)
    (o1 : CmdbObject) :
  run_route (objects_routes.update_object_state E id (Some state)) w
    = (make_response (objects_routes.UpdateSingle o1), w1) →
  run_route (objects_routes.update_object_state E id (Some state)) w1
    = (make_response objects_routes.False_204, emit (EvFindOne ObjectsC) w1).
Proof.
  intros Hrun.
  assert (∃ o, find_object id w1 = Some o ∧ active o = state ∧ acl_denied E id = false)
    as (o & Ho & <- & Hacl); [|by apply update_object_state_same].
  revert Hrun.
  unfold run_route, objects_routes.update_object_state, manager.get, manager.update,
    objects_routes.render, objects_routes.generate_log, logs_manager.insert_log,
    type_manager.get.
  unfold_monad.
  change (find_object id (emit (EvFindOne ObjectsC) w)) with (find_object id w).
  destruct (find_object id w) as [o|] eqn:Ho; [|done].
  destruct (acl_denied E id) eqn:Hacl; [done|].
  case_bool_decide as Hstate; [done|].
  set (o' := objects_routes.set_active state o).
  assert (∀ w2, objects w2 = map (λ x, if decide (public_id x = id) then o' else x) (objects w) →
                find_object id w2 = Some o') as Hfind.
  { intros w2 Hw2. unfold find_object in *. rewrite Hw2.
    apply (find_object_replaced id o); [|done].
    apply find_some in Ho as [_ Ho]. by apply bool_decide_eq_true_1 in Ho. }
  match goal with |- context [find_type ?i ?w0] => destruct (find_type i w0) as [t|] end;
    [|done].
  destruct (CmdbRender E o' t) as [[]|rr]; try done.
  simpl. destruct (log_fault E id); intros [= <- <-];
    (exists o'; split; [by apply Hfind|done]).
Qed.

Lemma update_object_state_idempotent_witness :
  ∃ w1,
    run_route (objects_routes.update_object_state Examples.nominal 5 (Some false))
              Examples.located_world
      = (make_response (objects_routes.UpdateSingle (mkObject 5 1 "1.0.0" false [])), w1) ∧
    run_route (objects_routes.update_object_state Examples.nominal 5 (Some false)) w1
      = (make_response objects_routes.False_204, emit (EvFindOne ObjectsC) w1).
Proof.
  eexists. split; [by vm_compute|].
  apply (update_object_state_idempotent Examples.nominal 5 false Examples.located_world _
           (mkObject 5 1 "1.0.0" false [])).
  by vm_compute.
Defined.

(** ** Structural repair, once more *)

Lemma update_unstructured_objects_types (tid : Z) :
  preserves types (objects_routes.update_unstructured_objects tid).
Proof.
  unfold objects_routes.update_unstructured_objects, type_manager.get, manager.iterate,
    manager.update_many.
  repeat preserves_step.
Qed.

Lemma pulled_NoDup (tfs : list TypeField) (snapshot : list CmdbObject) (d : CmdbObject) :
  NoDup (map f_name (fields d)) →
  NoDup (map f_name (fields (Effects.pulled tfs snapshot d))).
Proof.
  unfold Effects.pulled.
  apply (foldl_keeps (λ d0, NoDup (map f_name (fields d0)))).
  intros d0 obj _. apply (foldl_keeps (λ d0, NoDup (map f_name (fields d0)))).
  intros d1 n _ Hnd. unfold Effects.doc_update. case_decide; [|done].
  by apply NoDup_map_filter.
Qed.

(** The second pass on the documents of another identifier. *)
Lemma filled_inner_other (obj : CmdbObject) (tfs : list TypeField) (d : CmdbObject) :
  public_id d ≠ public_id obj →
  foldl (λ d1 tf,
           if bool_decide (filter (λ item, f_name item = tf_name tf) (fields obj) ≠ [])
           then d1
           else Effects.doc_update (public_id obj)
                  (objects_routes.add_to_set_field (Effects.default_field tf)) d1)
        d tfs = d.
Proof.
  intros Hid. induction tfs as [|tf tfs IH]; [done|].
  simpl. case_bool_decide; [done|].
  unfold Effects.doc_update at 2. by rewrite decide_False.
Qed.

Lemma filled_other (tfs : list TypeField) (snapshot : list CmdbObject) (d : CmdbObject) :
  (∀ obj, obj ∈ snapshot → public_id obj ≠ public_id d) →
  Effects.filled tfs snapshot d = d.
Proof.
  unfold Effects.filled. induction snapshot as [|obj snapshot IH]; intros Hids; [done|].
  simpl. rewrite filled_inner_other.
  - apply IH. intros obj' Hobj'. apply Hids. by right.
  - intros Heq. apply (Hids obj); [by left|done].
Qed.

(** The second pass on the document a snapshot object stands for: the names
    stay distinct, as the names of the type are. *)
Lemma filled_inner_NoDup (obj : CmdbObject) (tfs : list TypeField) (d : CmdbObject) :
  NoDup (map tf_name tfs) →
  NoDup (map f_name (fields d)) →
  (∀ n, n ∈ map f_name (fields d) → n ∈ map f_name (fields obj) ∨ n ∉ map tf_name tfs) →
  NoDup (map f_name (fields
    (foldl (λ d1 tf,
              if bool_decide (filter (λ item, f_name item = tf_name tf) (fields obj) ≠ [])
              then d1
              else Effects.doc_update (public_id obj)
                     (objects_routes.add_to_set_field (Effects.default_field tf)) d1)
           d tfs))).
Proof.
  revert d. induction tfs as [|tf tfs IH]; intros d Htfs Hnd Hnames; [done|].
  simpl in Htfs. apply NoDup_cons in Htfs as [Htf Htfs].
  simpl. pose proof (has_field_named (tf_name tf) (fields obj)) as Hnamed.
  case_bool_decide as Hhas.
  - apply IH; [done|done|]. intros n Hn.
    destruct (Hnames n Hn) as [?|Hnot]; [by left|]. right.
    simpl in Hnot. by apply not_elem_of_cons in Hnot as [_ ?].
  - assert (tf_name tf ∉ map f_name (fields obj)) as Hmiss by tauto.
    unfold Effects.doc_update at 2. case_decide as Hid.
    + assert (tf_name tf ∉ map f_name (fields d)) as Hfresh.
      { intros Hin. destruct (Hnames _ Hin) as [?|Hnot]; [done|].
        apply Hnot. simpl. by left. }
      assert (fields (objects_routes.add_to_set_field (Effects.default_field tf) d)
              = (fields d ++ [Effects.default_field tf])%list) as Hfields.
      { unfold objects_routes.add_to_set_field. simpl. rewrite decide_False; [done|].
        intros Hin. apply Hfresh, elem_of_map_iff. by exists (Effects.default_field tf). }
      apply IH; [done| |].
      * rewrite Hfields, map_app. simpl. apply NoDup_app. split; [done|].
        split; [|apply NoDup_singleton].
        intros n Hn ->%list_elem_of_singleton. done.
      * intros n. rewrite Hfields, map_app, elem_of_app. simpl.
        intros [Hn| ->%list_elem_of_singleton].
        -- destruct (Hnames n Hn) as [?|Hnot]; [by left|]. right.
           simpl in Hnot. by apply not_elem_of_cons in Hnot as [_ ?].
        -- by right.
    + apply IH; [done|done|]. intros n Hn.
      destruct (Hnames n Hn) as [?|Hnot]; [by left|]. right.
      simpl in Hnot. by apply not_elem_of_cons in Hnot as [_ ?].
Qed.

Lemma filled_NoDup (tfs : list TypeField) (snapshot : list CmdbObject) (d : CmdbObject) :
  NoDup (map tf_name tfs) →
  NoDup (map public_id snapshot) →
  (∀ obj, obj ∈ snapshot → public_id obj = public_id d → obj = d) →
  NoDup (map f_name (fields d)) →
  NoDup (map f_name (fields (Effects.filled tfs snapshot d))).
Proof.
  intros Htfs. unfold Effects.filled.
  induction snapshot as [|obj snapshot IH]; intros Hids Hself Hnd; [done|].
  simpl in Hids. apply NoDup_cons in Hids as [Hobj Hids]. simpl.
  destruct (decide (public_id d = public_id obj)) as [Hid|Hid].
  - assert (obj = d) as -> by (apply Hself; [by left|done]).
    pose proof (filled_inner d tfs d) as (Hp & _ & _). simpl in Hp.
    pose proof (filled_inner_NoDup d tfs d Htfs Hnd) as Hnd'.
    match goal with
    | |- context [foldl _ (foldl ?g d tfs) snapshot] =>
        set (d' := foldl g d tfs) in *
    end.
    change (NoDup (map f_name (fields (Effects.filled tfs snapshot d')))).
    rewrite filled_other.
    + apply Hnd'. intros n Hn. by left.
    + intros obj' Hobj' Heq. apply Hobj, elem_of_map_iff. exists obj'.
      split; [congruence|done].
  - rewrite filled_inner_other by done. apply IH; [done| |done].
    intros obj' Hobj'. apply Hself. by right.
Qed.

(** The field names of a stored object of the type, once both passes of the
    repair are through. *)
Lemma repaired_names (tfs : list TypeField) (tid : Z) (objs : list CmdbObject)
    (o : CmdbObject) :
  tfs ≠ [] → o ∈ objs → type_id o = tid →
  let snapshot1 := merge_sort by_public_id (filter (λ o, type_id o = tid) objs) in
  let snapshot2 :=
    merge_sort by_public_id
      (filter (λ o, type_id o = tid) (map (Effects.pulled tfs snapshot1) objs)) in
  ∀ n, n ∈ map f_name (fields (Effects.filled tfs snapshot2 (Effects.pulled tfs snapshot1 o)))
       ↔ n ∈ map tf_name tfs.
Proof.
  intros Hne Ho Htid snapshot1 snapshot2.
  destruct (pulled_spec tfs snapshot1 o) as (Hp1 & Ht1 & Hf1).
  destruct (filled_spec tfs snapshot2 (Effects.pulled tfs snapshot1 o))
    as (Hp2 & Ht2 & Hf2).
  assert (o ∈ snapshot1) as Hsnap1.
  { unfold snapshot1. rewrite merge_sort_Permutation, list_elem_of_filter. done. }
  assert (Effects.pulled tfs snapshot1 o ∈ snapshot2) as Hsnap2.
  { unfold snapshot2. rewrite merge_sort_Permutation, list_elem_of_filter.
    split; [congruence|]. apply elem_of_map_iff. by exists o. }
  assert (∀ f, f ∈ fields (Effects.pulled tfs snapshot1 o) →
               f_name f ∈ map tf_name tfs) as Hclean.
  { intros f [Hin Hkept]%Hf1.
    destruct (decide (f_name f ∈ map tf_name tfs)) as [|Hnot]; [done|].
    exfalso. apply (Hkept o Hsnap1 eq_refl).
    apply removed_type_fields_elem. split; [|done].
    apply elem_of_map_iff. by exists f. }
  intros n. split.
  - intros (f & <- & Hin)%elem_of_map_iff.
    apply Hf2 in Hin as [Hin|(obj & tf & _ & _ & Htf & _ & ->)].
    + by apply Hclean.
    + apply elem_of_map_iff. by exists tf.
  - intros (tf & <- & Htf)%elem_of_map_iff.
    destruct (decide (tf_name tf ∈ map f_name (fields (Effects.pulled tfs snapshot1 o))))
      as [Hhas|Hmiss].
    + apply elem_of_map_iff in Hhas as (f & Hname & Hin).
      apply elem_of_map_iff. exists f. split; [done|]. apply Hf2. by left.
    + apply elem_of_map_iff. exists (Effects.default_field tf). split; [done|].
      apply Hf2. right. exists (Effects.pulled tfs snapshot1 o), tf. done.
Qed.

(** X11. Repair, then detect.  For a type with at least one field whose field
    names are distinct, in a store whose objects have distinct public ids and
    whose objects of the type have distinct field names, the repair route
    succeeds and the detection route then reports no unstructured object. *)
Theorem repair_leaves_nothing_unstructured (tid : Z) (w : World) (t : TypeModel) :
  find_type tid w = Some t →
  type_fields t ≠ [] →
  NoDup (map tf_name (type_fields t)) →
  NoDup (map public_id (objects w)) →
  (∀ o, o ∈ objects w → type_id o = tid → NoDup (map f_name (fields o))) →
  ∃ w',
    run_route (objects_routes.update_unstructured_objects tid) w = (make_response [], w') ∧
    (run_route (objects_routes.get_unstructured_objects tid) w').1 = make_response [].
Proof.
  intros Ht Hne Htfs Hids Hfields.
  destruct (update_unstructured_objects_run tid w t Ht) as (w' & Hrun & Hobjs).
  simpl in Hobjs.
  set (snapshot1 := merge_sort by_public_id (filter (λ o, type_id o = tid) (objects w)))
    in *.
  set (snapshot2 := merge_sort by_public_id
         (filter (λ o, type_id o = tid)
                 (map (Effects.pulled (type_fields t) snapshot1) (objects w)))) in *.
  exists w'. split; [exact Hrun|].
  assert (types w' = types w) as Htypes.
  { pose proof (preserves_run_route types _ (update_unstructured_objects_types tid) w) as H.
    by rewrite Hrun in H. }
  unfold run_route, objects_routes.get_unstructured_objects, type_manager.get,
    manager.iterate.
  unfold_monad.
  change (find_type tid (emit (EvFindOne TypesC) w')) with
    (find (λ t0, bool_decide (type_public_id t0 = tid)) (types w')).
  rewrite Htypes. unfold find_type in Ht. rewrite Ht. cbn [objects emit fst].
  f_equal. apply filter_none. intros x Hx Hneq. apply Hneq. clear Hneq.
  rewrite merge_sort_Permutation, list_elem_of_filter in Hx. destruct Hx as [Hxt Hx].
  rewrite Hobjs in Hx. apply elem_of_map_iff in Hx as (o & <- & Ho).
  destruct (pulled_spec (type_fields t) snapshot1 o) as (Hp1 & Ht1 & _).
  destruct (filled_spec (type_fields t) snapshot2 (Effects.pulled (type_fields t) snapshot1 o))
    as (Hp2 & Ht2 & _).
  assert (type_id o = tid) as Hot by congruence.
  apply sorted_eq_iff, NoDup_Permutation.
  - apply filled_NoDup; [done| | |].
    + unfold snapshot2. rewrite merge_sort_Permutation.
      apply NoDup_map_filter. rewrite map_map.
      erewrite map_ext; [exact Hids|].
      intros d. by destruct (pulled_spec (type_fields t) snapshot1 d) as (? & _).
    + intros obj Hobj Heq.
      unfold snapshot2 in Hobj.
      rewrite merge_sort_Permutation, list_elem_of_filter in Hobj.
      destruct Hobj as [_ (o' & <- & Ho')%elem_of_map_iff].
      f_equal. apply (NoDup_map_eq public_id (objects w)); [done..|].
      destruct (pulled_spec (type_fields t) snapshot1 o') as (Hp' & _). congruence.
    + apply pulled_NoDup. by apply Hfields.
  - done.
  - by apply repaired_names.
Qed.

Lemma repair_leaves_nothing_unstructured_witness :
  ∃ w',
    run_route (objects_routes.update_unstructured_objects 4) Examples.drifted_world
      = (make_response [], w') ∧
    (run_route (objects_routes.get_unstructured_objects 4) w').1 = make_response [].
Proof.
  apply (repair_leaves_nothing_unstructured 4 Examples.drifted_world Examples.type_ab).
  - reflexivity.
  - done.
  - apply (bool_decide_unpack _). by vm_compute.
  - apply (bool_decide_unpack _). by vm_compute.
  - intros o Ho _. apply elem_of_cons in Ho as [->|Ho].
    + apply (bool_decide_unpack _). by vm_compute.
    + apply list_elem_of_singleton in Ho as ->. apply (bool_decide_unpack _). by vm_compute.
Defined.
(** X12. The two routes on a type that is not stored: the detection answers
    400; the repair handles [ManagerUpdateError] only, so the failed lookup
    escapes the route.  Neither writes anything. *)
Theorem unstructured_routes_missing_type (tid : Z) (w : World) :
  find_type tid w = None →
  run_route (objects_routes.get_unstructured_objects tid) w
    = (abort 400, emit (EvFindOne TypesC) w) ∧
  run_route (objects_routes.update_unstructured_objects tid) w
    = (unhandled ManagerGetError, emit (EvFindOne TypesC) w).
Proof.
  intros Ht.
  unfold run_route, objects_routes.get_unstructured_objects,
    objects_routes.update_unstructured_objects, type_manager.get.
  split.
  - unfold bind at 1. unfold try_except at 1.
    unfold bind at 1. unfold bind at 1. unfold modify at 1.
    unfold bind at 1. unfold world at 1.
    change (find_type tid (emit (EvFindOne TypesC) w)) with (find_type tid w).
    by rewrite Ht.
  - unfold try_except at 1.
    unfold bind at 1. unfold bind at 1. unfold modify at 1.
    unfold bind at 1. unfold world at 1.
    change (find_type tid (emit (EvFindOne TypesC) w)) with (find_type tid w).
    by rewrite Ht.
Qed.

Lemma unstructured_routes_missing_type_witness :
  run_route (objects_routes.get_unstructured_objects 9) Examples.drifted_world
    = (abort 400, emit (EvFindOne TypesC) Examples.drifted_world) ∧
  run_route (objects_routes.update_unstructured_objects 9) Examples.drifted_world
    = (unhandled ManagerGetError, emit (EvFindOne TypesC) Examples.drifted_world).
Proof.
  apply (unstructured_routes_missing_type 9 Examples.drifted_world). reflexivity.
Defined.

(** X13. Unlinking an object, the links having distinct public ids, leaves
    exactly the links that have the object at neither end, and touches
    neither the objects nor the locations. *)
Theorem delete_object_links_removes_exactly (R : Type) (id : Z) (w : World) :
  NoDup (map link_public_id (links w)) →
  ∃ w',
    objects_routes.delete_object_links (R:=R) id w = (Return tt, w') ∧
    links w' = filter (λ k, ¬ (link_primary k = id ∨ link_secondary k = id)) (links w) ∧
    objects w' = objects w ∧ locations w' = locations w.
Proof.
  intros Hnd. eexists. split; [apply delete_object_links_run|].
  split; [|split].
  - rewrite links_deleted_links. apply filter_ext_elem. intros x Hx. split.
    + intros Hnot Htouch. apply Hnot, elem_of_map_iff. exists x. split; [done|].
      by apply list_elem_of_filter.
    + intros Hnot (y & Heq & [Htouch Hy]%list_elem_of_filter)%elem_of_map_iff.
      apply Hnot. by rewrite (NoDup_map_eq link_public_id (links w) x y).
  - unfold Effects.links_deleted. by rewrite (foldl_preserved objects).
  - unfold Effects.links_deleted. by rewrite (foldl_preserved locations).
Qed.

Lemma delete_object_links_removes_exactly_witness :
  ∃ w',
    objects_routes.delete_object_links (R:=unit) 5 Examples.located_world = (Return tt, w') ∧
    links w' = [].
Proof.
  destruct (delete_object_links_removes_exactly unit 5 Examples.located_world)
    as (w' & Hrun & Hlinks & _).
  - apply (bool_decide_unpack _). by vm_compute.
  - exists w'. split; [exact Hrun|]. rewrite Hlinks. by vm_compute.
Defined.
(** X14. Each of the three routes that delete one object answers 404 for an
    object that is not stored, after the one lookup: no link, reference,
    location or object is touched. *)
Theorem delete_routes_missing_object (E : Env) (id : Z) (w : World) :
  find_object id w = None →
  run_route (objects_routes.delete_object E id) w
    = (abort 404, emit (EvFindOne ObjectsC) w) ∧
  run_route (objects_routes.delete_object_with_child_objects E id) w
    = (abort 404, emit (EvFindOne ObjectsC) w) ∧
  run_route (objects_routes.delete_object_with_child_locations E id) w
    = (abort 404, emit (EvFindOne ObjectsC) w).
Proof.
  intros Ho.
  unfold run_route, objects_routes.delete_object,
    objects_routes.delete_object_with_child_objects,
    objects_routes.delete_object_with_child_locations, object_manager.get_object.
  repeat split.
  - unfold bind at 1. unfold try_except at 1.
    unfold bind at 1. unfold bind at 1. unfold modify at 1.
    unfold bind at 1. unfold world at 1.
    change (find_object id (emit (EvFindOne ObjectsC) w)) with (find_object id w).
    by rewrite Ho.
  - unfold try_except at 1.
    unfold bind at 1. unfold bind at 1. unfold modify at 1.
    unfold bind at 1. unfold world at 1.
    change (find_object id (emit (EvFindOne ObjectsC) w)) with (find_object id w).
    by rewrite Ho.
  - unfold try_except at 1.
    unfold bind at 1. unfold bind at 1. unfold modify at 1.
    unfold bind at 1. unfold world at 1.
    change (find_object id (emit (EvFindOne ObjectsC) w)) with (find_object id w).
    by rewrite Ho.
Qed.

Lemma delete_routes_missing_object_witness :
  find_object 9 Examples.located_world = None ∧
  run_route (objects_routes.delete_object Examples.nominal 9) Examples.located_world
    = (abort 404, emit (EvFindOne ObjectsC) Examples.located_world).
Proof.
  split; [reflexivity|].
  apply (delete_routes_missing_object Examples.nominal 9 Examples.located_world).
  reflexivity.
Defined.

Lemma delete_object_refused_witness :
  ∃ w',
    run_route (objects_routes.delete_object Examples.nominal 5) Examples.located_world
      = (ErrorBody 405, w') ∧
    locations w' = locations Examples.located_world ∧
    objects w' = objects Examples.located_world ∧
    links w' = [].
Proof.
  destruct (delete_object_refused Examples.nominal 5 Examples.located_world
              (mkObject 5 1 "1.0.0" true []) (mkType 1 []) (mkRender [] "1.0.0")
              (mkLocation 2 5 1) (mkLocation 3 6 2))
    as (w' & Hrun & Hlocs & Hobjs & Hlinks); try reflexivity.
  exists w'. split; [exact Hrun|]. split; [exact Hlocs|]. split.
  - rewrite Hobjs. by vm_compute.
  - rewrite Hlinks. by vm_compute.
Defined.

Lemma delete_object_without_children_witness :
  ∃ w',
    run_route (objects_routes.delete_object Examples.nominal 6) Examples.located_world
      = (unhandled TypeError, w') ∧
    locations w' = [mkLocation 2 5 1] ∧
    objects w' = objects Examples.located_world ∧
    logs w' = [].
Proof.
  destruct (delete_object_without_children Examples.nominal 6 Examples.located_world
              (mkObject 6 1 "1.0.0" true []) (mkType 1 []) (mkRender [] "1.0.0")
              (mkLocation 3 6 2))
    as (w' & Hrun & Hlocs & Hobjs & Hlogs); try reflexivity.
  exists w'. split; [exact Hrun|]. split; [|split].
  - rewrite Hlocs. by vm_compute.
  - rewrite Hobjs. by vm_compute.
  - rewrite Hlogs. by vm_compute.
Defined.

(** X17. Deleting an object that is bound to no location: the links of the
    object are deleted and the references to it rewritten; then the call
    [object_manager.delete_object(public_id, request_user,
    AccessControlPermission.DELETE)] raises [TypeError], which no clause of
    the route catches.  The object is still stored, the locations are as
    they were and no log entry is written. *)
Theorem delete_object_without_location (E : Env) (id : Z) (w : World) (o : CmdbObject)
    (t : TypeModel) (r : RenderResult) :
  find_object id w = Some o →
  find_type (type_id o) w = Some t →
  CmdbRender E o t = inr r →
  find_location_for_object id w = None →
  ∃ w',
    run_route (objects_routes.delete_object E id) w = (unhandled TypeError, w') ∧
    locations w' = locations w ∧
    objects w' = map (delete_object_reference E id) (objects w) ∧
    links w' = links (Effects.links_deleted id w) ∧
    logs w' = logs w.
Proof.
  intros Ho Ht Hr Hl.
  unfold run_route, objects_routes.delete_object.
  unfold bind at 1. unfold try_except at 1.
  unfold object_manager.get_object.
  unfold bind at 1. unfold bind at 1. unfold modify at 1.
  unfold bind at 1. unfold world at 1.
  change (find_object id (emit (EvFindOne ObjectsC) w)) with (find_object id w).
  rewrite Ho. unfold ret at 1.
  erewrite bind_Return; [|apply delete_object_links_run].
  erewrite bind_Return; [|apply delete_all_object_references_run].
  set (w1 := Effects.references_deleted E id (Effects.links_deleted id (emit (EvFindOne ObjectsC) w))).
  assert (locations w1 = locations w) as Hlocs1.
  { exact (unlinked_locations E id (emit (EvFindOne ObjectsC) w)). }
  assert (types w1 = types w) as Htypes1.
  { exact (unlinked_types E id (emit (EvFindOne ObjectsC) w)). }
  assert (objects w1 = map (delete_object_reference E id) (objects w)) as Hobjs1.
  { exact (unlinked_objects E id (emit (EvFindOne ObjectsC) w)). }
  assert (logs w1 = logs w) as Hlogs1.
  { exact (unlinked_logs E id (emit (EvFindOne ObjectsC) w)). }
  assert (links w1 = links (Effects.links_deleted id w)) as Hlinks1.
  { unfold w1, Effects.references_deleted. simpl. by rewrite !links_deleted_links. }
  clearbody w1.
  unfold call.
  change (binds object_manager.delete_object_parameters 3 []) with false.
  unfold object_manager.get_type, objects_routes.render,
    locations_manager.get_location_for_object, locations_manager.get_one_by_parent.
  unfold_monad.
  unfold find_type, find_location_for_object, find_child_location in *. simpl.
  rewrite Htypes1, Ht. simpl. rewrite Hr. simpl.
  rewrite Hlocs1, Hl. simpl.
  eexists. split; [reflexivity|]. simpl. by rewrite Hlocs1, Hobjs1, Hlogs1, Hlinks1.
Qed.

Lemma delete_object_without_location_witness :
  ∃ w',
    run_route (objects_routes.delete_object Examples.nominal 3) Examples.bulk_world
      = (unhandled TypeError, w') ∧
    locations w' = [] ∧
    objects w' = objects Examples.bulk_world ∧
    logs w' = [].
Proof.
  destruct (delete_object_without_location Examples.nominal 3 Examples.bulk_world
              (mkObject 3 1 "1.0.0" true []) (mkType 1 [])
              (mkRender [] "1.0.0"))
    as (w' & Hrun & Hlocs & Hobjs & _ & Hlogs); try reflexivity.
  exists w'. split; [exact Hrun|]. split; [|split].
  - rewrite Hlocs. by vm_compute.
  - rewrite Hobjs. by vm_compute.
  - rewrite Hlogs. by vm_compute.
Defined.

(** The cascade routes up to the snapshot: the target is found and
    unlinked, its location found, and all locations are loaded. *)
Lemma unlinked_io (E : Env) (id : Z) (w : World) :
  io (Effects.references_deleted E id (Effects.links_deleted id (emit (EvFindOne ObjectsC) w)))
  = (io w ++ [EvFindOne ObjectsC; EvFindMany LinksC] ++
     map (λ k, EvDelete LinksC (link_public_id k))
         (filter (λ k, link_primary k = id ∨ link_secondary k = id) (links w)) ++
     [EvFindMany ObjectsC; EvUpdate ObjectsC id])%list.
Proof.
  unfold Effects.references_deleted. simpl. rewrite links_deleted_io. simpl.
  by rewrite <- !app_assoc.
Qed.

(** X18. Deleting an object with its child locations: the locations under
    the object's location and that location itself are deleted; then the
    call [object_manager.delete_object(public_id, request_user,
    permission=AccessControlPermission.DELETE)] raises [TypeError], which
    the route does not catch.  Every object is still stored, the target
    among them. *)
Theorem delete_with_child_locations_keeps_objects (E : Env) (id : Z) (w : World)
    (target : CmdbObject) (location : CmdbLocation) :
  find_object id w = Some target →
  find_location_for_object id w = Some location →
  let descendants :=
    locations_manager.get_all_children (loc_public_id location) (Effects.snapshot_of w) in
  ∃ w',
    run_route (objects_routes.delete_object_with_child_locations E id) w
      = (unhandled TypeError, w') ∧
    locations w'
      = filter (λ x, loc_public_id x ∉ (map loc_public_id descendants
                                         ++ [loc_public_id location])%list)
               (locations w) ∧
    objects w' = map (delete_object_reference E id) (objects w) ∧
    io w' = (io w ++
             [EvFindOne ObjectsC; EvFindMany LinksC] ++
             map (λ k, EvDelete LinksC (link_public_id k))
                 (filter (λ k, link_primary k = id ∨ link_secondary k = id) (links w)) ++
             [EvFindMany ObjectsC; EvUpdate ObjectsC id;
              EvFindOne LocationsC; EvFindMany LocationsC] ++
             map (λ d, EvDelete LocationsC (loc_public_id d)) descendants ++
             [EvDelete LocationsC (loc_public_id location)])%list.
Proof.
  intros Htarget Hloc descendants.
  unfold run_route, objects_routes.delete_object_with_child_locations, try_except.
  unfold object_manager.get_object.
  unfold bind at 1. unfold bind at 1. unfold modify at 1.
  unfold bind at 1. unfold world at 1.
  change (find_object id (emit (EvFindOne ObjectsC) w)) with (find_object id w).
  rewrite Htarget. unfold ret at 1.
  erewrite bind_Return; [|apply delete_object_links_run].
  erewrite bind_Return; [|apply delete_all_object_references_run].
  set (w1 := Effects.references_deleted E id (Effects.links_deleted id (emit (EvFindOne ObjectsC) w))).
  assert (locations w1 = locations w) as Hlocs1.
  { exact (unlinked_locations E id (emit (EvFindOne ObjectsC) w)). }
  assert (objects w1 = map (delete_object_reference E id) (objects w)) as Hobjs1.
  { exact (unlinked_objects E id (emit (EvFindOne ObjectsC) w)). }
  pose proof (unlinked_io E id w) as Hio1. fold w1 in Hio1.
  clearbody w1.
  unfold locations_manager.get_location_for_object.
  unfold bind at 1. unfold bind at 1. unfold modify at 1.
  unfold bind at 1. unfold world at 1.
  assert (find_location_for_object id (emit (EvFindOne LocationsC) w1) = Some location)
    as ->.
  { unfold find_location_for_object in *. simpl. by rewrite Hlocs1. }
  unfold ret at 1.
  unfold locations_manager.iterate.
  unfold bind at 1. unfold bind at 1. unfold modify at 1.
  unfold bind at 1. unfold world at 1. unfold ret at 1.
  assert (merge_sort loc_by_public_id
            (filter (λ l, 1 < loc_public_id l)
               (locations (emit (EvFindMany LocationsC) (emit (EvFindOne LocationsC) w1))))
          = Effects.snapshot_of w) as ->.
  { unfold Effects.snapshot_of. simpl. by rewrite Hlocs1. }
  fold descendants.
  erewrite bind_Return;
    [|apply (for_each_foldl descendants _ Effects.delete_location_effect);
      intros; reflexivity].
  unfold locations_manager.delete.
  unfold bind at 1. unfold bind at 1. unfold modify at 1.
  unfold bind at 1. unfold modify at 1. unfold ret at 1.
  erewrite bind_Raise; [|by apply call_unbound].
  eexists. split; [reflexivity|].
  split; [|split].
  - simpl.
    rewrite (foldl_locations_filter Effects.delete_location_effect loc_public_id) by done.
    simpl. rewrite Hlocs1, list_filter_filter. apply list_filter_iff.
    intros x. rewrite elem_of_app, list_elem_of_singleton. tauto.
  - simpl.
    rewrite (foldl_preserved objects Effects.delete_location_effect) by done.
    simpl. by rewrite Hobjs1.
  - simpl.
    rewrite (foldl_io_app Effects.delete_location_effect
               (λ d, [EvDelete LocationsC (loc_public_id d)])) by done.
    simpl. rewrite Hio1. rewrite !flat_map_singleton.
    rewrite <- !app_assoc. reflexivity.
Qed.

Lemma delete_with_child_locations_keeps_objects_witness :
  find_object 5 Examples.located_world = Some (mkObject 5 1 "1.0.0" true []) ∧
  find_location_for_object 5 Examples.located_world = Some (mkLocation 2 5 1) ∧
  ∃ w',
    run_route (objects_routes.delete_object_with_child_locations Examples.nominal 5)
              Examples.located_world
      = (unhandled TypeError, w') ∧
    locations w' = [] ∧
    objects w' = objects Examples.located_world.
Proof.
  repeat (split; [by vm_compute|]).
  destruct (delete_with_child_locations_keeps_objects Examples.nominal 5
              Examples.located_world (mkObject 5 1 "1.0.0" true []) (mkLocation 2 5 1))
    as (w' & Hrun & Hlocs & Hobjs & _); try reflexivity.
  exists w'. split; [exact Hrun|]. split.
  - rewrite Hlocs. by vm_compute.
  - rewrite Hobjs. by vm_compute.
Defined.

(** X29. The cascade delete of an object whose location has no descendant:
    no object deletion is attempted in the loop, the location of the object
    is deleted, and the call [object_manager.delete_object(public_id,
    request_user, AccessControlPermission.DELETE)] for the target raises
    [TypeError], which the route does not catch.  The target is still
    stored and has lost its location. *)
Theorem cascade_delete_of_leaf (E : Env) (id : Z) (w : World)
    (target : CmdbObject) (location : CmdbLocation) :
  find_object id w = Some target →
  find_location_for_object id w = Some location →
  locations_manager.get_all_children (loc_public_id location) (Effects.snapshot_of w) = [] →
  ∃ w',
    run_route (objects_routes.delete_object_with_child_objects E id) w
      = (unhandled TypeError, w') ∧
    locations w' = filter (λ x, loc_public_id x ≠ loc_public_id location) (locations w) ∧
    objects w' = map (delete_object_reference E id) (objects w) ∧
    io w' = (io w ++
             [EvFindOne ObjectsC; EvFindMany LinksC] ++
             map (λ k, EvDelete LinksC (link_public_id k))
                 (filter (λ k, link_primary k = id ∨ link_secondary k = id) (links w)) ++
             [EvFindMany ObjectsC; EvUpdate ObjectsC id;
              EvFindOne LocationsC; EvFindMany LocationsC;
              EvDelete LocationsC (loc_public_id location)])%list.
Proof.
  intros Htarget Hloc Hdesc.
  unfold run_route, objects_routes.delete_object_with_child_objects, try_except.
  unfold object_manager.get_object.
  unfold bind at 1. unfold bind at 1. unfold modify at 1.
  unfold bind at 1. unfold world at 1.
  change (find_object id (emit (EvFindOne ObjectsC) w)) with (find_object id w).
  rewrite Htarget. unfold ret at 1.
  erewrite bind_Return; [|apply delete_object_links_run].
  erewrite bind_Return; [|apply delete_all_object_references_run].
  set (w1 := Effects.references_deleted E id (Effects.links_deleted id (emit (EvFindOne ObjectsC) w))).
  assert (locations w1 = locations w) as Hlocs1.
  { exact (unlinked_locations E id (emit (EvFindOne ObjectsC) w)). }
  assert (objects w1 = map (delete_object_reference E id) (objects w)) as Hobjs1.
  { exact (unlinked_objects E id (emit (EvFindOne ObjectsC) w)). }
  pose proof (unlinked_io E id w) as Hio1. fold w1 in Hio1.
  clearbody w1.
  unfold locations_manager.get_location_for_object.
  unfold bind at 1. unfold bind at 1. unfold modify at 1.
  unfold bind at 1. unfold world at 1.
  assert (find_location_for_object id (emit (EvFindOne LocationsC) w1) = Some location)
    as ->.
  { unfold find_location_for_object in *. simpl. by rewrite Hlocs1. }
  unfold ret at 1.
  unfold locations_manager.iterate.
  unfold bind at 1. unfold bind at 1. unfold modify at 1.
  unfold bind at 1. unfold world at 1. unfold ret at 1.
  assert (merge_sort loc_by_public_id
            (filter (λ l, 1 < loc_public_id l)
               (locations (emit (EvFindMany LocationsC) (emit (EvFindOne LocationsC) w1))))
          = Effects.snapshot_of w) as ->.
  { unfold Effects.snapshot_of. simpl. by rewrite Hlocs1. }
  rewrite Hdesc.
  erewrite bind_Return; [|reflexivity].
  erewrite bind_Return; [|reflexivity].
  erewrite bind_Return; [|reflexivity].
  erewrite bind_Raise; [|by apply call_unbound].
  eexists. split; [reflexivity|].
  simpl. rewrite Hlocs1, Hobjs1, Hio1. repeat split.
  rewrite <- !app_assoc. reflexivity.
Qed.

Lemma cascade_delete_of_leaf_witness :
  ∃ w',
    run_route (objects_routes.delete_object_with_child_objects Examples.nominal 6)
              Examples.located_world
      = (unhandled TypeError, w') ∧
    locations w' = [mkLocation 2 5 1] ∧
    objects w' = objects Examples.located_world.
Proof.
  destruct (cascade_delete_of_leaf Examples.nominal 6 Examples.located_world
              (mkObject 6 1 "1.0.0" true []) (mkLocation 3 6 2))
    as (w' & Hrun & Hlocs & Hobjs & _); try reflexivity.
  exists w'. split; [exact Hrun|]. split.
  - rewrite Hlocs. by vm_compute.
  - rewrite Hobjs. by vm_compute.
Defined.

(** ** Bulk delete, once more *)

Lemma parse_public_ids_rejects {R} (public_ids : list (option Z)) (acc : list Z)
    (w : World) :
  None ∈ public_ids →
  for_fold (R:=R) public_ids acc
    (λ ids0 v, match v with
               | Some i => ret (ids0 ++ [i])%list
               | None => exit (abort 400)
               end) w
  = (Exit (abort 400), w).
Proof.
  revert acc. induction public_ids as [|v l IH]; intros acc Hin.
  - by apply elem_of_nil in Hin.
  - simpl. destruct v as [i|]; [|done].
    apply elem_of_cons in Hin as [?|Hin]; [done|].
    unfold bind, ret at 1. by apply IH.
Qed.

(** X19. A bulk delete with a part that is no integer is answered with 400
    before the store is touched: the world, its trace included, is unchanged. *)
Theorem delete_many_objects_rejects_non_integer (E : Env) (w : World)
    (public_ids : list (option Z)) :
  None ∈ public_ids →
  run_route (objects_routes.delete_many_objects E public_ids) w = (abort 400, w).
Proof.
  intros Hin.
  unfold run_route, objects_routes.delete_many_objects, try_except.
  erewrite bind_Exit; [done|]. by apply parse_public_ids_rejects.
Qed.

Lemma delete_many_objects_rejects_non_integer_witness :
  run_route (objects_routes.delete_many_objects Examples.nominal [Some 1; None; Some 2])
            Examples.bulk_world
  = (abort 400, Examples.bulk_world).
Proof.
  apply (delete_many_objects_rejects_non_integer Examples.nominal Examples.bulk_world
           [Some 1; None; Some 2]).
  apply (bool_decide_unpack _). by vm_compute.
Defined.

Lemma check_loop_refuses (w w1 : World) (l : list CmdbObject) :
  locations w1 = locations w →
  (∃ o, o ∈ l ∧ find_location_for_object (public_id o) w ≠ None) →
  ∃ w2 n, for_each l objects_routes.check_no_location w1 = (Exit (ErrorBody 405), w2) ∧
          objects w2 = objects w1 ∧ locations w2 = locations w1 ∧
          links w2 = links w1 ∧ logs w2 = logs w1 ∧
          io w2 = (io w1 ++ repeat (EvFindOne LocationsC) n)%list.
Proof.
  revert w1. induction l as [|x l IH]; intros w1 Hlocs (o & Hin & Hloc).
  - by apply elem_of_nil in Hin.
  - simpl.
    destruct (find_location_for_object (public_id x) w) as [lx|] eqn:Hx.
    + unfold bind, objects_routes.check_no_location,
        locations_manager.get_location_for_object.
      unfold_monad.
      change (find_location_for_object (public_id x) (emit (EvFindOne LocationsC) w1))
        with (find (λ l0, bool_decide (loc_object_id l0 = public_id x)) (locations w1)).
      rewrite Hlocs. unfold find_location_for_object in Hx. rewrite Hx.
      eexists _, 1%nat. split; [reflexivity|]. by simpl.
    + erewrite bind_Return; [|apply check_no_location_run].
      2:{ unfold find_location_for_object in *. by rewrite Hlocs. }
      destruct (IH (emit (EvFindOne LocationsC) w1))
        as (w2 & n & Hrun & Ho & Hl & Hk & Hg & Hio).
      { done. }
      { exists o. split; [|done]. apply elem_of_cons in Hin as [->|]; [|done].
        by rewrite Hx in Hloc. }
      exists w2, (S n). split; [done|]. simpl in *. repeat split; try done.
      by rewrite Hio, <- app_assoc.
Qed.

(** X20. A bulk delete that names an object bound to a location is refused
    with 405 before anything is deleted: objects, locations, links and logs
    are as they were, and the trace has gained lookups only. *)
Theorem delete_many_objects_refuses_located (E : Env) (w : World) (ids : list Z)
    (o : CmdbObject) (l : CmdbLocation) :
  o ∈ objects w →
  public_id o ∈ ids →
  find_location_for_object (public_id o) w = Some l →
  ∃ w' n,
    run_route (objects_routes.delete_many_objects E (map Some ids)) w
      = (ErrorBody 405, w') ∧
    objects w' = objects w ∧ locations w' = locations w ∧
    links w' = links w ∧ logs w' = logs w ∧
    io w' = (io w ++ EvFindMany ObjectsC :: repeat (EvFindOne LocationsC) n)%list.
Proof.
  intros Ho Hid Hloc.
  unfold run_route, objects_routes.delete_many_objects, try_except.
  erewrite bind_Return; [|apply parse_public_ids].
  unfold object_manager.get_objects_by.
  unfold bind at 1. unfold bind at 1. unfold modify at 1.
  unfold bind at 1. unfold world at 1. unfold ret at 1.
  cbn [app objects emit].
  set (found := merge_sort by_public_id (filter (λ o, public_id o ∈ ids) (objects w))).
  assert (o ∈ found) as Hfound.
  { unfold found. by rewrite merge_sort_Permutation, list_elem_of_filter. }
  clearbody found.
  destruct (check_loop_refuses w (emit (EvFindMany ObjectsC) w) found)
    as (w1 & n & Hrun1 & Hobjs1 & Hlocs1 & Hlinks1 & Hlogs1 & Hio1); [done| |].
  { exists o. split; [done|]. by rewrite Hloc. }
  erewrite bind_Exit; [|exact Hrun1].
  exists w1, n. split; [done|]. simpl in *.
  repeat split; try done. by rewrite Hio1, <- app_assoc.
Qed.

Lemma delete_many_objects_refuses_located_witness :
  ∃ w',
    run_route (objects_routes.delete_many_objects Examples.nominal [Some 6; Some 5])
              Examples.located_world
      = (ErrorBody 405, w') ∧
    objects w' = objects Examples.located_world ∧
    links w' = links Examples.located_world.
Proof.
  destruct (delete_many_objects_refuses_located Examples.nominal Examples.located_world
              [6; 5] (mkObject 6 1 "1.0.0" true []) (mkLocation 3 6 2))
    as (w' & n & Hrun & Hobjs & _ & Hlinks & _).
  - apply (bool_decide_unpack _). by vm_compute.
  - apply (bool_decide_unpack _). by vm_compute.
  - reflexivity.
  - exists w'. by split.
Defined.
Lemma delete_many_objects_fails_at_first_delete_witness :
  ∃ w',
    run_route (objects_routes.delete_many_objects Examples.nominal (map Some [3; 2; 1]))
              Examples.bulk_world = (unhandled TypeError, w') ∧
    objects w' = objects Examples.bulk_world ∧
    logs w' = [].
Proof.
  destruct (delete_many_objects_fails_at_first_delete Examples.nominal Examples.bulk_world
              [3; 2; 1] (mkObject 1 1 "1.0.0" true [])
              [mkObject 2 1 "1.0.0" true []; mkObject 3 1 "1.0.0" true []]
              (mkType 1 []) (mkRender [] "1.0.0"))
    as (w' & Hrun & Hobjs & _ & _ & Hlogs).
  - by vm_compute.
  - intros i _. reflexivity.
  - reflexivity.
  - reflexivity.
  - exists w'. split; [exact Hrun|]. split.
    + rewrite Hobjs. by vm_compute.
    + rewrite Hlogs. by vm_compute.
Defined.

(** X4. A bulk delete none of whose identifiers is the public id of a stored
    object answers [{'successfully': []}] after the one query: the
    identifiers that are not found get no entry, and nothing is changed. *)
Theorem delete_many_objects_none_found (E : Env) (w : World) (ids : list Z) :
  (∀ i, i ∈ ids → i ∉ map public_id (objects w)) →
  run_route (objects_routes.delete_many_objects E (map Some ids)) w
  = (make_response (objects_routes.successfully []), emit (EvFindMany ObjectsC) w).
Proof.
  intros Hmissing.
  unfold run_route, objects_routes.delete_many_objects, try_except.
  erewrite bind_Return; [|apply parse_public_ids].
  unfold object_manager.get_objects_by.
  unfold bind at 1. unfold bind at 1. unfold modify at 1.
  unfold bind at 1. unfold world at 1. unfold ret at 1.
  cbn [app objects emit].
  assert (filter (λ o, public_id o ∈ ids) (objects w) = []) as ->.
  { apply filter_none. intros o Ho Hid. apply (Hmissing _ Hid).
    apply elem_of_map_iff. by exists o. }
  reflexivity.
Qed.

Lemma delete_many_objects_none_found_witness :
  run_route (objects_routes.delete_many_objects Examples.nominal (map Some [7; 9]))
            Examples.bulk_world
  = (make_response (objects_routes.successfully []),
     emit (EvFindMany ObjectsC) Examples.bulk_world).
Proof.
  apply (delete_many_objects_none_found Examples.nominal Examples.bulk_world [7; 9]).
  intros i Hi.
  repeat (apply elem_of_cons in Hi as [->|Hi]);
    try (apply (bool_decide_unpack _); by vm_compute).
  by apply elem_of_nil in Hi.
Defined.

(** ** The object manager *)

Lemma get_objects_loop {R} (public_ids : list Z) (acc : list CmdbObject) (w w0 : World) :
  objects w0 = objects w →
  (∃ l w',
     for_fold (R:=R) public_ids acc
       (λ object_list public_id_,
          o <- object_manager.get_object public_id_ ;;
          ret (object_list ++ [o])%list) w0 = (Return (acc ++ l)%list, w') ∧
     map Some l = map (λ i, find_object i w) public_ids ∧
     objects w' = objects w) ∨
  (∃ w',
     for_fold (R:=R) public_ids acc
       (λ object_list public_id_,
          o <- object_manager.get_object public_id_ ;;
          ret (object_list ++ [o])%list) w0 = (Raise ObjectManagerGetError, w') ∧
     (∃ i, i ∈ public_ids ∧ find_object i w = None) ∧
     objects w' = objects w).
Proof.
  revert acc w0. induction public_ids as [|i ids IH]; intros acc w0 Hobjs.
  - left. exists [], w0. by rewrite app_nil_r.
  - assert (find_object i w0 = find_object i w) as Hfind.
    { unfold find_object. by rewrite Hobjs. }
    cbn [for_fold].
    destruct (find_object i w) as [o|] eqn:Ho.
    + erewrite bind_Return;
        [|erewrite bind_Return; [|by apply get_object_found]; reflexivity].
      destruct (IH (acc ++ [o])%list (emit (EvFindOne ObjectsC) w0) Hobjs)
        as [(l & w' & Hrun & Hl & Hw')|(w' & Hrun & Hmiss & Hw')].
      * left. exists (o :: l), w'. rewrite Hrun, <- app_assoc. simpl.
        split; [done|]. by rewrite Hl, Ho.
      * right. exists w'. rewrite Hrun. split; [done|]. split; [|done].
        destruct Hmiss as (j & Hj & Hnone). exists j. split; [by right|done].
    + right. exists (emit (EvFindOne ObjectsC) w0). split.
      * unfold bind. by rewrite (get_object_missing i w0 Hfind).
      * split; [|done]. exists i. split; [by left|done].
Qed.

(** X22. [get_objects] is all or nothing: either every identifier has a stored
    object and the answer lists, in the order of the identifiers, the object
    [get_object] finds for each; or some identifier has none and
    [ObjectManagerGetError] is raised.  The objects are not changed. *)
Theorem get_objects_all_or_nothing (R : Type) (public_ids : list Z) (w : World) :
  (∃ l w',
     CmdbObjectManager.get_objects (R:=R) public_ids w = (Return l, w') ∧
     map Some l = map (λ i, find_object i w) public_ids ∧
     objects w' = objects w) ∨
  (∃ w',
     CmdbObjectManager.get_objects (R:=R) public_ids w = (Raise ObjectManagerGetError, w') ∧
     (∃ i, i ∈ public_ids ∧ find_object i w = None) ∧
     objects w' = objects w).
Proof. apply get_objects_loop. done. Qed.

(** *** Search *)

Section search.
Import CmdbObjectManager.

Lemma find_query_fields_loop_appends (entries : list (string * Query))
    (match_fields : list Query) :
  find_query_fields_loop entries match_fields
  = ((find_query_fields_loop entries []).1,
     (match_fields ++ (find_query_fields_loop entries []).2)%list).
Proof.
  revert match_fields.
  induction entries as [|[key items] entries IH]; intros match_fields;
    cbn [find_query_fields_loop].
  - cbn [fst snd]. by rewrite app_nil_r.
  - destruct items as [sub| |]; [|apply IH..].
    destruct (String.eqb "fields.value" key).
    + destruct (dict_get "$regex" sub) as [regex|]; cbn [fst snd app];
        [|by rewrite app_nil_r].
      rewrite (IH (match_fields ++ [regex])%list), (IH [regex]). cbn [fst snd].
      by rewrite <- app_assoc.
    + destruct sub; cbn [fst snd]; [apply IH|by rewrite app_nil_r].
Qed.

(** Whatever list it is given, a call appends the same entries to it, and
    ends the same way. *)
Lemma find_query_fields_appends (query : Query) (match_fields : list Query) :
  _find_query_fields query match_fields
  = ((_find_query_fields query []).1,
     (match_fields ++ (_find_query_fields query []).2)%list).
Proof.
  destruct query as [entries| |]; simpl; [|by rewrite app_nil_r..].
  apply find_query_fields_loop_appends.
Qed.

Lemma re_search_fields_inner (re_search : string → string → option bool)
    (pattern : string) (fs : list Field) (match_list : list string) :
  (∀ p s, re_search p s ≠ None) →
  fold_err fs match_list
    (λ match_list field,
       match re_search pattern (py_str (f_value field)) with
       | Some true => inr (match_list ++ [f_name field])%list
       | Some false => inr match_list
       | None => inl re_error
       end)
  = inr (match_list ++
         map f_name (filter (λ f, re_search pattern (py_str (f_value f)) = Some true) fs))%list.
Proof.
  intros Htotal. revert match_list.
  induction fs as [|f fs IH]; intros match_list; simpl.
  - by rewrite app_nil_r.
  - rewrite filter_cons.
    destruct (re_search pattern (py_str (f_value f))) as [[|]|] eqn:Hre.
    + rewrite IH. rewrite decide_True by done. simpl. by rewrite <- app_assoc.
    + rewrite IH. by rewrite decide_False.
    + by apply Htotal in Hre.
Qed.

Lemma re_search_fields_strings (re_search : string → string → option bool)
    (o : CmdbObject) (patterns : list string) :
  (∀ p s, re_search p s ≠ None) →
  _re_search_fields re_search o (map QStr patterns)
  = inr (flat_map (matching_fields re_search o) patterns).
Proof.
  intros Htotal. unfold _re_search_fields.
  cut (∀ acc,
         fold_err (map QStr patterns) acc
           (λ match_list index,
              fold_err (fields o) match_list
                (λ match_list field,
                   match index with
                   | QStr pattern =>
                       match re_search pattern (py_str (f_value field)) with
                       | Some true => inr (match_list ++ [f_name field])%list
                       | Some false => inr match_list
                       | None => inl re_error
                       end
                   | _ => inl PatternTypeError
                   end))
         = inr (acc ++ flat_map (matching_fields re_search o) patterns)%list).
  { intros Hcut. apply (Hcut []). }
  induction patterns as [|p ps IH]; intros acc; simpl.
  - by rewrite app_nil_r.
  - rewrite (re_search_fields_inner re_search p (fields o) acc Htotal).
    rewrite IH. unfold matching_fields at 2. by rewrite <- app_assoc.
Qed.

Lemma search_loop_strings (re_search : string → string → option bool) (query : Query)
    (found : list string) (results : list CmdbObject)
    (result_list : list (CmdbObject * list string)) (default : list string) :
  (∀ p s, re_search p s ≠ None) →
  _find_query_fields query [] = (None, map QStr found) →
  search_loop re_search query results result_list (map QStr default)
  = (inr (result_list ++
          imap (λ k o, (o, flat_map (matching_fields re_search o)
                                    (default ++ concat (repeat found (S k)))%list))
               results)%list,
     map QStr (default ++ concat (repeat found (length results)))%list).
Proof.
  intros Htotal Hfound. revert result_list default.
  induction results as [|o results IH]; intros result_list default.
  - simpl. by rewrite !app_nil_r.
  - cbn [search_loop]. rewrite find_query_fields_appends, Hfound. cbn [fst snd].
    rewrite <- map_app, re_search_fields_strings by done.
    rewrite IH. cbn [imap length repeat concat]. rewrite app_nil_r.
    f_equal.
    + f_equal. rewrite <- app_assoc. cbn [app]. do 2 f_equal.
      apply imap_ext. intros k x _. cbn. by rewrite <- !app_assoc.
    + by rewrite <- !app_assoc.
Qed.

(** X23. The default list of [_find_query_fields] is shared by all calls.  For
    a query whose regular expressions are strings and a [re.search] that
    does not raise, the search appends the expressions of the query to the
    default list once per result, so the k-th result is matched against the
    list as the search found it followed by k copies of them, and the list
    stays that long for the next search. *)
Theorem search_reuses_default_list (re_search : string → string → option bool)
    (query : Query) (found default : list string) (results : list CmdbObject) :
  (∀ p s, re_search p s ≠ None) →
  _find_query_fields query [] = (None, map QStr found) →
  search_objects_with_limit re_search query results (map QStr default)
  = (inr (imap (λ k o, (o, flat_map (matching_fields re_search o)
                                    (default ++ concat (repeat found (S k)))%list))
               results),
     map QStr (default ++ concat (repeat found (length results)))%list).
Proof.
  intros Htotal Hfound. unfold search_objects_with_limit.
  by rewrite (search_loop_strings re_search query found results [] default).
Qed.

Lemma search_reuses_default_list_witness :
  let re_search := λ p s, Some (String.eqb p s) in
  let query := QDict [("fields.value", QDict [("$regex", QStr "x")])] in
  let o1 := mkObject 1 1 "1.0.0" true [mkField "a" (VStr "x")] in
  let o2 := mkObject 2 1 "1.0.0" true [mkField "b" (VStr "x")] in
  search_objects_with_limit re_search query [o1; o2] []
  = (inr [(o1, ["a"]); (o2, ["b"; "b"])], [QStr "x"; QStr "x"]).
Proof.
  intros re_search query o1 o2.
  apply (search_reuses_default_list re_search query ["x"] [] [o1; o2]).
  - done.
  - reflexivity.
Defined.

End search.

(** *** The category tree *)

Section category_tree.
Import CmdbObjectManager.

Lemma get_category_nodes_cons (depth : nat) (categories : list CmdbCategory)
    (c : CmdbCategory) (parent_list : list CmdbCategory) :
  _get_category_nodes (S depth) categories (c :: parent_list)
  = match
      (if bool_decide (0 < length (get_categories_by_parent categories (cat_public_id c)))%nat
       then
         match _get_category_nodes depth categories
                 (get_categories_by_parent categories (cat_public_id c)) with
         | Some nodes => Some (mkNode c (Some nodes))
         | None => None
         end
       else Some (mkNode c None))
    with
    | Some node =>
        match _get_category_nodes (S depth) categories parent_list with
        | Some edge => Some (node :: edge)
        | None => None
        end
    | None => None
    end.
Proof. reflexivity. Qed.

Lemma length_filter_le {A} (P Q : A → Prop) `{∀ x, Decision (P x)} `{∀ x, Decision (Q x)}
    (l : list A) :
  (∀ x, P x → Q x) → (length (filter P l) ≤ length (filter Q l))%nat.
Proof.
  intros HPQ. induction l as [|y l IH]; [done|].
  rewrite !filter_cons.
  destruct (decide (P y)) as [HP|HP]; destruct (decide (Q y)) as [HQ|HQ]; simpl; try lia.
  exfalso. by apply HQ, HPQ.
Qed.

Lemma length_filter_lt {A} (P Q : A → Prop) `{∀ x, Decision (P x)} `{∀ x, Decision (Q x)}
    (l : list A) (x0 : A) :
  (∀ x, P x → Q x) → x0 ∈ l → Q x0 → ¬ P x0 →
  (length (filter P l) < length (filter Q l))%nat.
Proof.
  intros HPQ. induction l as [|x l IH]; [by intros ?%elem_of_nil|].
  pose proof (length_filter_le P Q l HPQ) as Hle.
  intros [->|Hin]%elem_of_cons HQ HP; rewrite !filter_cons.
  - rewrite decide_False, decide_True by done. simpl. lia.
  - specialize (IH Hin HQ HP).
    destruct (decide (P x)) as [HPx|HPx]; destruct (decide (Q x)) as [HQx|HQx];
      simpl; try lia.
    exfalso. by apply HQx, HPQ.
Qed.

Lemma get_category_nodes_forest (categories : list CmdbCategory) (depth : nat)
    (parent_list : list CmdbCategory) :
  (∀ c p, c ∈ categories → cat_parent_id c = Some p → p < cat_public_id c) →
  (0 < depth)%nat →
  (∀ c, c ∈ parent_list → (above categories (cat_public_id c) < depth)%nat) →
  ∃ edge, _get_category_nodes depth categories parent_list = Some edge ∧
          forest_of categories parent_list edge.
Proof.
  intros Hparent. revert parent_list.
  induction depth as [|depth IH]; intros parent_list Hpos Hdepth; [lia|].
  induction parent_list as [|c parent_list IHl].
  - exists []. split; [done|constructor].
  - rewrite get_category_nodes_cons.
    destruct IHl as (edge & Hedge & Hforest).
    { intros c' Hc'. apply Hdepth. by right. }
    rewrite Hedge.
    set (next_children := get_categories_by_parent categories (cat_public_id c)).
    case_bool_decide as Hlen.
    + destruct (IH next_children) as (nodes & Hnodes & Hsub).
      { assert (above categories (cat_public_id c) < S depth)%nat
          by (apply Hdepth; by left).
        destruct next_children as [|ch l] eqn:Hnext; [simpl in Hlen; lia|].
        assert (ch ∈ get_categories_by_parent categories (cat_public_id c)) as Hch.
        { fold next_children. rewrite Hnext. by left. }
        apply list_elem_of_filter in Hch as [Hp Hin].
        pose proof (Hparent ch _ Hin Hp) as Hlt.
        assert (above categories (cat_public_id ch) < above categories (cat_public_id c))%nat.
        { apply (length_filter_lt _ _ categories ch); [intros x; lia|done|done|lia]. }
        lia. }
      { intros ch Hch. apply list_elem_of_filter in Hch as [Hp Hin].
        pose proof (Hparent ch _ Hin Hp) as Hlt.
        assert (above categories (cat_public_id c) < S depth)%nat
          by (apply Hdepth; by left).
        assert (above categories (cat_public_id ch) < above categories (cat_public_id c))%nat.
        { apply (length_filter_lt _ _ categories ch); [intros x; lia|done|done|lia]. }
        lia. }
      rewrite Hnodes. eexists. split; [reflexivity|].
      apply forest_inner; [|done|done].
      fold next_children. intros Hnil. rewrite Hnil in Hlen. simpl in Hlen. lia.
    + eexists. split; [reflexivity|]. apply forest_leaf; [|done].
      fold next_children. destruct next_children; [done|]. simpl in Hlen. lia.
Qed.

(** X24. The category tree.  When every category with a parent has a public
    id above the parent's, and the recursion limit exceeds the number of
    categories, [get_category_tree] never runs into the limit: it raises
    [NoRootCategories] exactly when no category is a root (no parent id, or
    parent id 0), and otherwise hands back the forest under the roots, every
    category with the categories stored under its id as children, and
    [None] for a category without children. *)
Theorem get_category_tree_forest (depth : nat) (categories : list CmdbCategory) :
  (∀ c p, c ∈ categories → cat_parent_id c = Some p → p < cat_public_id c) →
  (length categories < depth)%nat →
  let root_categories :=
    filter (λ c, cat_parent_id c = None ∨ cat_parent_id c = Some 0) categories in
  match get_category_tree depth categories with
  | Tree tree => root_categories ≠ [] ∧ forest_of categories root_categories tree
  | NoRootCategories => root_categories = []
  | RecursionError => False
  end.
Proof.
  intros Hparent Hdepth root_categories. unfold get_category_tree.
  fold root_categories. case_bool_decide as Hlen.
  - destruct (get_category_nodes_forest categories depth root_categories)
      as (tree & -> & Hforest); [done|lia| |].
    + intros c _. unfold above.
      pose proof (length_filter (λ x, cat_public_id c < cat_public_id x) categories).
      lia.
    + split; [|done]. intros Hnil. rewrite Hnil in Hlen. simpl in Hlen. lia.
  - destruct root_categories; [done|]. simpl in Hlen. lia.
Qed.

Lemma get_category_tree_forest_witness :
  let categories :=
    [mkCategory 1 None; mkCategory 2 (Some 1); mkCategory 3 (Some 0);
     mkCategory 4 (Some 2)] in
  let tree :=
    [mkNode (mkCategory 1 None)
       (Some [mkNode (mkCategory 2 (Some 1))
                (Some [mkNode (mkCategory 4 (Some 2)) None])]);
     mkNode (mkCategory 3 (Some 0)) None] in
  get_category_tree 1000 categories = Tree tree ∧
  forest_of categories [mkCategory 1 None; mkCategory 3 (Some 0)] tree.
Proof.
  intros categories tree.
  assert (get_category_tree 1000 categories = Tree tree) as Hrun by (by vm_compute).
  split; [exact Hrun|].
  pose proof (get_category_tree_forest 1000 categories) as H.
  rewrite Hrun in H. apply H.
  - intros c p Hc Hp. unfold categories in Hc.
    repeat (apply elem_of_cons in Hc as [->|Hc]; [simpl in Hp; simplify_eq; simpl; lia|]).
    by apply elem_of_nil in Hc.
  - simpl. lia.
Defined.

End category_tree.

(** ** The user manager, once more *)

(** A user the lookup has found is matched by the deletion. *)
Lemma delete_found_user_run (R : Type) (w : World) (id : Z) (u : UserModel) :
  id ≠ 1 →
  find_user id w = Some u →
  UserManager.delete (R:=R) id w
  = (Return u,
     set_users (filter (λ x, user_public_id x ≠ id))
               (emit (EvDelete UsersC id) (emit (EvFindOne UsersC) w))).
Proof.
  intros Hid Hu. unfold UserManager.delete.
  rewrite bool_decide_eq_false_2 by (by rewrite list_elem_of_singleton).
  unfold UserManager.get, UserManager._delete. unfold_monad.
  change (find_user id (emit (EvFindOne UsersC) w)) with (find_user id w).
  rewrite Hu. cbn [users emit].
  destruct (length (filter (λ x, user_public_id x = id) (users w))) as [|n] eqn:Hlen;
    [|reflexivity].
  exfalso. apply length_zero_iff_nil in Hlen.
  apply find_Some_elem in Hu as [Hin Hk]. apply bool_decide_eq_true in Hk.
  assert (u ∈ filter (λ x, user_public_id x = id) (users w)) as Hf
    by (by apply list_elem_of_filter).
  rewrite Hlen in Hf. by apply elem_of_nil in Hf.
Qed.

(** X25. Deleting a user other than the administrator, when the user is
    stored: the user found is handed back, no user of that id is left, every
    other user is still found as before, and the store was accessed by one
    lookup and one deletion. *)
Theorem delete_user_removes (R : Type) (w : World) (id : Z) (u : UserModel) :
  id ≠ 1 →
  find_user id w = Some u →
  ∃ w',
    UserManager.delete (R:=R) id w = (Return u, w') ∧
    users w' = filter (λ x, user_public_id x ≠ id) (users w) ∧
    find_user id w' = None ∧
    (∀ j, j ≠ id → find_user j w' = find_user j w) ∧
    io w' = (io w ++ [EvFindOne UsersC; EvDelete UsersC id])%list.
Proof.
  intros Hid Hu. eexists. split; [by apply delete_found_user_run|].
  unfold find_user. simpl.
  split; [done|]. split; [apply find_filter_same|].
  split; [|by rewrite <- app_assoc].
  intros j Hj. by apply find_filter_other.
Qed.

Lemma delete_user_removes_witness :
  ∃ w',
    UserManager.delete (R:=unit) 2
      (mkWorld [] [] [] [] [] [mkUser 1 "admin"; mkUser 2 "ops"] [])
    = (Return (mkUser 2 "ops"), w') ∧
    users w' = [mkUser 1 "admin"].
Proof.
  destruct (delete_user_removes unit
              (mkWorld [] [] [] [] [] [mkUser 1 "admin"; mkUser 2 "ops"] [])
              2 (mkUser 2 "ops"))
    as (w' & Hrun & Husers & _); [lia|reflexivity|].
  exists w'. split; [exact Hrun|]. rewrite Husers. by vm_compute.
Defined.

(** X26. [ManagerDeleteError] is the answer for the administrator alone.
    Whenever [delete] raises, either the id is 1, the error is
    [ManagerDeleteError] and the world is unchanged, or the id is another
    one, no such user is stored, and the error is the [ManagerGetError] of
    the lookup: the branch for a deletion that matched no user is never
    taken. *)
Theorem delete_user_error_only_for_admin (R : Type) (w w' : World) (id : Z) (e : Exn) :
  UserManager.delete (R:=R) id w = (Raise e, w') →
  (e = ManagerDeleteError ∧ id = 1 ∧ w' = w) ∨
  (e = ManagerGetError ∧ id ≠ 1 ∧ find_user id w = None ∧
   w' = emit (EvFindOne UsersC) w).
Proof.
  unfold UserManager.delete.
  case_bool_decide as Hid.
  - apply list_elem_of_singleton in Hid as ->. intros [= <- <-]. by left.
  - rewrite list_elem_of_singleton in Hid.
    destruct (find_user id w) as [u|] eqn:Hu.
    + pose proof (delete_found_user_run R w id u Hid Hu) as Hrun.
      unfold UserManager.delete in Hrun.
      rewrite bool_decide_eq_false_2 in Hrun by (by rewrite list_elem_of_singleton).
      rewrite Hrun. discriminate.
    + unfold UserManager.get. unfold_monad.
      change (find_user id (emit (EvFindOne UsersC) w)) with (find_user id w).
      rewrite Hu. intros [= <- <-]. by right.
Qed.

Lemma delete_user_error_only_for_admin_witness :
  let w := mkWorld [] [] [] [] [] [mkUser 1 "admin"; mkUser 2 "ops"] [] in
  (ManagerGetError = ManagerDeleteError ∧ 9 = 1 ∧ emit (EvFindOne UsersC) w = w) ∨
  (ManagerGetError = ManagerGetError ∧ 9 ≠ 1 ∧ find_user 9 w = None ∧
   emit (EvFindOne UsersC) w = emit (EvFindOne UsersC) w).
Proof.
  intros w.
  apply (delete_user_error_only_for_admin unit w (emit (EvFindOne UsersC) w) 9
           ManagerGetError).
  reflexivity.
Defined.

(** ** The CSV export *)

Section csv_export.
Import CmdbObjectManager export_routes.

Lemma parse_to_csv_row (i : nat) (fs : list Field) (header row : list string) :
  foldl (λ '(header, row) key,
           let header :=
             if (i =? 0)%nat then (header ++ [f_name key])%list else header in
           (header, (row ++ [py_str (f_value key)])%list))
        (header, row) fs
  = ((if (i =? 0)%nat then header ++ map f_name fs else header)%list,
     (row ++ map (λ key, py_str (f_value key)) fs)%list).
Proof.
  revert header row. induction fs as [|f fs IH]; intros header row; simpl.
  - destruct (i =? 0)%nat; by rewrite !app_nil_r.
  - rewrite IH. destruct (i =? 0)%nat; by rewrite <- !app_assoc.
Qed.

Lemma parse_to_csv_rows (data_list : list CmdbObject) (header rows : list string)
    (i : nat) :
  foldl (λ '(header, rows, i) obj,
           let fields_ := fields obj in
           let row := [str (public_id obj)] in
           let '(header, row) :=
             foldl (λ '(header, row) key,
                      let header :=
                        if (i =? 0)%nat then (header ++ [f_name key])%list else header in
                      (header, (row ++ [py_str (f_value key)])%list))
                   (header, row) fields_ in
           (header, (rows ++ [join "," row])%list, S i))
        (header, rows, i) data_list
  = ((header ++ match i, data_list with
                | O, obj :: _ => map f_name (fields obj)
                | _, _ => []
                end)%list,
     (rows ++ map csv_row data_list)%list,
     (i + length data_list)%nat).
Proof.
  revert header rows i. induction data_list as [|obj l IH]; intros header rows i.
  - simpl. destruct i; by rewrite !app_nil_r, Nat.add_0_r.
  - cbn [foldl]. rewrite parse_to_csv_row. rewrite IH. cbn [length].
    rewrite <- app_assoc. cbn [map app]. unfold csv_row at 2.
    destruct i; simpl; [|rewrite Nat.add_succ_r]; by rewrite ?app_nil_r.
Qed.

Lemma string_app_nil_r (s : string) : s ++ "" = s.
Proof.
  induction s as [|a s IH]; [done|].
  change (String a (s ++ "") = String a s). by rewrite IH.
Qed.

Lemma join_cons_foldr (sep first : string) (rows : list string) :
  join sep (first :: rows)
  = first ++ foldr (λ row rest, sep ++ row ++ rest) "" rows.
Proof.
  unfold join. revert first.
  induction rows as [|row rows IH]; intros first.
  - simpl. by rewrite string_app_nil_r.
  - change (String.concat sep (first :: row :: rows))
      with (first ++ sep ++ String.concat sep (row :: rows)).
    by rewrite IH.
Qed.

(** X27. The layout of the CSV export: the header is [public_id], then the
    field names of the first object only, followed by a comma; then, for
    every object, a new line with its public id and the [str] of every field
    value, comma-separated.  An empty list gives the text [public_id,]. *)
Theorem parse_to_csv_layout (data_list : list CmdbObject) :
  parse_to_csv data_list
  = join ","
      ("public_id" :: match data_list with
                      | [] => []
                      | obj :: _ => map f_name (fields obj)
                      end)
    ++ "," ++ csv_lines data_list.
Proof.
  unfold parse_to_csv. rewrite parse_to_csv_rows.
  cbn [app]. f_equal. rewrite join_cons_foldr. f_equal.
  unfold csv_lines. induction data_list as [|obj l IH]; simpl; [done|].
  by rewrite IH.
Qed.

End csv_export.

(** ** The check routine *)

Section check_routine.
Import CheckRoutine.

(** A loop over collections that all validate without an exception ends
    with the answer for the last one. *)
Lemma validate_loop_last (s : Setup) (with_locations : bool)
    (classes : list CollectionClass) (collection_test : bool) (calls : list SetupCall) :
  (∀ c, c ∈ classes → validate_collection s (COLLECTION c) ≠ None) →
  ∃ calls',
    validate_loop s with_locations classes collection_test calls
    = (Some (match last classes with
             | Some c => default true (validate_collection s (COLLECTION c))
             | None => collection_test
             end), calls').
Proof.
  revert collection_test calls.
  induction classes as [|c classes IH]; intros collection_test calls Hvalid.
  - by eexists.
  - cbn [validate_loop].
    destruct (validate_collection s (COLLECTION c)) as [b|] eqn:Hc.
    2:{ exfalso. by apply (Hvalid c); [left|]. }
    edestruct (IH b) as (calls' & ->).
    { intros c' Hc'. apply Hvalid. by right. }
    exists calls'. f_equal. f_equal.
    destruct classes as [|c' classes']; [cbn [last]; by rewrite Hc|].
    rewrite last_cons_cons.
    destruct (last (c' :: classes')) eqn:Hl; [done|]. by apply last_None in Hl.
Qed.

(** The answer of the collection check, when no validation raises. *)
Lemma collection_check_last (s : Setup)
    (FRAMEWORK_CLASSES USER_MANAGEMENT_COLLECTION JOB_MANAGEMENT_COLLECTION
       : list CollectionClass) (c : CollectionClass) :
  (∀ c', c' ∈ (FRAMEWORK_CLASSES ++ USER_MANAGEMENT_COLLECTION
               ++ JOB_MANAGEMENT_COLLECTION)%list →
         validate_collection s (COLLECTION c') ≠ None) →
  last (FRAMEWORK_CLASSES ++ USER_MANAGEMENT_COLLECTION ++ JOB_MANAGEMENT_COLLECTION)%list
    = Some c →
  validate_collection s (COLLECTION c)
  = Some (__check_database_collection_valid s FRAMEWORK_CLASSES
            USER_MANAGEMENT_COLLECTION JOB_MANAGEMENT_COLLECTION).1.
Proof.
  intros Hvalid Hlast. unfold __check_database_collection_valid.
  destruct (validate_loop_last s true FRAMEWORK_CLASSES true []) as (calls1 & ->).
  { intros c' Hc'. apply Hvalid. rewrite !elem_of_app. tauto. }
  match goal with
  | |- context [validate_loop s false USER_MANAGEMENT_COLLECTION ?b calls1] =>
      destruct (validate_loop_last s false USER_MANAGEMENT_COLLECTION b calls1)
        as (calls2 & ->)
  end.
  { intros c' Hc'. apply Hvalid. rewrite !elem_of_app. tauto. }
  match goal with
  | |- context [validate_loop s false JOB_MANAGEMENT_COLLECTION ?b calls2] =>
      destruct (validate_loop_last s false JOB_MANAGEMENT_COLLECTION b calls2)
        as (calls3 & ->)
  end.
  { intros c' Hc'. apply Hvalid. rewrite !elem_of_app. tauto. }
  cbn [fst].
  assert (∀ c0, validate_collection s (COLLECTION c0) ≠ None →
                validate_collection s (COLLECTION c0)
                = Some (default true (validate_collection s (COLLECTION c0)))) as Hsome.
  { intros c0 Hc0. by destruct (validate_collection s (COLLECTION c0)). }
  rewrite !last_app in Hlast.
  destruct (last JOB_MANAGEMENT_COLLECTION) as [cj|] eqn:Hj.
  { simplify_eq. apply Hsome, Hvalid. rewrite !elem_of_app. right. right.
    by apply last_Some_elem_of. }
  destruct (last USER_MANAGEMENT_COLLECTION) as [cu|] eqn:Hu.
  { simplify_eq. apply Hsome, Hvalid. rewrite !elem_of_app. right. left.
    by apply last_Some_elem_of. }
  destruct (last FRAMEWORK_CLASSES) as [cf|] eqn:Hf; [|done].
  simplify_eq. apply Hsome, Hvalid. rewrite !elem_of_app. left.
  by apply last_Some_elem_of.
Qed.

(** X28. The collection check answers for the last collection only.  When no
    validation raises, the answer is the validity of the last collection of
    the three lists taken together, whatever the validations before it said. *)
Theorem collection_check_answers_for_last (s : Setup)
    (FRAMEWORK_CLASSES USER_MANAGEMENT_COLLECTION JOB_MANAGEMENT_COLLECTION
       : list CollectionClass) (c : CollectionClass) :
  (∀ c', c' ∈ (FRAMEWORK_CLASSES ++ USER_MANAGEMENT_COLLECTION
               ++ JOB_MANAGEMENT_COLLECTION)%list →
         validate_collection s (COLLECTION c') ≠ None) →
  last (FRAMEWORK_CLASSES ++ USER_MANAGEMENT_COLLECTION ++ JOB_MANAGEMENT_COLLECTION)%list
    = Some c →
  validate_collection s (COLLECTION c)
  = Some (__check_database_collection_valid s FRAMEWORK_CLASSES
            USER_MANAGEMENT_COLLECTION JOB_MANAGEMENT_COLLECTION).1.
Proof.
  intros Hvalid Hlast.
  by apply (collection_check_last s FRAMEWORK_CLASSES USER_MANAGEMENT_COLLECTION
              JOB_MANAGEMENT_COLLECTION c).
Qed.

Lemma collection_check_answers_for_last_witness :
  let s := mkSetup ["framework.objects"]
                   (λ name, Some (negb (String.eqb name "framework.objects")))
                   (Some true) false 1 1 in
  (__check_database_collection_valid s
     [mkClass "framework.objects" false; mkClass "framework.locations" true]
     [mkClass "management.users" false] [mkClass "exportd.jobs" false]).1 = true.
Proof.
  intros s.
  pose proof (collection_check_answers_for_last s
     [mkClass "framework.objects" false; mkClass "framework.locations" true]
     [mkClass "management.users" false] [mkClass "exportd.jobs" false]
     (mkClass "exportd.jobs" false)) as H.
  assert (∀ b : bool, Some true = Some b → b = true) as Hinj by (by intros b [= <-]).
  apply Hinj, H.
  - done.
  - reflexivity.
Defined.

(** X30. The status the check routine ends with, on a database that has
    collections and whose validations do not raise: never [NOT] or
    [RUNNING]; and [FINISHED] exactly when the last collection validated is
    valid, the section 'updater' can be read, and the updater module knows
    no version above the one of the settings ([has_updates] answers [True]
    when there is no update to run).  Otherwise the status is
    [HAS_UPDATES]. *)
Theorem checker_finished_iff (s : Setup)
    (FRAMEWORK_CLASSES USER_MANAGEMENT_COLLECTION JOB_MANAGEMENT_COLLECTION
       : list CollectionClass) (c : CollectionClass) :
  collection_names s ≠ [] →
  (∀ c', c' ∈ (FRAMEWORK_CLASSES ++ USER_MANAGEMENT_COLLECTION
               ++ JOB_MANAGEMENT_COLLECTION)%list →
         validate_collection s (COLLECTION c') ≠ None) →
  last (FRAMEWORK_CLASSES ++ USER_MANAGEMENT_COLLECTION ++ JOB_MANAGEMENT_COLLECTION)%list
    = Some c →
  let status :=
    (checker s FRAMEWORK_CLASSES USER_MANAGEMENT_COLLECTION JOB_MANAGEMENT_COLLECTION).1 in
  (status = FINISHED ∨ status = HAS_UPDATES) ∧
  (status = FINISHED ↔
   validate_collection s (COLLECTION c) = Some true ∧
   section_error s = false ∧
   last_version s ≤ settings_version s).
Proof.
  intros Hnames Hvalid Hlast.
  pose proof (collection_check_last s FRAMEWORK_CLASSES USER_MANAGEMENT_COLLECTION
                JOB_MANAGEMENT_COLLECTION c Hvalid Hlast) as Hc.
  unfold checker, __is_database_empty.
  destruct (collection_names s) as [|name names]; [done|]. cbn [negb].
  destruct (__check_database_collection_valid s FRAMEWORK_CLASSES
              USER_MANAGEMENT_COLLECTION JOB_MANAGEMENT_COLLECTION) as [valid calls].
  cbn [fst] in Hc. rewrite Hc. unfold has_updates.
  destruct valid, (section_error s); cbn [andb negb fst];
    try (split; [by right|]; split; [done|by intros (? & ? & ?)]).
  destruct (settings_version s <? last_version s) eqn:Hv; cbn [negb fst].
  - apply Z.ltb_lt in Hv. split; [by right|]. split; [done|]. intros (_ & _ & ?). lia.
  - apply Z.ltb_ge in Hv. split; [by left|]. done.
Qed.

Lemma checker_finished_iff_witness :
  let s := mkSetup ["framework.objects"]
                   (λ name, Some (negb (String.eqb name "framework.objects")))
                   (Some true) false 1 1 in
  (checker s [mkClass "framework.objects" false; mkClass "framework.locations" true]
           [mkClass "management.users" false] [mkClass "exportd.jobs" false]).1
  = FINISHED.
Proof.
  intros s.
  apply (checker_finished_iff s
           [mkClass "framework.objects" false; mkClass "framework.locations" true]
           [mkClass "management.users" false] [mkClass "exportd.jobs" false]
           (mkClass "exportd.jobs" false)).
  - done.
  - done.
  - reflexivity.
  - split; [reflexivity|]. split; [reflexivity|]. simpl. lia.
Defined.

End check_routine.
